(** * BlockDAO: the block data-access layer of iotex-core

    A shallow embedding of [blockchain/blockdao.go] and a verification of
    its storage contract: atomic insertion, the global counters, the
    per-address indexes and the error behaviour of the readers.

    Go values are modelled as follows.
    - [[]byte] and [hash.Hash32B] are [list byte]; a Go [string] is a
      [string] and is turned into bytes by [list_byte_of_string].
      [append] always builds a fresh list.
    - [uint64] is a [Z] in [0, 2^64); every addition is followed by
      [wrap64].
    - [error] is [option Err], [None] being Go's [nil].
    - A function that returns [(v, err)] returns the pair; a function that
      can hit a run-time panic (decoding a slice shorter than eight bytes)
      returns an [option], [None] being the panic.
    - The data base handle is a pair of the stored data and of the faults
      the backend injects during the call. *)

From Stdlib Require Import ZArith Lia Strings.String Strings.Byte.
From coqutil Require Import Byte Word.LittleEndianList.
From stdpp Require Import gmap strings list fin_maps.

Local Open Scope Z_scope.

#[global] Instance byte_eq_dec : EqDecision byte := Byte.byte_eq_dec.
#[global] Instance byte_countable : Countable byte :=
  inj_countable Byte.to_N Byte.of_N Byte.of_to_N.

Abbreviation Hash32B := (list byte) (only parsing).

(** ** Errors: Go's [error] and the [github.com/pkg/errors] helpers *)

Inductive Err : Type :=
| ErrNotExist                          (* db.ErrNotExist *)
| ErrAlreadyExist                      (* db.ErrAlreadyExist *)
| ErrBackend (what : string)           (* an I/O failure of the store *)
| ErrAddress (what : string)           (* a failure of address derivation *)
| ErrSerialize (what : string)         (* a failure of Block.Serialize *)
| ErrNew (msg : string)                (* errors.New(msg) *)
| ErrWrap (cause : Err) (msg : string) (* errors.Wrap(cause, msg) *).

Abbreviation error := (option Err) (only parsing).

Module errors.

Definition New (msg : string) : error := Some (ErrNew msg).

(** [errors.Wrap] annotates an error; wrapping [nil] gives [nil]. *)
Definition Wrap (err : error) (msg : string) : error :=
  match err with
  | Some e => Some (ErrWrap e msg)
  | None => None
  end.

(** [errors.Wrapf]: the format arguments only fill in the message and are
    left out. *)
Definition Wrapf (err : error) (format : string) : error := Wrap err format.

(** [errors.Cause]: the innermost error of a chain of wraps. *)
Fixpoint Cause (e : Err) : Err :=
  match e with
  | ErrWrap c _ => Cause c
  | _ => e
  end.

End errors.

(** ** [pkg/hash], [pkg/enc], [pkg/util/byteutil] *)

Definition wrap64 (z : Z) : Z := z mod 2 ^ 64.

(** Go's builtin [copy(dst, src)]: the first [min(len dst, len src)]
    elements of [dst] are overwritten. *)
Definition copy (dst src : list byte) : list byte :=
  take (length dst) src ++ drop (length src) dst.

Module hash.

Definition ZeroHash32B : Hash32B := replicate 32 Byte.x00.

End hash.

Module enc.

(** Modelled from the spec: the integer codec (package [pkg/enc]) is not
    among the sources; the spec fixes it as "8-byte fixed width in a
    single, documented endianness", here little endian. Decoding reads the
    first eight bytes; on a shorter slice Go's byte-order decoder panics
    (index out of range), which is [None]. *)
Definition MachineEndian_Uint64 (b : list byte) : option Z :=
  if (length b <? 8)%nat then None else Some (le_combine (take 8 b)).

End enc.

Module byteutil.

(** Modelled from the spec: [byteutil.Uint64ToBytes] is not among the
    sources; it is the eight-byte encoding that [enc] decodes. *)
Definition Uint64ToBytes (value : Z) : list byte := le_split 8 value.

End byteutil.

(** ** The key-value store, package [db] *)

Module db.

Abbreviation Store := (gmap (string * list byte) (list byte)) (only parsing).

(** A staged write of a batch, with its failure message. *)
Inductive write : Type :=
| WPut (ns : string) (key value : list byte) (errorFormat : string)
| WPutIfNotExists (ns : string) (key value : list byte) (errorFormat : string).

Definition wns (w : write) : string :=
  match w with WPut ns _ _ _ | WPutIfNotExists ns _ _ _ => ns end.

Definition wkey (w : write) : list byte :=
  match w with WPut _ k _ _ | WPutIfNotExists _ k _ _ => k end.

Definition wvalue (w : write) : list byte :=
  match w with WPut _ _ v _ | WPutIfNotExists _ _ v _ => v end.

Definition is_WPut (w : write) : bool :=
  match w with WPut _ _ _ _ => true | WPutIfNotExists _ _ _ _ => false end.

(** The place a staged write is aimed at. *)
Definition target (w : write) : string * list byte := (wns w, wkey w).

Abbreviation KVStoreBatch := (list write) (only parsing).

(** [kvstore.Batch()]: a new, empty batch. *)
Definition Batch : KVStoreBatch := [].

(** [batch.Put] and [batch.PutIfNotExists] queue a write. *)
Definition batch_Put (batch : KVStoreBatch) (ns : string)
  (key value : list byte) (errorFormat : string) : KVStoreBatch :=
  batch ++ [WPut ns key value errorFormat].

Definition batch_PutIfNotExists (batch : KVStoreBatch) (ns : string)
  (key value : list byte) (errorFormat : string) : KVStoreBatch :=
  batch ++ [WPutIfNotExists ns key value errorFormat].

(** What the backend does wrong during one call: each field is [None]
    when the corresponding operation works and names the failure
    otherwise. Whether a commit is rejected may depend on the store and
    on the batch. *)
Record Faults : Type := {
  OnStart_fails : option string;
  Get_fails : string -> list byte -> option string;
  PutIfNotExists_fails : string -> list byte -> option string;
  Commit_fails : Store -> KVStoreBatch -> option string
}.

Definition healthy : Faults :=
  {| OnStart_fails := None;
     Get_fails := fun _ _ => None;
     PutIfNotExists_fails := fun _ _ => None;
     Commit_fails := fun _ _ => None |}.

(** Modelled from the spec: [KVStore.Get] is not among the sources;
    "get(namespace, key) -> value | missing", and a backend failure is an
    error as well. A missing key is reported by [ErrNotExist]. *)
Definition Get (f : Faults) (kv : Store) (ns : string) (key : list byte)
  : list byte * error :=
  match Get_fails f ns key with
  | Some what => ([], Some (ErrBackend what))
  | None =>
      match kv !! (ns, key) with
      | Some v => (v, None)
      | None => ([], Some ErrNotExist)
      end
  end.

(** Modelled from the spec: [KVStore.PutIfNotExists] is not among the
    sources; "putIfNotExists(namespace, key, value) -> ok | already-exists
    | error". *)
Definition PutIfNotExists (f : Faults) (kv : Store) (ns : string)
  (key value : list byte) : Store * error :=
  match PutIfNotExists_fails f ns key with
  | Some what => (kv, Some (ErrBackend what))
  | None =>
      match kv !! (ns, key) with
      | Some _ => (kv, Some ErrAlreadyExist)
      | None => (<[(ns, key) := value]> kv, None)
      end
  end.

(** Modelled from the spec: the effect of one staged write at commit
    time. A conditional insert whose key is taken "collides safely": it
    is skipped and the rest of the batch is applied (spec 4.4 and 9). *)
Definition apply_write (kv : Store) (w : write) : Store :=
  match w with
  | WPut ns key value _ => <[(ns, key) := value]> kv
  | WPutIfNotExists ns key value _ =>
      match kv !! (ns, key) with
      | Some _ => kv
      | None => <[(ns, key) := value]> kv
      end
  end.

(** Modelled from the spec: [batch.Commit] is not among the sources;
    "commit() applies atomically or fails as a whole leaving the store
    unchanged". *)
Definition Commit (f : Faults) (kv : Store) (batch : KVStoreBatch)
  : Store * error :=
  match Commit_fails f kv batch with
  | Some what => (kv, Some (ErrBackend what))
  | None => (foldl apply_write kv batch, None)
  end.

End db.

(** ** Blocks, transfers and votes *)

(** Modelled from the spec: [Block], [Transfer] and [Vote] are declared
    outside the sources; the spec lists what the core uses of them. A
    method without arguments is a field holding its result. *)
Record Transfer : Type := {
  Transfer_Hash : Hash32B;
  Sender : string;
  Recipient : string
}.

Record Vote : Type := {
  Vote_Hash : Hash32B;
  SelfPubkey : list byte;
  VotePubkey : list byte
}.

Record Block : Type := {
  Height : Z;
  Transfers : list Transfer;
  Votes : list Vote;
  HashBlock : Hash32B;
  Serialize : list byte * error
}.

(** ** The schema of [blockdao.go] *)

Definition blockNS : string := "blocks"%string.
Definition blockHashHeightMappingNS : string := "hash<->height"%string.
Definition blockTransferBlockMappingNS : string := "transfer<->block"%string.
Definition blockVoteBlockMappingNS : string := "vote<->block"%string.
Definition blockAddressTransferMappingNS : string := "address<->transfer"%string.
Definition blockAddressTransferCountMappingNS : string := "address<->transfercount"%string.
Definition blockAddressVoteMappingNS : string := "address<->vote"%string.
Definition blockAddressVoteCountMappingNS : string := "address<->votecount"%string.

Definition hashPrefix : list byte := list_byte_of_string "hash.".
Definition transferPrefix : list byte := list_byte_of_string "transfer.".
Definition votePrefix : list byte := list_byte_of_string "vote.".
Definition heightPrefix : list byte := list_byte_of_string "height.".
Definition topHeightKey : list byte := list_byte_of_string "top-height".
Definition totalTransfersKey : list byte := list_byte_of_string "total-transfers".
Definition totalVotesKey : list byte := list_byte_of_string "total-votes".
Definition transferFromPrefix : list byte := list_byte_of_string "transfer-from.".
Definition transferToPrefix : list byte := list_byte_of_string "transfer-to.".
Definition voteFromPrefix : list byte := list_byte_of_string "vote-from.".
Definition voteToPrefix : list byte := list_byte_of_string "vote-to.".

(** [make([]byte, 8)] *)
Definition make_bytes (n : nat) : list byte := replicate n Byte.x00.

(** ** The block DAO

    The receiver [dao] is the pair [(f, kv)]: the faults of the backend
    during the call and the stored data. *)

(** [Start] starts the block DAO and initiates the top height if it does
    not exist. *)
Definition Start (f : db.Faults) (kv : db.Store) : db.Store * error :=
  let err := ErrBackend <$> db.OnStart_fails f in
  match err with
  | Some _ => (kv, errors.Wrap err "failed to start child services")
  | None =>
      (* set init height value *)
      let '(kv, err) := db.PutIfNotExists f kv blockNS topHeightKey (make_bytes 8) in
      match err with
      | Some ErrAlreadyExist => (kv, None) (* ok on none-fresh db *)
      | Some _ => (kv, errors.Wrap err "failed to write initial value for top height")
      | None =>
          (* set init total transfer to be 0 *)
          let '(kv, err) :=
            db.PutIfNotExists f kv blockNS totalTransfersKey (make_bytes 8) in
          match err with
          | Some _ =>
              (kv, errors.Wrap err "failed to write initial value for total transfers")
          | None =>
              (* set init total vote to be 0 *)
              let '(kv, err) :=
                db.PutIfNotExists f kv blockNS totalVotesKey (make_bytes 8) in
              match err with
              | Some _ =>
                  (kv, errors.Wrap err "failed to write initial value for total votes")
              | None => (kv, None)
              end
          end
      end
  end.

(** [getBlockHash] returns the block hash by height. *)
Definition getBlockHash (f : db.Faults) (kv : db.Store) (height : Z)
  : Hash32B * error :=
  let key := heightPrefix ++ byteutil.Uint64ToBytes height in
  let '(value, err) := db.Get f kv blockHashHeightMappingNS key in
  let hash := hash.ZeroHash32B in
  match err with
  | Some _ => (hash, errors.Wrap err "failed to get block hash")
  | None =>
      if negb (length hash =? length value)%nat
      then (hash, errors.Wrap err "blockhash is broken")
      else (copy hash value, None)
  end.

(** [getBlockHeight] returns the block height by hash. *)
Definition getBlockHeight (f : db.Faults) (kv : db.Store) (hash : Hash32B)
  : option (Z * error) :=
  let key := hashPrefix ++ hash in
  let '(value, err) := db.Get f kv blockHashHeightMappingNS key in
  match err with
  | Some _ => Some (0, errors.Wrap err "failed to get block height")
  | None =>
      if (length value =? 0)%nat
      then Some (0, errors.Wrapf (Some ErrNotExist)
                      "height missing for block with hash = %x")
      else h ← enc.MachineEndian_Uint64 value; Some (h, None)
  end.

Definition getTransferCountBySenderAddress (f : db.Faults) (kv : db.Store)
  (address : string) : option (Z * error) :=
  let senderTransferCountKey := transferFromPrefix ++ list_byte_of_string address in
  let '(value, err) :=
    db.Get f kv blockAddressTransferCountMappingNS senderTransferCountKey in
  match err with
  | Some _ => Some (0, None)
  | None =>
      if (length value =? 0)%nat
      then Some (0, errors.New "count of transfers as recipient is broken")
      else c ← enc.MachineEndian_Uint64 value; Some (c, None)
  end.

Definition getTransferCountByRecipientAddress (f : db.Faults) (kv : db.Store)
  (address : string) : option (Z * error) :=
  let recipientTransferCountKey := transferToPrefix ++ list_byte_of_string address in
  let '(value, err) :=
    db.Get f kv blockAddressTransferCountMappingNS recipientTransferCountKey in
  match err with
  | Some _ => Some (0, None)
  | None =>
      if (length value =? 0)%nat
      then Some (0, errors.New "count of transfers as recipient is broken")
      else c ← enc.MachineEndian_Uint64 value; Some (c, None)
  end.

(** The loop of [getTransfersByAddress]: [n] iterations are left, [i] is
    the loop counter, [res] the hashes collected so far. *)
Fixpoint getTransfersByAddress_loop (f : db.Faults) (kv : db.Store)
  (address : string) (keyPrefix : list byte) (n : nat) (i : Z)
  (res : list Hash32B) : list Hash32B * error :=
  match n with
  | O => (res, None)
  | S n' =>
      let key := keyPrefix ++ list_byte_of_string address in
      let key := key ++ byteutil.Uint64ToBytes i in
      let '(value, err) := db.Get f kv blockAddressTransferMappingNS key in
      match err with
      | Some _ => (res, errors.Wrapf err "failed to get transfer for index %x")
      | None =>
          if (length value =? 0)%nat
          then (res, errors.Wrapf (Some ErrNotExist) "transfer for index %x missing")
          else
            let transferHash := hash.ZeroHash32B in
            let transferHash := copy transferHash value in
            getTransfersByAddress_loop f kv address keyPrefix n' (wrap64 (i + 1))
              (res ++ [transferHash])
      end
  end.

Definition getTransfersByAddress (f : db.Faults) (kv : db.Store)
  (address : string) (count : Z) (keyPrefix : list byte)
  : list Hash32B * error :=
  getTransfersByAddress_loop f kv address keyPrefix (Z.to_nat count) 0 [].

Definition getTransfersBySenderAddress (f : db.Faults) (kv : db.Store)
  (address : string) : option (list Hash32B * error) :=
  (* get transfers count for sender *)
  '(senderTransferCount, err) ← getTransferCountBySenderAddress f kv address;
  match err with
  | Some _ => Some ([], errors.Wrapf err "for sender %x")
  | None =>
      let '(res, getTransfersErr) :=
        getTransfersByAddress f kv address senderTransferCount transferFromPrefix in
      match getTransfersErr with
      | Some _ => Some ([], getTransfersErr)
      | None => Some (res, None)
      end
  end.

Definition getTransfersByRecipientAddress (f : db.Faults) (kv : db.Store)
  (address : string) : option (list Hash32B * error) :=
  (* get transfers count for recipient *)
  '(recipientTransferCount, getCountErr) ←
    getTransferCountByRecipientAddress f kv address;
  match getCountErr with
  | Some _ => Some ([], errors.Wrapf getCountErr "for recipient %x")
  | None =>
      let '(res, getTransfersErr) :=
        getTransfersByAddress f kv address recipientTransferCount transferToPrefix in
      match getTransfersErr with
      | Some _ => Some ([], getTransfersErr)
      | None => Some (res, None)
      end
  end.

(** [getVoteCountBySenderAddress] returns vote count by sender address. *)
Definition getVoteCountBySenderAddress (f : db.Faults) (kv : db.Store)
  (address : string) : option (Z * error) :=
  let senderVoteCountKey := voteFromPrefix ++ list_byte_of_string address in
  let '(value, err) :=
    db.Get f kv blockAddressVoteCountMappingNS senderVoteCountKey in
  match err with
  | Some _ => Some (0, None)
  | None =>
      if (length value =? 0)%nat
      then Some (0, errors.New "count of votes as sender is broken")
      else c ← enc.MachineEndian_Uint64 value; Some (c, None)
  end.

(** [getVoteCountByRecipientAddress] returns vote count by recipient
    address. *)
Definition getVoteCountByRecipientAddress (f : db.Faults) (kv : db.Store)
  (address : string) : option (Z * error) :=
  let recipientVoteCountKey := voteToPrefix ++ list_byte_of_string address in
  let '(value, err) :=
    db.Get f kv blockAddressVoteCountMappingNS recipientVoteCountKey in
  match err with
  | Some _ => Some (0, None)
  | None =>
      if (length value =? 0)%nat
      then Some (0, errors.New "count of votes as recipient is broken")
      else c ← enc.MachineEndian_Uint64 value; Some (c, None)
  end.

(** The loop of [getVotesByAddress]. *)
Fixpoint getVotesByAddress_loop (f : db.Faults) (kv : db.Store)
  (address : string) (keyPrefix : list byte) (n : nat) (i : Z)
  (res : list Hash32B) : list Hash32B * error :=
  match n with
  | O => (res, None)
  | S n' =>
      let key := keyPrefix ++ list_byte_of_string address in
      let key := key ++ byteutil.Uint64ToBytes i in
      let '(value, err) := db.Get f kv blockAddressVoteMappingNS key in
      match err with
      | Some _ => (res, errors.Wrapf err "failed to get vote for index %x")
      | None =>
          if (length value =? 0)%nat
          then (res, errors.Wrapf (Some ErrNotExist) "vote for index %x missing")
          else
            let voteHash := hash.ZeroHash32B in
            let voteHash := copy voteHash value in
            getVotesByAddress_loop f kv address keyPrefix n' (wrap64 (i + 1))
              (res ++ [voteHash])
      end
  end.

(** [getVotesByAddress] returns votes by address. *)
Definition getVotesByAddress (f : db.Faults) (kv : db.Store)
  (address : string) (count : Z) (keyPrefix : list byte)
  : list Hash32B * error :=
  getVotesByAddress_loop f kv address keyPrefix (Z.to_nat count) 0 [].

(** [getVotesBySenderAddress] returns votes for sender. *)
Definition getVotesBySenderAddress (f : db.Faults) (kv : db.Store)
  (address : string) : option (list Hash32B * error) :=
  '(senderVoteCount, err) ← getVoteCountBySenderAddress f kv address;
  match err with
  | Some _ => Some ([], errors.Wrapf err "to get votecount for sender %x")
  | None =>
      let '(res, err) := getVotesByAddress f kv address senderVoteCount voteFromPrefix in
      match err with
      | Some _ => Some ([], errors.Wrapf err "to get votes for sender %x")
      | None => Some (res, None)
      end
  end.

(** [getVotesByRecipientAddress] returns votes by recipient address. *)
Definition getVotesByRecipientAddress (f : db.Faults) (kv : db.Store)
  (address : string) : option (list Hash32B * error) :=
  '(recipientVoteCount, err) ← getVoteCountByRecipientAddress f kv address;
  match err with
  | Some _ => Some ([], errors.Wrapf err "to get votecount for recipient %x")
  | None =>
      let '(res, err) :=
        getVotesByAddress f kv address recipientVoteCount voteToPrefix in
      match err with
      | Some _ => Some ([], errors.Wrapf err "to get votes for recipient %x")
      | None => Some (res, None)
      end
  end.

(** [getBlockchainHeight] returns the blockchain height. *)
Definition getBlockchainHeight (f : db.Faults) (kv : db.Store)
  : option (Z * error) :=
  let '(value, err) := db.Get f kv blockNS topHeightKey in
  match err with
  | Some _ => Some (0, errors.Wrap err "failed to get top height")
  | None =>
      if (length value =? 0)%nat
      then Some (0, errors.Wrap (Some ErrNotExist) "blockchain height missing")
      else h ← enc.MachineEndian_Uint64 value; Some (h, None)
  end.

(** [getTotalTransfers] returns the total number of transfers. *)
Definition getTotalTransfers (f : db.Faults) (kv : db.Store)
  : option (Z * error) :=
  let '(value, err) := db.Get f kv blockNS totalTransfersKey in
  match err with
  | Some _ => Some (0, errors.Wrap err "failed to get total transfers")
  | None =>
      if (length value =? 0)%nat
      then Some (0, errors.Wrap (Some ErrNotExist) "total transfers missing")
      else n ← enc.MachineEndian_Uint64 value; Some (n, None)
  end.

(** [getTotalVotes] returns the total number of votes. *)
Definition getTotalVotes (f : db.Faults) (kv : db.Store)
  : option (Z * error) :=
  let '(value, err) := db.Get f kv blockNS totalVotesKey in
  match err with
  | Some _ => Some (0, errors.Wrap err "failed to get total votes")
  | None =>
      if (length value =? 0)%nat
      then Some (0, errors.Wrap (Some ErrNotExist) "total votes missing")
      else n ← enc.MachineEndian_Uint64 value; Some (n, None)
  end.

Section BlockCodec.

(** [Block.Deserialize], applied to a zero [Block]: the block the bytes
    decode to, or the error. *)
Variable Deserialize : list byte -> Block * error.

(** [getBlock] returns a block; the [nil] pointer is [None]. *)
Definition getBlock (f : db.Faults) (kv : db.Store) (hash : Hash32B)
  : option Block * error :=
  let '(value, err) := db.Get f kv blockNS hash in
  match err with
  | Some _ => (None, errors.Wrapf err "failed to get block %x")
  | None =>
      if (length value =? 0)%nat
      then (None, errors.Wrapf (Some ErrNotExist) "block %x missing")
      else
        let '(blk, err) := Deserialize value in
        match err with
        | Some _ => (None, errors.Wrap err "failed to deserialize block")
        | None => (Some blk, None)
        end
  end.

End BlockCodec.

Definition getBlockHashByTransferHash (f : db.Faults) (kv : db.Store)
  (h : Hash32B) : Hash32B * error :=
  let blkHash := hash.ZeroHash32B in
  let key := transferPrefix ++ h in
  let '(value, err) := db.Get f kv blockTransferBlockMappingNS key in
  match err with
  | Some _ => (blkHash, errors.Wrapf err "failed to get transfer %x")
  | None =>
      if (length value =? 0)%nat
      then (blkHash, errors.Wrapf (Some ErrNotExist) "transfer %x missing")
      else (copy blkHash value, None)
  end.

Definition getBlockHashByVoteHash (f : db.Faults) (kv : db.Store)
  (h : Hash32B) : Hash32B * error :=
  let blkHash := hash.ZeroHash32B in
  let key := votePrefix ++ h in
  let '(value, err) := db.Get f kv blockVoteBlockMappingNS key in
  match err with
  | Some _ => (blkHash, errors.Wrapf err "failed to get vote %x")
  | None =>
      if (length value =? 0)%nat
      then (blkHash, errors.Wrapf (Some ErrNotExist) "vote %x missing")
      else (copy blkHash value, None)
  end.

(** The body of the loop of [putTransfers] over the transfers that are
    left; [senderDelta] and [recipientDelta] are the two Go maps. *)
Fixpoint putTransfers_loop (f : db.Faults) (kv : db.Store)
  (transfers : list Transfer) (senderDelta recipientDelta : gmap string Z)
  (batch : db.KVStoreBatch) : option (db.KVStoreBatch * error) :=
  match transfers with
  | [] => Some (batch, None)
  | transfer :: rest =>
      let transferHash := Transfer_Hash transfer in
      (* get transfers count for sender *)
      '(senderTransferCount, err) ←
        getTransferCountBySenderAddress f kv (Sender transfer);
      match err with
      | Some _ => Some (batch, errors.Wrapf err "for sender %x")
      | None =>
          let '(senderTransferCount, senderDelta) :=
            match senderDelta !! Sender transfer with
            | Some delta =>
                (wrap64 (senderTransferCount + delta),
                 <[Sender transfer := wrap64 (delta + 1)]> senderDelta)
            | None => (senderTransferCount, <[Sender transfer := 1]> senderDelta)
            end in
          (* put new transfer to sender *)
          let senderKey := transferFromPrefix ++ list_byte_of_string (Sender transfer) in
          let senderKey := senderKey ++ byteutil.Uint64ToBytes senderTransferCount in
          let batch :=
            db.batch_PutIfNotExists batch blockAddressTransferMappingNS senderKey
              transferHash "failed to put transfer hash %x for sender %x" in
          (* update sender transfers count *)
          let senderTransferCountKey :=
            transferFromPrefix ++ list_byte_of_string (Sender transfer) in
          let batch :=
            db.batch_Put batch blockAddressTransferCountMappingNS senderTransferCountKey
              (byteutil.Uint64ToBytes (wrap64 (senderTransferCount + 1)))
              "failed to bump transfer count %x for sender %x" in
          (* get transfers count for recipient *)
          '(recipientTransferCount, err) ←
            getTransferCountByRecipientAddress f kv (Recipient transfer);
          match err with
          | Some _ => Some (batch, errors.Wrapf err "for recipient %x")
          | None =>
              let '(recipientTransferCount, recipientDelta) :=
                match recipientDelta !! Recipient transfer with
                | Some delta =>
                    (wrap64 (recipientTransferCount + delta),
                     <[Recipient transfer := wrap64 (delta + 1)]> recipientDelta)
                | None =>
                    (recipientTransferCount, <[Recipient transfer := 1]> recipientDelta)
                end in
              (* put new transfer to recipient *)
              let recipientKey :=
                transferToPrefix ++ list_byte_of_string (Recipient transfer) in
              let recipientKey :=
                recipientKey ++ byteutil.Uint64ToBytes recipientTransferCount in
              let batch :=
                db.batch_PutIfNotExists batch blockAddressTransferMappingNS recipientKey
                  transferHash "failed to put transfer hash %x for recipient %x" in
              (* update recipient transfers count *)
              let recipientTransferCountKey :=
                transferToPrefix ++ list_byte_of_string (Recipient transfer) in
              let batch :=
                db.batch_Put batch blockAddressTransferCountMappingNS
                  recipientTransferCountKey
                  (byteutil.Uint64ToBytes (wrap64 (recipientTransferCount + 1)))
                  "failed to bump transfer count %x for recipient %x" in
              putTransfers_loop f kv rest senderDelta recipientDelta batch
          end
      end
  end.

(** [putTransfers] store transfer information into db. The batch is
    returned next to the error, as the Go batch is updated in place. *)
Definition putTransfers (f : db.Faults) (kv : db.Store) (blk : Block)
  (batch : db.KVStoreBatch) : option (db.KVStoreBatch * error) :=
  let senderDelta : gmap string Z := ∅ in
  let recipientDelta : gmap string Z := ∅ in
  putTransfers_loop f kv (Transfers blk) senderDelta recipientDelta batch.

Section AddressDerivation.

(** [iotxaddress.GetAddress(pubkey, IsTestnet, ChainID)], reduced to the
    raw address string it yields or the error it fails with. *)
Variable GetAddress : list byte -> string * error.

(** The body of the loop of [putVotes]. *)
Fixpoint putVotes_loop (f : db.Faults) (kv : db.Store)
  (votes : list Vote) (senderDelta recipientDelta : gmap string Z)
  (batch : db.KVStoreBatch) : option (db.KVStoreBatch * error) :=
  match votes with
  | [] => Some (batch, None)
  | vote :: rest =>
      let voteHash := Vote_Hash vote in
      let '(Sender, err) := GetAddress (SelfPubkey vote) in
      match err with
      | Some _ =>
          Some (batch, errors.Wrapf err " to get sender address for pubkey %x")
      | None =>
      let '(Recipient, err) := GetAddress (VotePubkey vote) in
      match err with
      | Some _ =>
          Some (batch, errors.Wrapf err " to get recipient address for pubkey %x")
      | None =>
      (* get votes count for sender *)
      '(senderVoteCount, err) ← getVoteCountBySenderAddress f kv Sender;
      match err with
      | Some _ => Some (batch, errors.Wrapf err "for sender %x")
      | None =>
          let '(senderVoteCount, senderDelta) :=
            match senderDelta !! Sender with
            | Some delta =>
                (wrap64 (senderVoteCount + delta),
                 <[Sender := wrap64 (delta + 1)]> senderDelta)
            | None => (senderVoteCount, <[Sender := 1]> senderDelta)
            end in
          (* put new vote to sender *)
          let senderKey := voteFromPrefix ++ list_byte_of_string Sender in
          let senderKey := senderKey ++ byteutil.Uint64ToBytes senderVoteCount in
          let batch :=
            db.batch_PutIfNotExists batch blockAddressVoteMappingNS senderKey
              voteHash "failed to put vote hash %x for sender %x" in
          (* update sender votes count *)
          let senderVoteCountKey := voteFromPrefix ++ list_byte_of_string Sender in
          let batch :=
            db.batch_Put batch blockAddressVoteCountMappingNS senderVoteCountKey
              (byteutil.Uint64ToBytes (wrap64 (senderVoteCount + 1)))
              "failed to bump vote count %x for sender %x" in
          (* get votes count for recipient *)
          '(recipientVoteCount, err) ← getVoteCountByRecipientAddress f kv Recipient;
          match err with
          | Some _ => Some (batch, errors.Wrapf err "for recipient %x")
          | None =>
              let '(recipientVoteCount, recipientDelta) :=
                match recipientDelta !! Recipient with
                | Some delta =>
                    (wrap64 (recipientVoteCount + delta),
                     <[Recipient := wrap64 (delta + 1)]> recipientDelta)
                | None => (recipientVoteCount, <[Recipient := 1]> recipientDelta)
                end in
              (* put new vote to recipient *)
              let recipientKey := voteToPrefix ++ list_byte_of_string Recipient in
              let recipientKey :=
                recipientKey ++ byteutil.Uint64ToBytes recipientVoteCount in
              let batch :=
                db.batch_PutIfNotExists batch blockAddressVoteMappingNS recipientKey
                  voteHash "failed to put vote hash %x for recipient %x" in
              (* update recipient votes count *)
              let recipientVoteCountKey :=
                voteToPrefix ++ list_byte_of_string Recipient in
              let batch :=
                db.batch_Put batch blockAddressVoteCountMappingNS recipientVoteCountKey
                  (byteutil.Uint64ToBytes (wrap64 (recipientVoteCount + 1)))
                  "failed to bump vote count %x for recipient %x" in
              putVotes_loop f kv rest senderDelta recipientDelta batch
          end
      end
      end
      end
  end.

(** [putVotes] store vote information into db. *)
Definition putVotes (f : db.Faults) (kv : db.Store) (blk : Block)
  (batch : db.KVStoreBatch) : option (db.KVStoreBatch * error) :=
  let senderDelta : gmap string Z := ∅ in
  let recipientDelta : gmap string Z := ∅ in
  putVotes_loop f kv (Votes blk) senderDelta recipientDelta batch.

(** [putBlock] puts a block. The result is the store after the call and
    the returned error. *)
Definition putBlock (f : db.Faults) (kv : db.Store) (blk : Block)
  : option (db.Store * error) :=
  let batch := db.Batch in
  let height := byteutil.Uint64ToBytes (Height blk) in
  let '(serialized, err) := Serialize blk in
  match err with
  | Some _ => Some (kv, errors.Wrap err "failed to serialize block")
  | None =>
  let hash := HashBlock blk in
  let batch := db.batch_PutIfNotExists batch blockNS hash serialized "failed to put block" in
  let hashKey := hashPrefix ++ hash in
  let batch :=
    db.batch_Put batch blockHashHeightMappingNS hashKey height
      "failed to put hash -> height mapping" in
  let heightKey := heightPrefix ++ height in
  let batch :=
    db.batch_Put batch blockHashHeightMappingNS heightKey hash
      "failed to put height -> hash mapping" in
  let '(value, err) := db.Get f kv blockNS topHeightKey in
  match err with
  | Some _ => Some (kv, errors.Wrap err "failed to get top height")
  | None =>
  topHeight ← enc.MachineEndian_Uint64 value;
  let batch :=
    if Height blk >? topHeight
    then db.batch_Put batch blockNS topHeightKey height "failed to put top height"
    else batch in
  let '(value, err) := db.Get f kv blockNS totalTransfersKey in
  match err with
  | Some _ => Some (kv, errors.Wrap err "failed to get total transfers")
  | None =>
  totalTransfers ← enc.MachineEndian_Uint64 value;
  let totalTransfers := wrap64 (totalTransfers + Z.of_nat (length (Transfers blk))) in
  let totalTransfersBytes := byteutil.Uint64ToBytes totalTransfers in
  let batch :=
    db.batch_Put batch blockNS totalTransfersKey totalTransfersBytes
      "failed to put total transfers" in
  let '(value, err) := db.Get f kv blockNS totalVotesKey in
  match err with
  | Some _ => Some (kv, errors.Wrap err "failed to get total votes")
  | None =>
  totalVotes ← enc.MachineEndian_Uint64 value;
  let totalVotes := wrap64 (totalVotes + Z.of_nat (length (Votes blk))) in
  let totalVotesBytes := byteutil.Uint64ToBytes totalVotes in
  let batch :=
    db.batch_Put batch blockNS totalVotesKey totalVotesBytes
      "failed to put total votes" in
  (* map Transfer hash to block hash *)
  let batch :=
    foldl (fun batch transfer =>
             let transferHash := Transfer_Hash transfer in
             let hashKey := transferPrefix ++ transferHash in
             db.batch_Put batch blockTransferBlockMappingNS hashKey hash
               "failed to put transfer hash %x")
          batch (Transfers blk) in
  (* map Vote hash to block hash *)
  let batch :=
    foldl (fun batch vote =>
             let voteHash := Vote_Hash vote in
             let hashKey := votePrefix ++ voteHash in
             db.batch_Put batch blockVoteBlockMappingNS hashKey hash
               "failed to put vote hash %x")
          batch (Votes blk) in
  '(batch, err) ← putTransfers f kv blk batch;
  match err with
  | Some _ => Some (kv, err)
  | None =>
  '(batch, err) ← putVotes f kv blk batch;
  match err with
  | Some _ => Some (kv, err)
  | None =>
  let '(kv', err) := db.Commit f kv batch in
  match err with
  | Some _ => Some (kv', err)
  | None => Some (kv', None)
  end
  end
  end
  end
  end
  end
  end.

End AddressDerivation.

(** ** Vocabulary of the statements *)

(** A run of successful [putBlock] calls; the faults of the backend may
    differ from call to call. *)
Inductive put_seq (GetAddress : list byte -> string * error)
  : db.Store -> list Block -> db.Store -> Prop :=
| put_seq_nil kv : put_seq GetAddress kv [] kv
| put_seq_cons f kv blk kv' blks kv'' :
    putBlock GetAddress f kv blk = Some (kv', None) ->
    put_seq GetAddress kv' blks kv'' ->
    put_seq GetAddress kv (blk :: blks) kv''.

Definition is_uint64 (z : Z) : Prop := 0 <= z < 2 ^ 64.

Definition count_transfers (blks : list Block) : Z :=
  foldr (fun blk acc => Z.of_nat (length (Transfers blk)) + acc) 0 blks.

Definition count_votes (blks : list Block) : Z :=
  foldr (fun blk acc => Z.of_nat (length (Votes blk)) + acc) 0 blks.

Definition max_height (blks : list Block) : Z :=
  foldr (fun blk acc => Z.max (Height blk) acc) 0 blks.

(** The hashes of the transfers of a list that [A] sends (receives), in
    the order of the list. *)
Definition sent_by (A : string) (transfers : list Transfer) : list Hash32B :=
  Transfer_Hash <$> filter (fun t => Sender t = A) transfers.

Definition received_by (A : string) (transfers : list Transfer) : list Hash32B :=
  Transfer_Hash <$> filter (fun t => Recipient t = A) transfers.

(** The key of the index entry of [address] at sequence number [i], and
    what a reader finds there. *)
Definition entry_key (keyPrefix : list byte) (address : string) (i : Z)
  : list byte :=
  (keyPrefix ++ list_byte_of_string address) ++ byteutil.Uint64ToBytes i.

Definition transfer_entry (f : db.Faults) (kv : db.Store)
  (keyPrefix : list byte) (address : string) (i : Z) : list byte * error :=
  db.Get f kv blockAddressTransferMappingNS (entry_key keyPrefix address i).

(** An entry the enumeration accepts: read without error and not empty. *)
Definition entry_ok (r : list byte * error) : bool :=
  match r with
  | (value, None) => negb (length value =? 0)%nat
  | (_, Some _) => false
  end.

(** A backend all of whose reads work. *)
Definition reads_work (f : db.Faults) : Prop :=
  forall ns key, db.Get_fails f ns key = None.

(** The two sides of a transfer. *)
Inductive side : Type := AsSender | AsRecipient.

Definition prefix_of (d : side) : list byte :=
  match d with AsSender => transferFromPrefix | AsRecipient => transferToPrefix end.

Definition party (d : side) (t : Transfer) : string :=
  match d with AsSender => Sender t | AsRecipient => Recipient t end.

Definition count_of (d : side) (f : db.Faults) (kv : db.Store) (A : string)
  : option (Z * error) :=
  match d with
  | AsSender => getTransferCountBySenderAddress f kv A
  | AsRecipient => getTransferCountByRecipientAddress f kv A
  end.

Definition hashes_of (d : side) (A : string) (transfers : list Transfer)
  : list Hash32B :=
  match d with
  | AsSender => sent_by A transfers
  | AsRecipient => received_by A transfers
  end.

(** The key of the per-address counter. *)
Definition count_key (d : side) (A : string) : string * list byte :=
  (blockAddressTransferCountMappingNS, prefix_of d ++ list_byte_of_string A).

(** The sequence number an entry gets from the counter on disk and the
    delta of its address, and the delta afterwards. *)
Definition seq_of (count : Z) (delta : option Z) : Z :=
  match delta with
  | Some d => wrap64 (count + d)
  | None => count
  end.

Definition bump (A : string) (deltas : gmap string Z) : gmap string Z :=
  <[A := match deltas !! A with Some d => wrap64 (d + 1) | None => 1 end]> deltas.

(** The sequence number and the map of deltas of one side. *)
Definition side_seq (d : side) (sS sR : Z) : Z :=
  match d with AsSender => sS | AsRecipient => sR end.

Definition side_delta (d : side) (sd rd : gmap string Z) : gmap string Z :=
  match d with AsSender => sd | AsRecipient => rd end.

(** The four writes [putTransfers] stages for one transfer whose sender
    entry goes to sequence [sS] and whose recipient entry goes to [sR]. *)
Definition transfer_writes (t : Transfer) (sS sR : Z) : list db.write :=
  [ db.WPutIfNotExists blockAddressTransferMappingNS
      (entry_key transferFromPrefix (Sender t) sS) (Transfer_Hash t)
      "failed to put transfer hash %x for sender %x";
    db.WPut blockAddressTransferCountMappingNS
      (transferFromPrefix ++ list_byte_of_string (Sender t))
      (byteutil.Uint64ToBytes (wrap64 (sS + 1)))
      "failed to bump transfer count %x for sender %x";
    db.WPutIfNotExists blockAddressTransferMappingNS
      (entry_key transferToPrefix (Recipient t) sR) (Transfer_Hash t)
      "failed to put transfer hash %x for recipient %x";
    db.WPut blockAddressTransferCountMappingNS
      (transferToPrefix ++ list_byte_of_string (Recipient t))
      (byteutil.Uint64ToBytes (wrap64 (sR + 1)))
      "failed to bump transfer count %x for recipient %x" ].

(** Writes of the kind [putTransfers] stages: conditional inserts into the
    index, overwrites of the counters. *)
Definition transfer_write (w : db.write) : Prop :=
  (db.wns w = blockAddressTransferMappingNS /\ db.is_WPut w = false) \/
  (db.wns w = blockAddressTransferCountMappingNS /\ db.is_WPut w = true).

Definition vote_write (w : db.write) : Prop :=
  db.wns w = blockAddressVoteMappingNS \/
  db.wns w = blockAddressVoteCountMappingNS.

(** The writes [putBlock] stages before it calls [putTransfers]. *)
Definition block_writes (blk : Block) (serialized : list byte)
  (topHeight totalTransfers totalVotes : Z) : list db.write :=
  let height := byteutil.Uint64ToBytes (Height blk) in
  [ db.WPutIfNotExists blockNS (HashBlock blk) serialized "failed to put block";
    db.WPut blockHashHeightMappingNS (hashPrefix ++ HashBlock blk) height
      "failed to put hash -> height mapping";
    db.WPut blockHashHeightMappingNS (heightPrefix ++ height) (HashBlock blk)
      "failed to put height -> hash mapping" ]
  ++ (if Height blk >? topHeight
      then [db.WPut blockNS topHeightKey height "failed to put top height"]
      else [])
  ++ [ db.WPut blockNS totalTransfersKey
         (byteutil.Uint64ToBytes
            (wrap64 (totalTransfers + Z.of_nat (length (Transfers blk)))))
         "failed to put total transfers";
       db.WPut blockNS totalVotesKey
         (byteutil.Uint64ToBytes
            (wrap64 (totalVotes + Z.of_nat (length (Votes blk)))))
         "failed to put total votes" ]
  ++ ((fun t => db.WPut blockTransferBlockMappingNS
                  (transferPrefix ++ Transfer_Hash t) (HashBlock blk)
                  "failed to put transfer hash %x") <$> Transfers blk)
  ++ ((fun v => db.WPut blockVoteBlockMappingNS
                  (votePrefix ++ Vote_Hash v) (HashBlock blk)
                  "failed to put vote hash %x") <$> Votes blk).

(** The public enumeration of the transfers of one side. *)
Definition transfers_of (d : side) (f : db.Faults) (kv : db.Store) (A : string)
  : option (list Hash32B * error) :=
  match d with
  | AsSender => getTransfersBySenderAddress f kv A
  | AsRecipient => getTransfersByRecipientAddress f kv A
  end.

(** The hash an enumeration makes of a stored value: the value copied
    into a zero hash. *)
Definition as_hash (r : list byte * error) : Hash32B :=
  copy hash.ZeroHash32B (fst r).

(** A key that holds nothing a reader accepts: it is absent or its value
    is empty. *)
Definition vacant (kv : db.Store) (K : string * list byte) : Prop :=
  kv !! K = None \/ kv !! K = Some [].

#[global] Instance side_eq_dec : EqDecision side.
Proof. solve_decision. Defined.

(** *** The two per-address indexes under one description

    [putTransfers] and [putVotes], and the readers of their indexes, run
    the same algorithm over different namespaces, key prefixes and
    messages. A [Schema] names these; the functions below are that
    algorithm over a schema, and they are proved equal to the functions of
    the source before anything is concluded from them. *)

Record Schema : Type := {
  indexNS : string;
  countNS : string;
  fromPrefix : list byte;
  toPrefix : list byte;
  countBroken : side -> string;
  putFailed : side -> string;
  bumpFailed : side -> string;
  getFailed : string;
  entryMissing : string
}.

Definition transferSchema : Schema :=
  {| indexNS := blockAddressTransferMappingNS;
     countNS := blockAddressTransferCountMappingNS;
     fromPrefix := transferFromPrefix;
     toPrefix := transferToPrefix;
     countBroken := fun _ => "count of transfers as recipient is broken"%string;
     putFailed := fun d =>
       match d with
       | AsSender => "failed to put transfer hash %x for sender %x"
       | AsRecipient => "failed to put transfer hash %x for recipient %x"
       end%string;
     bumpFailed := fun d =>
       match d with
       | AsSender => "failed to bump transfer count %x for sender %x"
       | AsRecipient => "failed to bump transfer count %x for recipient %x"
       end%string;
     getFailed := "failed to get transfer for index %x";
     entryMissing := "transfer for index %x missing" |}.

Definition voteSchema : Schema :=
  {| indexNS := blockAddressVoteMappingNS;
     countNS := blockAddressVoteCountMappingNS;
     fromPrefix := voteFromPrefix;
     toPrefix := voteToPrefix;
     countBroken := fun d =>
       match d with
       | AsSender => "count of votes as sender is broken"
       | AsRecipient => "count of votes as recipient is broken"
       end%string;
     putFailed := fun d =>
       match d with
       | AsSender => "failed to put vote hash %x for sender %x"
       | AsRecipient => "failed to put vote hash %x for recipient %x"
       end%string;
     bumpFailed := fun d =>
       match d with
       | AsSender => "failed to bump vote count %x for sender %x"
       | AsRecipient => "failed to bump vote count %x for recipient %x"
       end%string;
     getFailed := "failed to get vote for index %x";
     entryMissing := "vote for index %x missing" |}.

(** What the index needs of its names: the two namespaces differ and no
    key under one prefix is a key under the other. *)
Definition schema_ok (sc : Schema) : Prop :=
  indexNS sc <> countNS sc /\
  forall a b : list byte, fromPrefix sc ++ a <> toPrefix sc ++ b.

Definition s_prefix (sc : Schema) (d : side) : list byte :=
  match d with AsSender => fromPrefix sc | AsRecipient => toPrefix sc end.

Definition s_count_key (sc : Schema) (d : side) (A : string) : string * list byte :=
  (countNS sc, s_prefix sc d ++ list_byte_of_string A).

Definition s_entry_key (sc : Schema) (d : side) (A : string) (i : Z)
  : string * list byte :=
  (indexNS sc, entry_key (s_prefix sc d) A i).

(** The count reader of a schema. *)
Definition s_count_of (sc : Schema) (d : side) (f : db.Faults) (kv : db.Store)
  (address : string) : option (Z * error) :=
  let countKey := s_prefix sc d ++ list_byte_of_string address in
  let '(value, err) := db.Get f kv (countNS sc) countKey in
  match err with
  | Some _ => Some (0, None)
  | None =>
      if (length value =? 0)%nat
      then Some (0, errors.New (countBroken sc d))
      else c ← enc.MachineEndian_Uint64 value; Some (c, None)
  end.

(** What the append loop uses of a transfer or of a vote: its hash and
    the addresses of its two parties. *)
Record Item : Type := { i_hash : Hash32B; i_from : string; i_to : string }.

Definition i_party (d : side) (it : Item) : string :=
  match d with AsSender => i_from it | AsRecipient => i_to it end.

Definition item_of_transfer (t : Transfer) : Item :=
  {| i_hash := Transfer_Hash t; i_from := Sender t; i_to := Recipient t |}.

Definition item_of_vote (GetAddress : list byte -> string * error) (v : Vote)
  : Item :=
  {| i_hash := Vote_Hash v;
     i_from := fst (GetAddress (SelfPubkey v));
     i_to := fst (GetAddress (VotePubkey v)) |}.

(** The hashes of the items that have [A] on side [d], in order. *)
Definition i_hashes (d : side) (A : string) (items : list Item) : list Hash32B :=
  i_hash <$> filter (fun it => i_party d it = A) items.

(** The four writes staged for one item. *)
Definition s_writes (sc : Schema) (it : Item) (sS sR : Z) : list db.write :=
  [ db.WPutIfNotExists (indexNS sc)
      (entry_key (fromPrefix sc) (i_from it) sS) (i_hash it) (putFailed sc AsSender);
    db.WPut (countNS sc) (fromPrefix sc ++ list_byte_of_string (i_from it))
      (byteutil.Uint64ToBytes (wrap64 (sS + 1))) (bumpFailed sc AsSender);
    db.WPutIfNotExists (indexNS sc)
      (entry_key (toPrefix sc) (i_to it) sR) (i_hash it) (putFailed sc AsRecipient);
    db.WPut (countNS sc) (toPrefix sc ++ list_byte_of_string (i_to it))
      (byteutil.Uint64ToBytes (wrap64 (sR + 1))) (bumpFailed sc AsRecipient) ].

(** Writes of the kind the append loop stages. *)
Definition s_write (sc : Schema) (w : db.write) : Prop :=
  (db.wns w = indexNS sc /\ db.is_WPut w = false) \/
  (db.wns w = countNS sc /\ db.is_WPut w = true).

(** The append loop over a schema. *)
Fixpoint s_loop (sc : Schema) (f : db.Faults) (kv : db.Store)
  (items : list Item) (senderDelta recipientDelta : gmap string Z)
  (batch : db.KVStoreBatch) : option (db.KVStoreBatch * error) :=
  match items with
  | [] => Some (batch, None)
  | it :: rest =>
      '(senderCount, err) ← s_count_of sc AsSender f kv (i_from it);
      match err with
      | Some _ => Some (batch, errors.Wrapf err "for sender %x")
      | None =>
          let sS := seq_of senderCount (senderDelta !! i_from it) in
          let senderDelta := bump (i_from it) senderDelta in
          '(recipientCount, err) ← s_count_of sc AsRecipient f kv (i_to it);
          match err with
          | Some _ =>
              Some (batch ++ take 2 (s_writes sc it sS 0),
                    errors.Wrapf err "for recipient %x")
          | None =>
              let sR := seq_of recipientCount (recipientDelta !! i_to it) in
              let recipientDelta := bump (i_to it) recipientDelta in
              s_loop sc f kv rest senderDelta recipientDelta
                (batch ++ s_writes sc it sS sR)
          end
      end
  end.

(** The enumeration loop over a schema. *)
Fixpoint s_enum_loop (sc : Schema) (f : db.Faults) (kv : db.Store)
  (address : string) (keyPrefix : list byte) (n : nat) (i : Z)
  (res : list Hash32B) : list Hash32B * error :=
  match n with
  | O => (res, None)
  | S n' =>
      let '(value, err) :=
        db.Get f kv (indexNS sc) (entry_key keyPrefix address i) in
      match err with
      | Some _ => (res, errors.Wrapf err (getFailed sc))
      | None =>
          if (length value =? 0)%nat
          then (res, errors.Wrapf (Some ErrNotExist) (entryMissing sc))
          else s_enum_loop sc f kv address keyPrefix n' (wrap64 (i + 1))
                 (res ++ [copy hash.ZeroHash32B value])
      end
  end.

(** The index of [A] on side [d] holds exactly the list [l]: the counter
    is the length of [l] (no counter for the empty list), the entries at
    the sequences below it are the elements of [l], and no entry lies
    above. *)
Definition indexed (sc : Schema) (kv : db.Store) (d : side) (A : string)
  (l : list Hash32B) : Prop :=
  kv !! s_count_key sc d A
  = (if decide (l = []) then None
     else Some (byteutil.Uint64ToBytes (Z.of_nat (length l)))) /\
  (forall i h, l !! i = Some h -> kv !! s_entry_key sc d A (Z.of_nat i) = Some h) /\
  (forall x, is_uint64 x -> Z.of_nat (length l) <= x ->
             kv !! s_entry_key sc d A x = None).

(** The count reader of the votes of one side. *)
Definition vote_count_of (d : side) (f : db.Faults) (kv : db.Store) (A : string)
  : option (Z * error) :=
  match d with
  | AsSender => getVoteCountBySenderAddress f kv A
  | AsRecipient => getVoteCountByRecipientAddress f kv A
  end.

(** The public enumeration of the votes of one side. *)
Definition votes_of (d : side) (f : db.Faults) (kv : db.Store) (A : string)
  : option (list Hash32B * error) :=
  match d with
  | AsSender => getVotesBySenderAddress f kv A
  | AsRecipient => getVotesByRecipientAddress f kv A
  end.

(** A run of successful [putBlock] calls through backends whose reads
    work. *)
Inductive put_run (GetAddress : list byte -> string * error)
  : db.Store -> list Block -> db.Store -> Prop :=
| put_run_nil kv : put_run GetAddress kv [] kv
| put_run_cons f kv blk kv' blks kv'' :
    reads_work f ->
    putBlock GetAddress f kv blk = Some (kv', None) ->
    put_run GetAddress kv' blks kv'' ->
    put_run GetAddress kv (blk :: blks) kv''.

(** The hashes of the votes of a list whose voter (respectively votee)
    has the address [A], in the order of the list. *)
Definition vote_hashes (GetAddress : list byte -> string * error) (d : side)
  (A : string) (votes : list Vote) : list Hash32B :=
  i_hashes d A (item_of_vote GetAddress <$> votes).

(** The addresses of every vote of the list derive. *)
Definition derivable (GetAddress : list byte -> string * error)
  (votes : list Vote) : Prop :=
  Forall (fun v => snd (GetAddress (SelfPubkey v)) = None /\
                   snd (GetAddress (VotePubkey v)) = None) votes.


(** The transfers and the votes of a list of blocks, in order. *)
Definition all_transfers (blks : list Block) : list Transfer :=
  concat (Transfers <$> blks).

Definition all_votes (blks : list Block) : list Vote :=
  concat (Votes <$> blks).


(** The store holds eight bytes wherever [putBlock] decodes a number: the
    three singleton counters are there, and they and the per-address
    counters that are there are eight bytes long. *)
Definition counters_ok (kv : db.Store) : Prop :=
  (forall key, key ∈ [topHeightKey; totalTransfersKey; totalVotesKey] ->
     exists v, kv !! (blockNS, key) = Some v /\ length v = 8%nat) /\
  (forall ns key v,
     ns = blockAddressTransferCountMappingNS \/
     ns = blockAddressVoteCountMappingNS ->
     kv !! (ns, key) = Some v -> length v = 8%nat).

(** ** A scenario: concrete blocks and backends *)

Module Scenario.

Definition GetAddress (pubkey : list byte) : string * error :=
  match pubkey with
  | [] => (EmptyString, Some (ErrAddress "empty public key"))
  | _ => (string_of_list_byte pubkey, None)
  end.

Definition h32 (b : byte) : Hash32B := replicate 32 b.

Definition t1 : Transfer :=
  {| Transfer_Hash := h32 "a"; Sender := "A"; Recipient := "B" |}.
Definition t2 : Transfer :=
  {| Transfer_Hash := h32 "b"; Sender := "A"; Recipient := "C" |}.
Definition v1 : Vote :=
  {| Vote_Hash := h32 "v";
     SelfPubkey := list_byte_of_string "A";
     VotePubkey := list_byte_of_string "B" |}.

(** A block at height 5 with two transfers sent by "A" and one vote. *)
Definition B5 : Block :=
  {| Height := 5; Transfers := [t1; t2]; Votes := [v1];
     HashBlock := h32 "5";
     Serialize := (list_byte_of_string "block five", None) |}.

(** A block at height 3 with one transfer. *)
Definition B3 : Block :=
  {| Height := 3; Transfers := [t1]; Votes := [];
     HashBlock := h32 "3";
     Serialize := (list_byte_of_string "block three", None) |}.

(** A block whose serialization fails. *)
Definition Bbad : Block :=
  {| Height := 7; Transfers := [t1]; Votes := [v1];
     HashBlock := h32 "7";
     Serialize := ([], Some (ErrSerialize "marshal")) |}.

(** The store of a first start. *)
Definition fresh : db.Store := fst (Start db.healthy ∅).

Definition after (kv : db.Store) (blk : Block) : db.Store :=
  match putBlock GetAddress db.healthy kv blk with
  | Some (kv', _) => kv'
  | None => kv
  end.

(** A backend whose commit is rejected. *)
Definition commit_rejected : db.Faults :=
  {| db.OnStart_fails := None;
     db.Get_fails := fun _ _ => None;
     db.PutIfNotExists_fails := fun _ _ => None;
     db.Commit_fails := fun _ _ => Some "commit"%string |}.

(** A backend that rejects a batch when one of its conditional inserts
    aims at a key the store holds. *)
Definition strict : db.Faults :=
  {| db.OnStart_fails := None;
     db.Get_fails := fun _ _ => None;
     db.PutIfNotExists_fails := fun _ _ => None;
     db.Commit_fails := fun kv batch =>
       if existsb (fun w => negb (db.is_WPut w) &&
                            match kv !! db.target w with
                            | Some _ => true
                            | None => false
                            end) batch
       then Some "conditional insert collides"%string
       else None |}.

(** A backend none of whose reads works. *)
Definition reads_fail : db.Faults :=
  {| db.OnStart_fails := None;
     db.Get_fails := fun _ _ => Some "read"%string;
     db.PutIfNotExists_fails := fun _ _ => None;
     db.Commit_fails := fun _ _ => None |}.

(** A backend whose conditional insert breaks on the disk. *)
Definition puts_fail : db.Faults :=
  {| db.OnStart_fails := None;
     db.Get_fails := fun _ _ => None;
     db.PutIfNotExists_fails := fun _ _ => Some "write"%string;
     db.Commit_fails := fun _ _ => None |}.

(** A store where only the counter of total transfers was seeded. *)
Definition only_totals : db.Store :=
  {[ (blockNS, totalTransfersKey) := make_bytes 8 ]}.

(** A store where only the top height was seeded. *)
Definition only_top : db.Store :=
  {[ (blockNS, topHeightKey) := make_bytes 8 ]}.

(** A store with a seven-byte value under the height key of height 9. *)
Definition short_hash : db.Store :=
  {[ (blockHashHeightMappingNS, heightPrefix ++ byteutil.Uint64ToBytes 9)
       := replicate 7 ("x"%byte) ]}.

(** A store where "A" has one sent transfer whose entry is seven bytes
    long, and where "B" has a counter of one and no entry. *)
Definition short_entry : db.Store :=
  <[ (blockAddressTransferCountMappingNS,
      transferFromPrefix ++ list_byte_of_string "A")
       := byteutil.Uint64ToBytes 1 ]>
  (<[ (blockAddressTransferMappingNS, entry_key transferFromPrefix "A" 0)
       := replicate 7 ("x"%byte) ]>
  (<[ (blockAddressTransferCountMappingNS,
      transferFromPrefix ++ list_byte_of_string "B")
       := byteutil.Uint64ToBytes 1 ]> ∅)).

(** A store where "G" has a counter of two, an entry at sequence 0 and
    none at sequence 1. *)
Definition gap : db.Store :=
  <[ (blockAddressTransferCountMappingNS,
      transferFromPrefix ++ list_byte_of_string "G")
       := byteutil.Uint64ToBytes 2 ]>
  (<[ (blockAddressTransferMappingNS, entry_key transferFromPrefix "G" 0)
       := h32 "g" ]> ∅).

(** A store where the sender counter of "A" is five. *)
Definition counter_five : db.Store :=
  {[ (blockAddressTransferCountMappingNS,
      transferFromPrefix ++ list_byte_of_string "A")
       := byteutil.Uint64ToBytes 5 ]}.

(** A backend whose conditional insert of the total of transfers breaks
    on the disk. *)
Definition totals_write_fails : db.Faults :=
  {| db.OnStart_fails := None;
     db.Get_fails := fun _ _ => None;
     db.PutIfNotExists_fails := fun _ key =>
       if bool_decide (key = totalTransfersKey) then Some "write"%string else None;
     db.Commit_fails := fun _ _ => None |}.

(** Deserialization of the payloads of the scenario. *)
Definition Deserialize (value : list byte) : Block * error :=
  if bool_decide (value = fst (Serialize B5)) then (B5, None)
  else if bool_decide (value = fst (Serialize B3)) then (B3, None)
  else (B3, Some (ErrSerialize "unmarshal")).

(** A vote whose voter key derives no address. *)
Definition vbad : Vote :=
  {| Vote_Hash := h32 "w"; SelfPubkey := []; VotePubkey := list_byte_of_string "B" |}.

Definition Bvbad : Block :=
  {| Height := 8; Transfers := []; Votes := [vbad];
     HashBlock := h32 "8";
     Serialize := (list_byte_of_string "block eight", None) |}.


(** A backend whose reads of the per-address counters of transfers
    fail. *)
Definition counter_reads_fail : db.Faults :=
  {| db.OnStart_fails := None;
     db.Get_fails := fun ns _ =>
       if bool_decide (ns = blockAddressTransferCountMappingNS)
       then Some "read"%string else None;
     db.PutIfNotExists_fails := fun _ _ => None;
     db.Commit_fails := fun _ _ => None |}.
End Scenario.

(** * Properties *)

(** ** The codec *)

Lemma wrap64_small (z : Z) : is_uint64 z -> wrap64 z = z.
Proof. unfold is_uint64, wrap64. intros H. apply Z.mod_small. exact H. Qed.

Lemma wrap64_range (z : Z) : is_uint64 (wrap64 z).
Proof. unfold is_uint64, wrap64. apply Z.mod_pos_bound. lia. Qed.

Lemma length_Uint64ToBytes (v : Z) : length (byteutil.Uint64ToBytes v) = 8%nat.
Proof. apply length_le_split. Qed.

Lemma Uint64_Uint64ToBytes (v : Z) :
  enc.MachineEndian_Uint64 (byteutil.Uint64ToBytes v) = Some (wrap64 v).
Proof.
  unfold enc.MachineEndian_Uint64.
  rewrite length_Uint64ToBytes. simpl (8 <? 8)%nat. cbv iota.
  rewrite take_ge by (rewrite length_Uint64ToBytes; lia).
  unfold byteutil.Uint64ToBytes. rewrite le_combine_split. reflexivity.
Qed.

Lemma Uint64_range (b : list byte) (z : Z) :
  enc.MachineEndian_Uint64 b = Some z -> is_uint64 z.
Proof.
  unfold enc.MachineEndian_Uint64, is_uint64.
  destruct (length b <? 8)%nat eqn:E; [discriminate|].
  intros [= <-]. apply Nat.ltb_ge in E.
  pose proof (le_combine_bound (take 8 b)) as Hb.
  rewrite length_take in Hb. replace (8 `min` length b)%nat with 8%nat in Hb by lia.
  exact Hb.
Qed.

Lemma Uint64ToBytes_inj (a b : Z) :
  is_uint64 a -> is_uint64 b ->
  byteutil.Uint64ToBytes a = byteutil.Uint64ToBytes b -> a = b.
Proof.
  intros Ha Hb E.
  assert (Some (wrap64 a) = Some (wrap64 b)) as [= W]
    by (rewrite <- !Uint64_Uint64ToBytes; congruence).
  rewrite !wrap64_small in W; assumption.
Qed.

Lemma Uint64_make_bytes : enc.MachineEndian_Uint64 (make_bytes 8) = Some 0.
Proof. reflexivity. Qed.

Lemma length_ZeroHash32B : length hash.ZeroHash32B = 32%nat.
Proof. reflexivity. Qed.

Lemma copy_full (dst src : list byte) :
  length src = length dst -> copy dst src = src.
Proof.
  intros E. unfold copy. rewrite <- E, take_ge, drop_ge, app_nil_r by lia.
  reflexivity.
Qed.

Lemma length_copy (dst src : list byte) : length (copy dst src) = length dst.
Proof. unfold copy. rewrite length_app, length_take, length_drop. lia. Qed.

(** ** The key-value store *)

Lemma Get_ok (f : db.Faults) (kv : db.Store) ns key v :
  db.Get f kv ns key = (v, None) ->
  db.Get_fails f ns key = None /\ kv !! (ns, key) = Some v.
Proof.
  unfold db.Get. destruct (db.Get_fails f ns key); [discriminate|].
  destruct (kv !! (ns, key)); [|discriminate]. intros [= ->]. split; reflexivity.
Qed.

Lemma Get_lookup (f : db.Faults) (kv : db.Store) ns key v :
  db.Get_fails f ns key = None -> kv !! (ns, key) = Some v ->
  db.Get f kv ns key = (v, None).
Proof. intros Hf Hl. unfold db.Get. rewrite Hf, Hl. reflexivity. Qed.

Lemma Get_missing (f : db.Faults) (kv : db.Store) ns key :
  db.Get_fails f ns key = None -> kv !! (ns, key) = None ->
  db.Get f kv ns key = ([], Some ErrNotExist).
Proof. intros Hf Hl. unfold db.Get. rewrite Hf, Hl. reflexivity. Qed.

Lemma Get_fault (f : db.Faults) (kv : db.Store) ns key what :
  db.Get_fails f ns key = Some what ->
  db.Get f kv ns key = ([], Some (ErrBackend what)).
Proof. intros Hf. unfold db.Get. rewrite Hf. reflexivity. Qed.

Lemma lookup_apply_write (kv : db.Store) (w : db.write) (K : string * list byte) :
  db.apply_write kv w !! K =
  if decide (db.target w = K)
  then Some (if db.is_WPut w then db.wvalue w
             else default (db.wvalue w) (kv !! K))
  else kv !! K.
Proof.
  destruct w as [ns key v msg|ns key v msg]; unfold db.target; simpl.
  - case_decide as E; [subst K; apply lookup_insert_eq|].
    apply lookup_insert_ne. exact E.
  - case_decide as E.
    + subst K. destruct (kv !! (ns, key)) as [old|] eqn:L; simpl.
      * exact L.
      * apply lookup_insert_eq.
    + destruct (kv !! (ns, key)); [reflexivity|].
      apply lookup_insert_ne. exact E.
Qed.

Lemma lookup_apply_untouched (ops : list db.write) :
  forall (kv : db.Store) (K : string * list byte),
  Forall (fun w => db.target w <> K) ops ->
  foldl db.apply_write kv ops !! K = kv !! K.
Proof.
  induction ops as [|w ops IH]; intros kv K Hall; [reflexivity|].
  apply Forall_cons in Hall as [Hw Hall]. simpl.
  rewrite IH by exact Hall. rewrite lookup_apply_write.
  rewrite decide_False by exact Hw. reflexivity.
Qed.

(** Conditional inserts never replace a value. *)
Lemma lookup_apply_kept (ops : list db.write) :
  forall (kv : db.Store) (K : string * list byte) (x : list byte),
  kv !! K = Some x ->
  Forall (fun w => db.is_WPut w = true -> db.target w <> K) ops ->
  foldl db.apply_write kv ops !! K = Some x.
Proof.
  induction ops as [|w ops IH]; intros kv K x Hx Hall; [exact Hx|].
  apply Forall_cons in Hall as [Hw Hall]. simpl.
  apply IH; [|exact Hall]. rewrite lookup_apply_write.
  case_decide as E; [|exact Hx].
  destruct (db.is_WPut w) eqn:P; [destruct (Hw eq_refl E)|].
  rewrite Hx. reflexivity.
Qed.

Lemma lookup_apply_other_ns (ops : list db.write) (kv : db.Store) ns key :
  Forall (fun w => db.wns w <> ns) ops ->
  foldl db.apply_write kv ops !! (ns, key) = kv !! (ns, key).
Proof.
  intros Hall. apply lookup_apply_untouched.
  eapply Forall_impl; [exact Hall|]. intros w Hw [= E _]. exact (Hw E).
Qed.

Lemma foldl_stage {A : Type} (g : A -> db.write) (l : list A) :
  forall batch : list db.write,
  foldl (fun batch a => batch ++ [g a]) batch l = batch ++ (g <$> l).
Proof.
  induction l as [|a l IH]; intros batch; simpl.
  - rewrite app_nil_r. reflexivity.
  - rewrite IH, <- app_assoc. reflexivity.
Qed.

(** ** Keys *)

Lemma list_byte_of_string_inj (a b : string) :
  list_byte_of_string a = list_byte_of_string b -> a = b.
Proof.
  intros E. apply (f_equal string_of_list_byte) in E.
  rewrite !string_of_list_byte_of_string in E. exact E.
Qed.

Lemma entry_key_inj (p q : list byte) (A B : string) (x y : Z) :
  entry_key p A x = entry_key q B y ->
  p ++ list_byte_of_string A = q ++ list_byte_of_string B /\
  byteutil.Uint64ToBytes x = byteutil.Uint64ToBytes y.
Proof.
  unfold entry_key. intros E. apply app_inj_2 in E; [exact E|].
  rewrite !length_Uint64ToBytes. reflexivity.
Qed.

Lemma from_to_disjoint (a b : list byte) :
  transferFromPrefix ++ a <> transferToPrefix ++ b.
Proof. cbv [transferFromPrefix transferToPrefix]. simpl. intros [=]. Qed.

Lemma from_prefix_inj (A B : string) :
  transferFromPrefix ++ list_byte_of_string A =
  transferFromPrefix ++ list_byte_of_string B -> A = B.
Proof. intros E. apply app_inv_head in E. apply list_byte_of_string_inj, E. Qed.

Lemma to_prefix_inj (A B : string) :
  transferToPrefix ++ list_byte_of_string A =
  transferToPrefix ++ list_byte_of_string B -> A = B.
Proof. intros E. apply app_inv_head in E. apply list_byte_of_string_inj, E. Qed.

(** ** Readers *)

(** C6. A value of the wrong length under the height key: the guard of
    [getBlockHash] fires, but it wraps the [nil] error of the read, so the
    call returns the zero hash and no error. *)
Theorem getBlockHash_wrong_length (f : db.Faults) (kv : db.Store)
  (height : Z) (value : list byte) :
  db.Get f kv blockHashHeightMappingNS
    (heightPrefix ++ byteutil.Uint64ToBytes height) = (value, None) ->
  length value <> 32%nat ->
  getBlockHash f kv height = (hash.ZeroHash32B, None).
Proof.
  intros Hget Hlen. unfold getBlockHash. rewrite Hget.
  rewrite length_ZeroHash32B.
  destruct (32 =? length value)%nat eqn:E.
  - apply Nat.eqb_eq in E. congruence.
  - reflexivity.
Qed.

Lemma getBlockHash_wrong_length_witness :
  length (replicate 7 ("x"%byte)) <> 32%nat /\
  getBlockHash db.healthy Scenario.short_hash 9 = (hash.ZeroHash32B, None).
Proof.
  split; [simpl; lia|].
  apply (getBlockHash_wrong_length db.healthy Scenario.short_hash 9
           (replicate 7 ("x"%byte))); [reflexivity|simpl; lia].
Defined.

(** C7. The four per-address count readers answer zero without an error
    whenever the read of the counter fails, whatever the failure: a
    backend fault is not told apart from an absent key. *)
Theorem count_readers_swallow_read_errors (f : db.Faults) (kv : db.Store)
  (A : string) (e : string) :
  (db.Get_fails f blockAddressTransferCountMappingNS
     (transferFromPrefix ++ list_byte_of_string A) = Some e ->
   getTransferCountBySenderAddress f kv A = Some (0, None)) /\
  (db.Get_fails f blockAddressTransferCountMappingNS
     (transferToPrefix ++ list_byte_of_string A) = Some e ->
   getTransferCountByRecipientAddress f kv A = Some (0, None)) /\
  (db.Get_fails f blockAddressVoteCountMappingNS
     (voteFromPrefix ++ list_byte_of_string A) = Some e ->
   getVoteCountBySenderAddress f kv A = Some (0, None)) /\
  (db.Get_fails f blockAddressVoteCountMappingNS
     (voteToPrefix ++ list_byte_of_string A) = Some e ->
   getVoteCountByRecipientAddress f kv A = Some (0, None)).
Proof.
  repeat split; intros Hf;
    [unfold getTransferCountBySenderAddress
    |unfold getTransferCountByRecipientAddress
    |unfold getVoteCountBySenderAddress
    |unfold getVoteCountByRecipientAddress];
    rewrite (Get_fault _ _ _ _ _ Hf); reflexivity.
Qed.

Lemma count_readers_swallow_read_errors_witness :
  Scenario.counter_five
    !! (blockAddressTransferCountMappingNS,
        transferFromPrefix ++ list_byte_of_string "A")
  = Some (byteutil.Uint64ToBytes 5) /\
  getTransferCountBySenderAddress db.healthy Scenario.counter_five "A"
  = Some (5, None) /\
  getTransferCountBySenderAddress Scenario.reads_fail Scenario.counter_five "A"
  = Some (0, None).
Proof.
  split; [reflexivity|]. split; [reflexivity|].
  apply (count_readers_swallow_read_errors Scenario.reads_fail
           Scenario.counter_five "A" "read").
  reflexivity.
Defined.

(** What the count readers do on a read that works. *)
Lemma count_reader_absent (f : db.Faults) (kv : db.Store) (A : string) :
  db.Get_fails f blockAddressTransferCountMappingNS
    (transferFromPrefix ++ list_byte_of_string A) = None ->
  kv !! (blockAddressTransferCountMappingNS,
         transferFromPrefix ++ list_byte_of_string A) = None ->
  getTransferCountBySenderAddress f kv A = Some (0, None).
Proof.
  intros Hf Hl. unfold getTransferCountBySenderAddress.
  rewrite (Get_missing _ _ _ _ Hf Hl). reflexivity.
Qed.

Lemma count_reader_empty (f : db.Faults) (kv : db.Store) (A : string) :
  db.Get f kv blockAddressTransferCountMappingNS
    (transferFromPrefix ++ list_byte_of_string A) = ([], None) ->
  getTransferCountBySenderAddress f kv A
  = Some (0, Some (ErrNew "count of transfers as recipient is broken")).
Proof.
  intros Hg. unfold getTransferCountBySenderAddress. rewrite Hg. reflexivity.
Qed.

(** C10. The four public enumerations return the nil list whenever they
    return an error, although the loop they call hands back what it had
    collected before the failure. *)
Theorem enumerations_nil_on_error (f : db.Faults) (kv : db.Store)
  (A : string) (res : list Hash32B) (e : Err) :
  (getTransfersBySenderAddress f kv A = Some (res, Some e) -> res = []) /\
  (getTransfersByRecipientAddress f kv A = Some (res, Some e) -> res = []) /\
  (getVotesBySenderAddress f kv A = Some (res, Some e) -> res = []) /\
  (getVotesByRecipientAddress f kv A = Some (res, Some e) -> res = []).
Proof.
  repeat split; intros H;
    [unfold getTransfersBySenderAddress in H
    |unfold getTransfersByRecipientAddress in H
    |unfold getVotesBySenderAddress in H
    |unfold getVotesByRecipientAddress in H];
    apply bind_Some in H as ([c [err|]] & _ & H); try congruence;
    match type of H with
    | match ?g with _ => _ end = _ => destruct g as [r [err|]]
    end; congruence.
Qed.

(** ** Start *)

(** C8, as stated, fails. With only the counter of total transfers in
    the store, the collision on that key makes [Start] fail; with only the
    top height in the store, [Start] succeeds at once and the two totals
    are never seeded. *)
Lemma Start_collision_counterexample :
  snd (Start db.healthy Scenario.only_totals)
  = Some (ErrWrap ErrAlreadyExist
            "failed to write initial value for total transfers") /\
  snd (Start db.healthy Scenario.only_top) = None /\
  fst (Start db.healthy Scenario.only_top) !! (blockNS, totalTransfersKey) = None /\
  fst (Start db.healthy Scenario.only_top) !! (blockNS, totalVotesKey) = None.
Proof. repeat split; reflexivity. Qed.

(** C8, amended. The top height is the mark of a store that was started
    before: when it is there, [Start] succeeds at once and leaves the
    store as it is; a failure of the backend on its insertion makes
    [Start] fail.
    When the top height was inserted, the two totals are inserted after
    it in turn, and any error of these insertions, a collision included,
    makes [Start] fail. On a store with none of the three keys and a
    backend that works, all three keys hold eight zero bytes. *)
Theorem Start_seeds (f : db.Faults) (kv : db.Store)
  (Hstart : db.OnStart_fails f = None) :
  let put_fails key := db.PutIfNotExists_fails f blockNS key in
  (* top height present *)
  (put_fails topHeightKey = None ->
   is_Some (kv !! (blockNS, topHeightKey)) ->
   Start f kv = (kv, None)) /\
  (* the insertion of the top height fails *)
  (forall e, put_fails topHeightKey = Some e ->
   Start f kv
   = (kv, Some (ErrWrap (ErrBackend e)
                  "failed to write initial value for top height"))) /\
  (* the top height is inserted, the insertion of a total fails *)
  (put_fails topHeightKey = None -> kv !! (blockNS, topHeightKey) = None ->
   (forall e, put_fails totalTransfersKey = Some e ->
    snd (Start f kv)
    = Some (ErrWrap (ErrBackend e)
              "failed to write initial value for total transfers")) /\
   (put_fails totalTransfersKey = None ->
    is_Some (kv !! (blockNS, totalTransfersKey)) ->
    snd (Start f kv)
    = Some (ErrWrap ErrAlreadyExist
              "failed to write initial value for total transfers")) /\
   (put_fails totalTransfersKey = None ->
    kv !! (blockNS, totalTransfersKey) = None ->
    (forall e, put_fails totalVotesKey = Some e ->
     snd (Start f kv)
     = Some (ErrWrap (ErrBackend e)
               "failed to write initial value for total votes")) /\
    (put_fails totalVotesKey = None ->
     is_Some (kv !! (blockNS, totalVotesKey)) ->
     snd (Start f kv)
     = Some (ErrWrap ErrAlreadyExist
               "failed to write initial value for total votes")) /\
    (* nothing is there and nothing fails: the three keys are seeded *)
    (put_fails totalVotesKey = None ->
     kv !! (blockNS, totalVotesKey) = None ->
     Start f kv
     = (<[(blockNS, totalVotesKey) := make_bytes 8]>
          (<[(blockNS, totalTransfersKey) := make_bytes 8]>
             (<[(blockNS, topHeightKey) := make_bytes 8]> kv)),
        None)))).
Proof.
  intros put_fails. subst put_fails. cbv beta.
  assert (Htt : forall m : db.Store,
             <[(blockNS, topHeightKey) := make_bytes 8]> m
               !! (blockNS, totalTransfersKey) = m !! (blockNS, totalTransfersKey))
    by (intros m; apply lookup_insert_ne; intros [=]).
  assert (Htv : forall m : db.Store,
             <[(blockNS, totalTransfersKey) := make_bytes 8]>
               (<[(blockNS, topHeightKey) := make_bytes 8]> m)
               !! (blockNS, totalVotesKey) = m !! (blockNS, totalVotesKey))
    by (intros m; rewrite !lookup_insert_ne by (intros [=]); reflexivity).
  unfold Start. rewrite Hstart. unfold db.PutIfNotExists.
  split; [|split].
  - intros -> [v ->]. reflexivity.
  - intros e ->. reflexivity.
  - intros -> ->. split; [|split].
    + intros e ->. reflexivity.
    + intros ->. rewrite Htt. intros [v ->]. reflexivity.
    + intros ->. rewrite Htt. intros ->. split; [|split].
      * intros e ->. reflexivity.
      * intros ->. rewrite Htv. intros [v ->]. reflexivity.
      * intros ->. rewrite Htv. intros ->. reflexivity.
Qed.

Lemma Start_seeds_witness :
  Start db.healthy ∅
  = (<[(blockNS, totalVotesKey) := make_bytes 8]>
       (<[(blockNS, totalTransfersKey) := make_bytes 8]>
          (<[(blockNS, topHeightKey) := make_bytes 8]> ∅)),
     None) /\
  Start db.healthy Scenario.only_top = (Scenario.only_top, None) /\
  Start Scenario.puts_fail ∅
  = (∅, Some (ErrWrap (ErrBackend "write")
                "failed to write initial value for top height")).
Proof.
  pose proof (Start_seeds db.healthy ∅ eq_refl) as (_ & _ & H).
  destruct (H eq_refl (lookup_empty _)) as (_ & _ & H').
  destruct (H' eq_refl (lookup_empty _)) as (_ & _ & H'').
  split; [exact (H'' eq_refl (lookup_empty _))|].
  split.
  - apply (Start_seeds db.healthy Scenario.only_top eq_refl);
      [reflexivity|eexists; reflexivity].
  - apply (Start_seeds Scenario.puts_fail ∅ eq_refl). reflexivity.
Defined.

(** A first start: what the three singleton keys hold afterwards. *)
Lemma Start_fresh (f : db.Faults) (kv0 : db.Store) :
  Start f ∅ = (kv0, None) ->
  kv0 !! (blockNS, topHeightKey) = Some (make_bytes 8) /\
  kv0 !! (blockNS, totalTransfersKey) = Some (make_bytes 8) /\
  kv0 !! (blockNS, totalVotesKey) = Some (make_bytes 8).
Proof.
  unfold Start, db.PutIfNotExists.
  destruct (db.OnStart_fails f); [discriminate|].
  destruct (db.PutIfNotExists_fails f blockNS topHeightKey); [discriminate|].
  rewrite lookup_empty.
  destruct (db.PutIfNotExists_fails f blockNS totalTransfersKey); [discriminate|].
  rewrite lookup_insert_ne, lookup_empty by (intros [=]).
  destruct (db.PutIfNotExists_fails f blockNS totalVotesKey); [discriminate|].
  rewrite !lookup_insert_ne, lookup_empty by (intros [=]).
  intros [= <-].
  rewrite lookup_insert_ne by (intros [=]).
  rewrite lookup_insert_ne by (intros [=]).
  rewrite !lookup_insert_eq.
  rewrite lookup_insert_ne by (intros [=]).
  rewrite !lookup_insert_eq. auto.
Qed.

(** ** The loops of putTransfers and putVotes *)

(** With a read that works, the count reader returns the counter on disk,
    and zero when there is none. *)
Lemma count_of_stored (d : side) (f : db.Faults) (kv : db.Store) (A : string)
  (c : Z) :
  is_uint64 c ->
  db.Get f kv blockAddressTransferCountMappingNS
    (prefix_of d ++ list_byte_of_string A)
  = (byteutil.Uint64ToBytes c, None) ->
  count_of d f kv A = Some (c, None).
Proof.
  intros Hc Hget.
  destruct d; cbn [prefix_of count_of] in *;
    [unfold getTransferCountBySenderAddress
    |unfold getTransferCountByRecipientAddress].
  all: rewrite Hget, length_Uint64ToBytes, Uint64_Uint64ToBytes.
  all: rewrite wrap64_small by exact Hc; reflexivity.
Qed.

Lemma count_of_absent (d : side) (f : db.Faults) (kv : db.Store) (A : string) :
  db.Get_fails f blockAddressTransferCountMappingNS
    (prefix_of d ++ list_byte_of_string A) = None ->
  kv !! count_key d A = None ->
  count_of d f kv A = Some (0, None).
Proof.
  intros Hf Hl. unfold count_key in Hl.
  destruct d; cbn [prefix_of count_of] in *;
    [unfold getTransferCountBySenderAddress
    |unfold getTransferCountByRecipientAddress].
  all: rewrite (Get_missing _ _ _ _ Hf Hl); reflexivity.
Qed.

Lemma count_of_range (d : side) (f : db.Faults) (kv : db.Store) (A : string)
  (c : Z) (err : error) :
  count_of d f kv A = Some (c, err) -> is_uint64 c.
Proof.
  assert (H0 : is_uint64 0) by (unfold is_uint64; lia).
  destruct d; simpl;
    [unfold getTransferCountBySenderAddress
    |unfold getTransferCountByRecipientAddress].
  all: destruct (db.Get _ _ _ _) as [value [e|]]; [intros [= <- _]; exact H0|].
  all: destruct (length value =? 0)%nat; [intros [= <- _]; exact H0|].
  all: intros H; apply bind_Some in H as (z & Hz & [= <- _]).
  all: exact (Uint64_range _ _ Hz).
Qed.

(** One successful iteration of the loop of [putTransfers]. *)
Lemma putTransfers_loop_cons_ok (f : db.Faults) (kv : db.Store)
  (t : Transfer) (ts : list Transfer) (sd rd : gmap string Z)
  (batch batch' : list db.write) :
  putTransfers_loop f kv (t :: ts) sd rd batch = Some (batch', None) ->
  exists cS cR,
    count_of AsSender f kv (Sender t) = Some (cS, None) /\
    count_of AsRecipient f kv (Recipient t) = Some (cR, None) /\
    putTransfers_loop f kv ts (bump (Sender t) sd) (bump (Recipient t) rd)
      (batch ++ transfer_writes t (seq_of cS (sd !! Sender t))
                                  (seq_of cR (rd !! Recipient t)))
    = Some (batch', None).
Proof.
  simpl. intros H.
  apply bind_Some in H as ([cS [e|]] & HcS & H); [discriminate|].
  exists cS.
  destruct (sd !! Sender t) as [dS|] eqn:EdS.
  all: apply bind_Some in H as ([cR [e|]] & HcR & H); [discriminate|].
  all: exists cR.
  all: destruct (rd !! Recipient t) as [dR|] eqn:EdR.
  all: unfold db.batch_Put, db.batch_PutIfNotExists in H.
  all: rewrite <- !app_assoc in H; simpl in H.
  all: refine (conj HcS (conj HcR _)).
  all: unfold bump, transfer_writes, entry_key, seq_of; rewrite EdS, EdR.
  all: exact H.
Qed.

(** A successful run of the loop only appends writes, and these are
    conditional inserts into the index and overwrites of counters. *)
Lemma putTransfers_loop_extends (f : db.Faults) (kv : db.Store)
  (ts : list Transfer) :
  forall (sd rd : gmap string Z) (batch batch' : list db.write),
  putTransfers_loop f kv ts sd rd batch = Some (batch', None) ->
  exists ops, batch' = batch ++ ops /\ Forall transfer_write ops.
Proof.
  induction ts as [|t ts IH]; intros sd rd batch batch' H.
  - simpl in H. injection H as <-. exists []. rewrite app_nil_r. auto.
  - apply putTransfers_loop_cons_ok in H as (cS & cR & _ & _ & H).
    apply IH in H as (ops & -> & Hops).
    eexists. rewrite <- app_assoc. split; [reflexivity|].
    apply Forall_app. split; [|exact Hops].
    unfold transfer_writes, transfer_write.
    repeat (constructor; [simpl; tauto|]). constructor.
Qed.

Section PutBlock.

Variable GetAddress : list byte -> string * error.

Lemma putVotes_loop_extends (f : db.Faults) (kv : db.Store) (vs : list Vote) :
  forall (sd rd : gmap string Z) (batch batch' : list db.write),
  putVotes_loop GetAddress f kv vs sd rd batch = Some (batch', None) ->
  exists ops, batch' = batch ++ ops /\ Forall vote_write ops.
Proof.
  induction vs as [|v vs IH]; intros sd rd batch batch' H.
  - simpl in H. injection H as <-. exists []. rewrite app_nil_r. auto.
  - simpl in H.
    destruct (GetAddress (SelfPubkey v)) as [S [e|]]; [discriminate|].
    destruct (GetAddress (VotePubkey v)) as [R [e|]]; [discriminate|].
    apply bind_Some in H as ([cS [e|]] & _ & H); [discriminate|].
    destruct (sd !! S).
    all: apply bind_Some in H as ([cR [e|]] & _ & H); [discriminate|].
    all: destruct (rd !! R).
    all: apply IH in H as (ops & -> & Hops).
    all: unfold db.batch_Put, db.batch_PutIfNotExists.
    all: rewrite <- !app_assoc; simpl.
    all: eexists; split; [reflexivity|].
    all: unfold vote_write.
    all: repeat (constructor; [simpl; tauto|]); exact Hops.
Qed.

(** What a successful [putBlock] has read and what it has committed. *)
Lemma putBlock_ok_inv (f : db.Faults) (kv kv' : db.Store) (blk : Block) :
  putBlock GetAddress f kv blk = Some (kv', None) ->
  exists serialized vtop top vtt tt vtv tv batch tops vops,
    Serialize blk = (serialized, None) /\
    db.Get f kv blockNS topHeightKey = (vtop, None) /\
    enc.MachineEndian_Uint64 vtop = Some top /\
    db.Get f kv blockNS totalTransfersKey = (vtt, None) /\
    enc.MachineEndian_Uint64 vtt = Some tt /\
    db.Get f kv blockNS totalVotesKey = (vtv, None) /\
    enc.MachineEndian_Uint64 vtv = Some tv /\
    batch = block_writes blk serialized top tt tv /\
    putTransfers_loop f kv (Transfers blk) ∅ ∅ batch = Some (batch ++ tops, None) /\
    Forall transfer_write tops /\
    Forall vote_write vops /\
    kv' = foldl db.apply_write kv (batch ++ tops ++ vops).
Proof.
  unfold putBlock. intros H.
  destruct (Serialize blk) as [serialized [e|]] eqn:ESer; [discriminate|].
  destruct (db.Get f kv blockNS topHeightKey) as [vtop [e|]] eqn:Etop;
    [discriminate|].
  apply bind_Some in H as (top & Htop & H).
  destruct (db.Get f kv blockNS totalTransfersKey) as [vtt [e|]] eqn:Ett;
    [discriminate|].
  apply bind_Some in H as (tt & Htt & H).
  destruct (db.Get f kv blockNS totalVotesKey) as [vtv [e|]] eqn:Etv;
    [discriminate|].
  apply bind_Some in H as (tv & Htv & H).
  apply bind_Some in H as ([b1 [e|]] & HT & H); [discriminate|].
  apply bind_Some in H as ([b2 [e|]] & HV & H); [discriminate|].
  unfold db.Commit in H.
  destruct (db.Commit_fails f _ _); [discriminate|]. injection H as <-.
  unfold putTransfers in HT. unfold putVotes in HV.
  match type of HT with
  | putTransfers_loop _ _ _ _ _ ?b = _ =>
      assert (Hb : b = block_writes blk serialized top tt tv)
  end.
  { unfold block_writes, db.batch_Put, db.batch_PutIfNotExists, db.Batch.
    cbv zeta. rewrite !foldl_stage.
    destruct (Height blk >? top); simpl; rewrite <- ?app_assoc; reflexivity. }
  rewrite Hb in HT.
  destruct (putTransfers_loop_extends _ _ _ _ _ _ _ HT) as (tops & -> & HTops).
  destruct (putVotes_loop_extends _ _ _ _ _ _ _ HV) as (vops & -> & HVops).
  exists serialized, vtop, top, vtt, tt, vtv, tv,
    (block_writes blk serialized top tt tv), tops, vops.
  rewrite <- app_assoc. repeat split; assumption || reflexivity.
Qed.

(** C2. [putBlock] is atomic: when it returns an error, whichever it is,
    the store after the call is the store before it; and when the backend
    rejects every commit, [putBlock] cannot return without an error. *)
Theorem putBlock_atomic (f : db.Faults) (kv kv' : db.Store) (blk : Block)
  (err : error) :
  putBlock GetAddress f kv blk = Some (kv', err) ->
  (is_Some err -> kv' = kv) /\
  ((forall m batch, is_Some (db.Commit_fails f m batch)) -> is_Some err).
Proof.
  unfold putBlock. intros H.
  destruct (Serialize blk) as [serialized [e|]].
  { injection H as <- <-. split; [reflexivity|]. intros _. eexists; reflexivity. }
  destruct (db.Get f kv blockNS topHeightKey) as [vtop [e|]].
  { injection H as <- <-. split; [reflexivity|]. intros _. eexists; reflexivity. }
  apply bind_Some in H as (top & _ & H).
  destruct (db.Get f kv blockNS totalTransfersKey) as [vtt [e|]].
  { injection H as <- <-. split; [reflexivity|]. intros _. eexists; reflexivity. }
  apply bind_Some in H as (tt & _ & H).
  destruct (db.Get f kv blockNS totalVotesKey) as [vtv [e|]].
  { injection H as <- <-. split; [reflexivity|]. intros _. eexists; reflexivity. }
  apply bind_Some in H as (tv & _ & H).
  apply bind_Some in H as ([b1 [e|]] & _ & H).
  { injection H as <- <-. split; [reflexivity|]. intros _. eexists; reflexivity. }
  apply bind_Some in H as ([b2 [e|]] & _ & H).
  { injection H as <- <-. split; [reflexivity|]. intros _. eexists; reflexivity. }
  unfold db.Commit in H. destruct (db.Commit_fails f kv b2) as [what|] eqn:EC.
  - injection H as <- <-. split; [reflexivity|]. intros _. eexists; reflexivity.
  - injection H as <- <-. split; [intros [x Hx]; discriminate|].
    intros Hrej. destruct (Hrej kv b2) as [x Hx]. congruence.
Qed.

End PutBlock.

(** ** The singleton counters *)

Lemma transfer_write_not_blockNS (ops : list db.write) :
  Forall transfer_write ops -> Forall (fun w => db.wns w <> blockNS) ops.
Proof.
  intros H. eapply Forall_impl; [exact H|].
  intros w [[E _]|[E _]]; rewrite E; discriminate.
Qed.

Lemma vote_write_not_blockNS (ops : list db.write) :
  Forall vote_write ops -> Forall (fun w => db.wns w <> blockNS) ops.
Proof.
  intros H. eapply Forall_impl; [exact H|].
  intros w [E|E]; rewrite E; discriminate.
Qed.

(** The effect of the first writes of [putBlock] on the three singleton
    keys, when the keys are there. *)
Lemma block_writes_singletons (kv : db.Store) (blk : Block)
  (serialized vtop vtt vtv : list byte) (top tt tv : Z) :
  kv !! (blockNS, topHeightKey) = Some vtop ->
  kv !! (blockNS, totalTransfersKey) = Some vtt ->
  kv !! (blockNS, totalVotesKey) = Some vtv ->
  let kv' := foldl db.apply_write kv (block_writes blk serialized top tt tv) in
  kv' !! (blockNS, topHeightKey)
  = Some (if Height blk >? top then byteutil.Uint64ToBytes (Height blk) else vtop) /\
  kv' !! (blockNS, totalTransfersKey)
  = Some (byteutil.Uint64ToBytes
            (wrap64 (tt + Z.of_nat (length (Transfers blk))))) /\
  kv' !! (blockNS, totalVotesKey)
  = Some (byteutil.Uint64ToBytes (wrap64 (tv + Z.of_nat (length (Votes blk))))).
Proof.
  intros Htop Htt Htv kv'. subst kv'. unfold block_writes.
  rewrite !foldl_app.
  rewrite !(lookup_apply_other_ns (_ <$> Votes blk))
    by (apply Forall_fmap, Forall_true; intros v; discriminate).
  rewrite !(lookup_apply_other_ns (_ <$> Transfers blk))
    by (apply Forall_fmap, Forall_true; intros v; discriminate).
  destruct (Height blk >? top); cbn [foldl];
    rewrite !lookup_apply_write; unfold db.target; cbn [db.wns db.wkey db.wvalue db.is_WPut].
  all: rewrite Htop, Htt, Htv; cbn [default].
  all: repeat split; repeat case_decide; try discriminate; try reflexivity.
  all: congruence.
Qed.

Section Counters.

Variable GetAddress : list byte -> string * error.

(** One successful [putBlock]: the singleton keys before and after. *)
Lemma putBlock_singletons (f : db.Faults) (kv kv' : db.Store) (blk : Block) :
  putBlock GetAddress f kv blk = Some (kv', None) ->
  exists vtop top vtt tt vtv tv,
    kv !! (blockNS, topHeightKey) = Some vtop /\
    enc.MachineEndian_Uint64 vtop = Some top /\
    kv !! (blockNS, totalTransfersKey) = Some vtt /\
    enc.MachineEndian_Uint64 vtt = Some tt /\
    kv !! (blockNS, totalVotesKey) = Some vtv /\
    enc.MachineEndian_Uint64 vtv = Some tv /\
    kv' !! (blockNS, topHeightKey)
    = Some (if Height blk >? top
            then byteutil.Uint64ToBytes (Height blk) else vtop) /\
    kv' !! (blockNS, totalTransfersKey)
    = Some (byteutil.Uint64ToBytes
              (wrap64 (tt + Z.of_nat (length (Transfers blk))))) /\
    kv' !! (blockNS, totalVotesKey)
    = Some (byteutil.Uint64ToBytes
              (wrap64 (tv + Z.of_nat (length (Votes blk))))).
Proof.
  intros H.
  apply putBlock_ok_inv in H
    as (ser & vtop & top & vtt & tt & vtv & tv & batch & tops & vops
        & _ & Gtop & Htop & Gtt & Htt & Gtv & Htv & -> & _ & HT & HV & ->).
  apply Get_ok in Gtop as [_ Ltop].
  apply Get_ok in Gtt as [_ Ltt].
  apply Get_ok in Gtv as [_ Ltv].
  exists vtop, top, vtt, tt, vtv, tv.
  do 6 (split; [assumption|]).
  rewrite !foldl_app.
  rewrite !(lookup_apply_other_ns vops) by (apply vote_write_not_blockNS, HV).
  rewrite !(lookup_apply_other_ns tops) by (apply transfer_write_not_blockNS, HT).
  exact (block_writes_singletons kv blk ser vtop vtt vtv top tt tv Ltop Ltt Ltv).
Qed.


Lemma Uint64ToBytes_0 : byteutil.Uint64ToBytes 0 = make_bytes 8.
Proof. reflexivity. Qed.

(** Reading a singleton key that holds an encoded number. *)
Lemma read_singletons (f : db.Faults) (kv : db.Store) (v : Z) :
  reads_work f -> is_uint64 v ->
  (kv !! (blockNS, topHeightKey) = Some (byteutil.Uint64ToBytes v) ->
   getBlockchainHeight f kv = Some (v, None)) /\
  (kv !! (blockNS, totalTransfersKey) = Some (byteutil.Uint64ToBytes v) ->
   getTotalTransfers f kv = Some (v, None)) /\
  (kv !! (blockNS, totalVotesKey) = Some (byteutil.Uint64ToBytes v) ->
   getTotalVotes f kv = Some (v, None)).
Proof.
  intros Hf Hv.
  repeat split; intros Hl;
    [unfold getBlockchainHeight|unfold getTotalTransfers|unfold getTotalVotes].
  all: rewrite (Get_lookup _ _ _ _ _ (Hf _ _) Hl).
  all: rewrite length_Uint64ToBytes, Uint64_Uint64ToBytes, wrap64_small by exact Hv.
  all: reflexivity.
Qed.

Lemma count_transfers_nonneg (blks : list Block) : 0 <= count_transfers blks.
Proof. induction blks; simpl; lia. Qed.

Lemma count_votes_nonneg (blks : list Block) : 0 <= count_votes blks.
Proof. induction blks; simpl; lia. Qed.

Lemma max_height_nonneg (blks : list Block) : 0 <= max_height blks.
Proof. induction blks; simpl; lia. Qed.

Lemma max_height_range (blks : list Block) :
  Forall (fun blk => is_uint64 (Height blk)) blks -> is_uint64 (max_height blks).
Proof.
  unfold is_uint64. induction 1 as [|blk blks Hb _ IH]; simpl; lia.
Qed.

Lemma wrap64_add_l (a b : Z) : wrap64 (wrap64 a + b) = wrap64 (a + b).
Proof. unfold wrap64. apply Zplus_mod_idemp_l. Qed.

(** The two totals along a run of successful [putBlock] calls. *)
Lemma put_seq_totals (kv kv' : db.Store) (blks : list Block) :
  put_seq GetAddress kv blks kv' ->
  forall tt tv : Z,
  is_uint64 tt -> is_uint64 tv ->
  kv !! (blockNS, totalTransfersKey) = Some (byteutil.Uint64ToBytes tt) ->
  kv !! (blockNS, totalVotesKey) = Some (byteutil.Uint64ToBytes tv) ->
  kv' !! (blockNS, totalTransfersKey)
  = Some (byteutil.Uint64ToBytes (wrap64 (tt + count_transfers blks))) /\
  kv' !! (blockNS, totalVotesKey)
  = Some (byteutil.Uint64ToBytes (wrap64 (tv + count_votes blks))).
Proof.
  induction 1 as [kv|f kv blk kv1 blks kv2 Hput Hrest IH];
    intros tt tv Htt Htv Ltt Ltv.
  - simpl. rewrite !Z.add_0_r, !wrap64_small by assumption. auto.
  - apply putBlock_singletons in Hput
      as (vtop & top' & vtt & tt' & vtv & tv'
          & _ & _ & Ltt' & Dtt & Ltv' & Dtv & _ & Ntt & Ntv).
    rewrite Ltt in Ltt'. injection Ltt' as <-.
    rewrite Ltv in Ltv'. injection Ltv' as <-.
    rewrite Uint64_Uint64ToBytes, wrap64_small in Dtt, Dtv by assumption.
    injection Dtt as <-. injection Dtv as <-.
    destruct (IH _ _ (wrap64_range _) (wrap64_range _) Ntt Ntv) as (Ftt & Ftv).
    rewrite Ftt, Ftv. simpl.
    rewrite !wrap64_add_l, !Z.add_assoc. auto.
Qed.

(** The top height along a run of successful [putBlock] calls. *)
Lemma put_seq_top (kv kv' : db.Store) (blks : list Block) :
  put_seq GetAddress kv blks kv' ->
  forall top : Z,
  is_uint64 top ->
  Forall (fun blk => is_uint64 (Height blk)) blks ->
  kv !! (blockNS, topHeightKey) = Some (byteutil.Uint64ToBytes top) ->
  kv' !! (blockNS, topHeightKey)
  = Some (byteutil.Uint64ToBytes (Z.max top (max_height blks))).
Proof.
  induction 1 as [kv|f kv blk kv1 blks kv2 Hput Hrest IH];
    intros top Htop Hh Ltop.
  - simpl. rewrite Z.max_l by (destruct Htop; assumption). exact Ltop.
  - apply Forall_cons in Hh as [Hblk Hh].
    apply putBlock_singletons in Hput
      as (vtop & top' & vtt & tt' & vtv & tv'
          & Ltop' & Dtop & _ & _ & _ & _ & Ntop & _ & _).
    rewrite Ltop in Ltop'. injection Ltop' as <-.
    rewrite Uint64_Uint64ToBytes, wrap64_small in Dtop by assumption.
    injection Dtop as <-.
    assert (Ntop' : kv1 !! (blockNS, topHeightKey)
                    = Some (byteutil.Uint64ToBytes (Z.max top (Height blk)))).
    { rewrite Ntop. destruct (Z.gtb_spec (Height blk) top).
      - rewrite Z.max_r by lia. reflexivity.
      - rewrite Z.max_l by lia. reflexivity. }
    assert (Hmax : is_uint64 (Z.max top (Height blk)))
      by (unfold is_uint64 in *; lia).
    rewrite (IH _ Hmax Hh Ntop'). simpl.
    replace (Z.max (Z.max top (Height blk)) (max_height blks))
      with (Z.max top (Z.max (Height blk) (max_height blks))) by lia.
    reflexivity.
Qed.

(** C3. On a store that was just started for the first time, after any
    run of successful [putBlock] calls the total of transfers is the sum
    of the numbers of transfers of the blocks put, and the total of votes
    the sum of their numbers of votes (a block put twice counts twice, so
    this holds in particular for distinct blocks), as long as the sums fit
    in a uint64. *)
Theorem totals_are_sums (f0 f : db.Faults) (kv0 kv : db.Store)
  (blks : list Block) :
  Start f0 ∅ = (kv0, None) ->
  put_seq GetAddress kv0 blks kv ->
  count_transfers blks < 2 ^ 64 ->
  count_votes blks < 2 ^ 64 ->
  reads_work f ->
  getTotalTransfers f kv = Some (count_transfers blks, None) /\
  getTotalVotes f kv = Some (count_votes blks, None).
Proof.
  intros HS Hseq Ht Hv Hf.
  apply Start_fresh in HS as (_ & Ltt & Ltv).
  rewrite <- Uint64ToBytes_0 in Ltt, Ltv.
  assert (H0 : is_uint64 0) by (unfold is_uint64; lia).
  destruct (put_seq_totals _ _ _ Hseq 0 0 H0 H0 Ltt Ltv) as (Ftt & Ftv).
  pose proof (count_transfers_nonneg blks). pose proof (count_votes_nonneg blks).
  rewrite Z.add_0_l, wrap64_small in Ftt, Ftv by (unfold is_uint64; lia).
  split.
  - apply (read_singletons f kv (count_transfers blks));
      [exact Hf|unfold is_uint64; lia|exact Ftt].
  - apply (read_singletons f kv (count_votes blks));
      [exact Hf|unfold is_uint64; lia|exact Ftv].
Qed.

(** The effect of the first writes of [putBlock] on the payload and on
    the two mappings between hash and height. *)
Lemma block_writes_index (kv : db.Store) (blk : Block)
  (serialized : list byte) (top tt tv : Z) :
  length (HashBlock blk) = 32%nat ->
  let kv' := foldl db.apply_write kv (block_writes blk serialized top tt tv) in
  kv' !! (blockNS, HashBlock blk)
  = Some (default serialized (kv !! (blockNS, HashBlock blk))) /\
  kv' !! (blockHashHeightMappingNS, hashPrefix ++ HashBlock blk)
  = Some (byteutil.Uint64ToBytes (Height blk)) /\
  kv' !! (blockHashHeightMappingNS,
          heightPrefix ++ byteutil.Uint64ToBytes (Height blk))
  = Some (HashBlock blk).
Proof.
  intros Hlen kv'. subst kv'. unfold block_writes.
  rewrite !foldl_app.
  rewrite !(lookup_apply_other_ns (_ <$> Votes blk))
    by (apply Forall_fmap, Forall_true; intros v; discriminate).
  rewrite !(lookup_apply_other_ns (_ <$> Transfers blk))
    by (apply Forall_fmap, Forall_true; intros v; discriminate).
  assert (Hk : forall key : list byte,
             length key <> 32%nat -> (blockNS, key) <> (blockNS, HashBlock blk))
    by (intros key Hkey [= ->]; exact (Hkey Hlen)).
  assert (Hp : forall a b : list byte, heightPrefix ++ a <> hashPrefix ++ b)
    by (intros a b; cbv [heightPrefix hashPrefix]; simpl; intros [=]).
  destruct (Height blk >? top); cbn [foldl];
    rewrite !lookup_apply_write; unfold db.target;
    cbn [db.wns db.wkey db.wvalue db.is_WPut].
  all: repeat split; repeat case_decide; try discriminate; try reflexivity.
  all: try (exfalso; match goal with
                     | H : (blockNS, ?k) = (blockNS, HashBlock _) |- _ =>
                         apply (Hk k) in H; [exact H|simpl; lia]
                     end).
  all: try (exfalso; match goal with
                     | H : (_, heightPrefix ++ ?a) = (_, hashPrefix ++ ?b) |- _ =>
                         injection H as H; exact (Hp a b H)
                     | H : (_, hashPrefix ++ ?b) = (_, heightPrefix ++ ?a) |- _ =>
                         injection H as H; symmetry in H; exact (Hp a b H)
                     end).
  all: try congruence.
Qed.

(** One successful [putBlock]: the block is indexed. *)
Lemma putBlock_index (f : db.Faults) (kv kv' : db.Store) (blk : Block) :
  putBlock GetAddress f kv blk = Some (kv', None) ->
  length (HashBlock blk) = 32%nat ->
  kv' !! (blockNS, HashBlock blk)
  = Some (default (fst (Serialize blk)) (kv !! (blockNS, HashBlock blk))) /\
  kv' !! (blockHashHeightMappingNS, hashPrefix ++ HashBlock blk)
  = Some (byteutil.Uint64ToBytes (Height blk)) /\
  kv' !! (blockHashHeightMappingNS,
          heightPrefix ++ byteutil.Uint64ToBytes (Height blk))
  = Some (HashBlock blk).
Proof.
  intros H Hlen.
  apply putBlock_ok_inv in H
    as (ser & vtop & top & vtt & tt & vtv & tv & batch & tops & vops
        & ESer & _ & _ & _ & _ & _ & _ & -> & _ & HT & HV & ->).
  rewrite ESer. simpl fst.
  rewrite !foldl_app.
  rewrite !(lookup_apply_other_ns vops)
    by (eapply Forall_impl; [exact HV|]; intros w [E|E]; rewrite E; discriminate).
  rewrite !(lookup_apply_other_ns tops)
    by (eapply Forall_impl; [exact HT|];
        intros w [[E _]|[E _]]; rewrite E; discriminate).
  exact (block_writes_index kv blk ser top tt tv Hlen).
Qed.

(** C4. The top height is the greatest height put and is never lowered.
    On a store that was just started for the first time, after any run of
    successful [putBlock] calls [getBlockchainHeight] is the maximum of
    the heights of the blocks put. And any successful [putBlock] turns the
    top height into the greater of the top height and the height of the
    block and indexes the block (payload, hash to height, height to
    hash); so a block that is not higher than the top height leaves the
    top height as it is and is still indexed. *)
Theorem top_height_is_max :
  (forall (f0 f : db.Faults) (kv0 kv : db.Store) (blks : list Block),
   Start f0 ∅ = (kv0, None) ->
   put_seq GetAddress kv0 blks kv ->
   Forall (fun blk => is_uint64 (Height blk)) blks ->
   reads_work f ->
   getBlockchainHeight f kv = Some (max_height blks, None)) /\
  (forall (f f' : db.Faults) (kv kv' : db.Store) (blk : Block) (top : Z),
   reads_work f ->
   getBlockchainHeight f kv = Some (top, None) ->
   putBlock GetAddress f' kv blk = Some (kv', None) ->
   is_uint64 (Height blk) ->
   length (HashBlock blk) = 32%nat ->
   getBlockchainHeight f kv' = Some (Z.max top (Height blk), None) /\
   (Height blk <= top -> getBlockchainHeight f kv' = Some (top, None)) /\
   is_Some (kv' !! (blockNS, HashBlock blk)) /\
   getBlockHeight f kv' (HashBlock blk) = Some (Height blk, None) /\
   getBlockHash f kv' (Height blk) = (HashBlock blk, None)).
Proof.
  split.
  - intros f0 f kv0 kv blks HS Hseq Hh Hf.
    apply Start_fresh in HS as (Ltop & _ & _).
    rewrite <- Uint64ToBytes_0 in Ltop.
    assert (H0 : is_uint64 0) by (unfold is_uint64; lia).
    pose proof (put_seq_top _ _ _ Hseq 0 H0 Hh Ltop) as Ftop.
    pose proof (max_height_nonneg blks).
    rewrite Z.max_r in Ftop by assumption.
    apply (read_singletons f kv (max_height blks));
      [exact Hf|apply max_height_range, Hh|exact Ftop].
  - intros f f' kv kv' blk top Hf Hread Hput Hh Hlen.
    destruct (putBlock_index _ _ _ _ Hput Hlen) as (Lpay & Lhash & Lheight).
    apply putBlock_singletons in Hput
      as (vtop & top' & vtt & tt' & vtv & tv'
          & Ltop & Dtop & _ & _ & _ & _ & Ntop & _ & _).
    assert (top' = top) as ->.
    { unfold getBlockchainHeight in Hread.
      rewrite (Get_lookup _ _ _ _ _ (Hf _ _) Ltop) in Hread.
      destruct (length vtop =? 0)%nat; [discriminate|].
      rewrite Dtop in Hread. simpl in Hread. congruence. }
    assert (Hmax : getBlockchainHeight f kv'
                   = Some (Z.max top (Height blk), None)).
    { destruct (Z.gtb_spec (Height blk) top) as [Hgt|Hle].
      - rewrite Z.max_r by lia.
        apply (read_singletons f kv' (Height blk)); assumption.
      - rewrite Z.max_l by lia. unfold getBlockchainHeight in *.
        rewrite (Get_lookup _ _ _ _ _ (Hf _ _) Ltop) in Hread.
        rewrite (Get_lookup _ _ _ _ _ (Hf _ _) Ntop). exact Hread. }
    split; [exact Hmax|]. split; [|split; [|split]].
    + intros Hle. rewrite Hmax, Z.max_l by lia. reflexivity.
    + rewrite Lpay. eexists; reflexivity.
    + unfold getBlockHeight.
      rewrite (Get_lookup _ _ _ _ _ (Hf _ _) Lhash).
      rewrite length_Uint64ToBytes, Uint64_Uint64ToBytes, wrap64_small by exact Hh.
      reflexivity.
    + unfold getBlockHash.
      rewrite (Get_lookup _ _ _ _ _ (Hf _ _) Lheight).
      rewrite length_ZeroHash32B, Hlen. simpl.
      rewrite copy_full by (rewrite Hlen; reflexivity). reflexivity.
Qed.

End Counters.

(** ** The per-address index *)

Lemma seq_of_range (c : Z) (o : option Z) : is_uint64 c -> is_uint64 (seq_of c o).
Proof. intros Hc. destruct o; simpl; [apply wrap64_range|exact Hc]. Qed.

Lemma seq_of_small (c : Z) (o : option Z) :
  0 <= c -> 0 <= default 0 o -> c + default 0 o < 2 ^ 64 ->
  seq_of c o = c + default 0 o.
Proof.
  intros Hc Ho Hlt. destruct o as [d|]; simpl in *.
  - apply wrap64_small. unfold is_uint64. lia.
  - lia.
Qed.

Lemma bump_same (A : string) (deltas : gmap string Z) :
  0 <= default 0 (deltas !! A) -> default 0 (deltas !! A) + 1 < 2 ^ 64 ->
  default 0 (bump A deltas !! A) = default 0 (deltas !! A) + 1.
Proof.
  intros H0 H1. unfold bump. rewrite lookup_insert_eq.
  destruct (deltas !! A) as [d|]; simpl in *; [|reflexivity].
  apply wrap64_small. unfold is_uint64. lia.
Qed.

Lemma bump_other (A B : string) (deltas : gmap string Z) :
  B <> A -> bump B deltas !! A = deltas !! A.
Proof. intros Hne. unfold bump. apply lookup_insert_ne. exact Hne. Qed.

Lemma hashes_of_cons (d : side) (A : string) (t : Transfer) (ts : list Transfer) :
  hashes_of d A (t :: ts)
  = if decide (party d t = A) then Transfer_Hash t :: hashes_of d A ts
    else hashes_of d A ts.
Proof.
  destruct d; simpl; unfold sent_by, received_by; rewrite filter_cons;
    case_decide; reflexivity.
Qed.

Lemma count_key_inj (d : side) (A B : string) :
  count_key d A = count_key d B -> A = B.
Proof.
  unfold count_key. intros [= E].
  destruct d; [exact (from_prefix_inj _ _ E)|exact (to_prefix_inj _ _ E)].
Qed.

Lemma prefix_of_inj (d d' : side) (A B : string) :
  prefix_of d ++ list_byte_of_string A = prefix_of d' ++ list_byte_of_string B ->
  d = d' /\ A = B.
Proof.
  destruct d, d'; simpl; intros E.
  - split; [reflexivity|exact (from_prefix_inj _ _ E)].
  - destruct (from_to_disjoint _ _ E).
  - symmetry in E. destruct (from_to_disjoint _ _ E).
  - split; [reflexivity|exact (to_prefix_inj _ _ E)].
Qed.

Ltac key_facts :=
  repeat match goal with
    | H : (_, _) = (_, _) |- _ => apply pair_equal_spec in H as [_ H]
    | H : transferFromPrefix ++ _ = transferToPrefix ++ _ |- _ =>
        destruct (from_to_disjoint _ _ H)
    | H : transferToPrefix ++ _ = transferFromPrefix ++ _ |- _ =>
        symmetry in H; destruct (from_to_disjoint _ _ H)
    | H : transferFromPrefix ++ list_byte_of_string _
          = transferFromPrefix ++ list_byte_of_string _ |- _ =>
        apply from_prefix_inj in H
    | H : transferToPrefix ++ list_byte_of_string _
          = transferToPrefix ++ list_byte_of_string _ |- _ =>
        apply to_prefix_inj in H
    | H : entry_key _ _ _ = entry_key _ _ _ |- _ =>
        apply entry_key_inj in H as [? ?]
    end.

(** The counter of [A] after the writes of one transfer. *)
Lemma transfer_writes_count (d : side) (A : string) (t : Transfer)
  (sS sR : Z) (m : db.Store) :
  foldl db.apply_write m (transfer_writes t sS sR) !! count_key d A
  = if decide (party d t = A)
    then Some (byteutil.Uint64ToBytes (wrap64 (side_seq d sS sR + 1)))
    else m !! count_key d A.
Proof.
  unfold transfer_writes, count_key. cbn [foldl].
  rewrite !lookup_apply_write. unfold db.target.
  cbn [db.wns db.wkey db.wvalue db.is_WPut].
  destruct d; cbn [prefix_of party side_seq].
  all: repeat case_decide; try discriminate; try reflexivity.
  all: key_facts; congruence.
Qed.

(** The index entry of [A] at sequence [x] after the writes of one
    transfer. *)
Lemma transfer_writes_entry (d : side) (A : string) (x : Z) (t : Transfer)
  (sS sR : Z) (m : db.Store) :
  is_uint64 x -> is_uint64 (side_seq d sS sR) ->
  let K := (blockAddressTransferMappingNS, entry_key (prefix_of d) A x) in
  foldl db.apply_write m (transfer_writes t sS sR) !! K
  = if decide (party d t = A /\ side_seq d sS sR = x)
    then Some (default (Transfer_Hash t) (m !! K))
    else m !! K.
Proof.
  intros Hx Hs K. subst K. unfold transfer_writes. cbn [foldl].
  rewrite !lookup_apply_write. unfold db.target.
  cbn [db.wns db.wkey db.wvalue db.is_WPut].
  destruct d; cbn [prefix_of party side_seq] in *.
  all: repeat case_decide; try discriminate; try reflexivity.
  all: key_facts.
  all: repeat match goal with
         | H : byteutil.Uint64ToBytes _ = byteutil.Uint64ToBytes _ |- _ =>
             apply Uint64ToBytes_inj in H; [|assumption..]
         end.
  all: try tauto.
  all: try (destruct_and?; subst; congruence).
Qed.

Lemma transfer_writes_ok (t : Transfer) (sS sR : Z) :
  Forall transfer_write (transfer_writes t sS sR).
Proof.
  unfold transfer_writes, transfer_write.
  repeat (constructor; [simpl; tauto|]). constructor.
Qed.

(** The loop of [putTransfers], seen from one address [A] on one side:
    [c] is the counter of [A] on disk and the delta of [A] says how many
    entries of [A] were staged before. *)
Lemma putTransfers_loop_side (f : db.Faults) (kv : db.Store) (d : side)
  (A : string) (c : Z) (ts : list Transfer) :
  forall (sd rd : gmap string Z) (batch batch' : list db.write),
  putTransfers_loop f kv ts sd rd batch = Some (batch', None) ->
  count_of d f kv A = Some (c, None) ->
  let n0 := default 0 (side_delta d sd rd !! A) in
  0 <= n0 ->
  c + n0 + Z.of_nat (length (hashes_of d A ts)) < 2 ^ 64 ->
  exists ops,
    batch' = batch ++ ops /\
    Forall transfer_write ops /\
    (forall m : db.Store,
       foldl db.apply_write m ops !! count_key d A
       = if decide (hashes_of d A ts = []) then m !! count_key d A
         else Some (byteutil.Uint64ToBytes
                      (c + n0 + Z.of_nat (length (hashes_of d A ts))))) /\
    (forall (m : db.Store) (i : nat) (h : Hash32B),
       hashes_of d A ts !! i = Some h ->
       let K := (blockAddressTransferMappingNS,
                 entry_key (prefix_of d) A (c + n0 + Z.of_nat i)) in
       foldl db.apply_write m ops !! K = Some (default h (m !! K))).
Proof.
  induction ts as [|t ts IH]; intros sd rd batch batch' H Hc n0 Hn0 Hlt.
  - simpl in H. injection H as <-. exists []. rewrite app_nil_r.
    split; [reflexivity|]. split; [constructor|]. split.
    + intros m. destruct d; reflexivity.
    + intros m i h Hi. destruct d; discriminate.
  - pose proof (count_of_range _ _ _ _ _ _ Hc) as Hcr.
    apply putTransfers_loop_cons_ok in H as (cS & cR & HcS & HcR & H).
    pose proof (count_of_range _ _ _ _ _ _ HcS) as HcSr.
    pose proof (count_of_range _ _ _ _ _ _ HcR) as HcRr.
    set (sS := seq_of cS (sd !! Sender t)) in *.
    set (sR := seq_of cR (rd !! Recipient t)) in *.
    assert (Hsr : is_uint64 (side_seq d sS sR))
      by (destruct d; apply seq_of_range; assumption).
    assert (Hside : side_delta d (bump (Sender t) sd) (bump (Recipient t) rd)
                    = bump (party d t) (side_delta d sd rd))
      by (destruct d; reflexivity).
    assert (Hsq : side_seq d sS sR
                  = seq_of (side_seq d cS cR) (side_delta d sd rd !! party d t))
      by (destruct d; reflexivity).
    assert (Hcd : count_of d f kv (party d t) = Some (side_seq d cS cR, None))
      by (destruct d; assumption).
    rewrite hashes_of_cons in Hlt. rewrite hashes_of_cons.
    specialize (IH _ _ _ _ H Hc). rewrite Hside in IH. cbv zeta in IH.
    destruct (decide (party d t = A)) as [E|E].
    + rewrite E in Hcd, Hsq, IH. rewrite Hc in Hcd. injection Hcd as Hcd.
      rewrite <- Hcd in Hsq. fold n0 in IH.
      simpl length in Hlt. rewrite Nat2Z.inj_succ in Hlt.
      unfold is_uint64 in Hcr.
      rewrite seq_of_small in Hsq by (fold n0; lia). fold n0 in Hsq.
      rewrite bump_same in IH by (fold n0; lia). fold n0 in IH.
      destruct IH as (ops & -> & Hops & Hcnt & Hent); [lia|lia|].
      exists (transfer_writes t sS sR ++ ops).
      split; [rewrite app_assoc; reflexivity|].
      split; [apply Forall_app; split; [apply transfer_writes_ok|exact Hops]|].
      split.
      * intros m. rewrite foldl_app, Hcnt.
        rewrite (decide_False (P := _ :: _ = [])) by discriminate.
        case_decide as Enil.
        -- rewrite transfer_writes_count, decide_True by exact E.
           rewrite Hsq, Enil. simpl length.
           rewrite wrap64_small by (unfold is_uint64; lia).
           do 2 f_equal; lia.
        -- simpl length. rewrite Nat2Z.inj_succ. do 2 f_equal; lia.
      * intros m [|i] h Hi K; subst K; simpl in Hi.
        -- injection Hi as <-. rewrite foldl_app.
           apply lookup_apply_kept.
           ++ rewrite Z.add_0_r.
              rewrite transfer_writes_entry, decide_True;
                [reflexivity|split; [exact E|exact Hsq]
                |unfold is_uint64; lia|exact Hsr].
           ++ eapply Forall_impl; [exact Hops|].
              intros w [[_ Ew]|[Ew _]] Hw; [congruence|].
              intros Et. apply pair_equal_spec in Et as [Et _].
              rewrite Ew in Et. discriminate.
        -- apply lookup_lt_Some in Hi as Hi'.
           rewrite foldl_app.
           replace (c + n0 + Z.of_nat (S i)) with (c + (n0 + 1) + Z.of_nat i) by lia.
           rewrite (Hent _ i h Hi).
           rewrite transfer_writes_entry, decide_False;
             [reflexivity|intros [_ Ex]; lia|unfold is_uint64; lia|exact Hsr].
    + rewrite bump_other in IH by exact E. fold n0 in IH.
      destruct IH as (ops & -> & Hops & Hcnt & Hent); [exact Hn0|exact Hlt|].
      exists (transfer_writes t sS sR ++ ops).
      split; [rewrite app_assoc; reflexivity|].
      split; [apply Forall_app; split; [apply transfer_writes_ok|exact Hops]|].
      split.
      * intros m. rewrite foldl_app, Hcnt.
        rewrite transfer_writes_count.
        rewrite (decide_False (P := party d t = A)) by exact E. reflexivity.
      * intros m i h Hi K; subst K.
        apply lookup_lt_Some in Hi as Hi'. unfold is_uint64 in Hcr.
        rewrite foldl_app, (Hent _ i h Hi).
        rewrite transfer_writes_entry, decide_False;
          [reflexivity|intros [Ex _]; exact (E Ex)|unfold is_uint64; lia|exact Hsr].
Qed.

Lemma block_writes_other_ns (kv : db.Store) (blk : Block)
  (serialized : list byte) (top tt tv : Z) (ns : string) (key : list byte) :
  ns <> blockNS -> ns <> blockHashHeightMappingNS ->
  ns <> blockTransferBlockMappingNS -> ns <> blockVoteBlockMappingNS ->
  foldl db.apply_write kv (block_writes blk serialized top tt tv) !! (ns, key)
  = kv !! (ns, key).
Proof.
  intros H1 H2 H3 H4. apply lookup_apply_other_ns.
  unfold block_writes. rewrite !Forall_app.
  repeat split.
  - repeat (constructor; [simpl; congruence|]). constructor.
  - destruct (Height blk >? top); repeat constructor. simpl. congruence.
  - repeat (constructor; [simpl; congruence|]). constructor.
  - apply Forall_fmap, Forall_true. intros t. simpl. congruence.
  - apply Forall_fmap, Forall_true. intros v. simpl. congruence.
Qed.

Section Index.

Variable GetAddress : list byte -> string * error.

(** C5. A successful [putBlock] appends the transfers of an address at
    the sequence numbers that follow its counter. [c] is the counter of
    [A] as [putBlock] reads it from the disk (the stored value, or zero
    when there is none) and [hs] are the hashes of the [k] transfers of
    the block that [A] sends (respectively receives), in block order.
    Afterwards the stored counter is [c + k]; the entries at [c], [c + 1],
    ..., [c + k - 1] are distinct keys and hold [hs], each by a conditional
    insert; and a reader finds the counter [c + k]. *)
Theorem per_address_append (f : db.Faults) (kv kv' : db.Store) (blk : Block)
  (d : side) (A : string) (c : Z) :
  putBlock GetAddress f kv blk = Some (kv', None) ->
  count_of d f kv A = Some (c, None) ->
  let hs := hashes_of d A (Transfers blk) in
  let k := Z.of_nat (length hs) in
  let K i := (blockAddressTransferMappingNS,
              entry_key (prefix_of d) A (c + Z.of_nat i)) in
  hs <> [] ->
  c + k < 2 ^ 64 ->
  kv' !! count_key d A = Some (byteutil.Uint64ToBytes (c + k)) /\
  (forall f', reads_work f' -> count_of d f' kv' A = Some (c + k, None)) /\
  (forall i h, hs !! i = Some h -> kv' !! K i = Some (default h (kv !! K i))) /\
  (forall i j, (i < length hs)%nat -> (j < length hs)%nat -> K i = K j -> i = j).
Proof.
  intros Hput Hc hs k K Hne Hlt.
  pose proof (count_of_range _ _ _ _ _ _ Hc) as Hcr. unfold is_uint64 in Hcr.
  apply putBlock_ok_inv in Hput
    as (ser & vtop & top & vtt & tt & vtv & tv & batch & tops & vops
        & _ & _ & _ & _ & _ & _ & _ & -> & HL & _ & HV & ->).
  assert (Hn0 : default 0 (side_delta d (∅ : gmap string Z) ∅ !! A) = 0)
    by (destruct d; simpl; rewrite lookup_empty; reflexivity).
  pose proof Hlt as Hlt'. unfold k, hs in Hlt'.
  destruct (putTransfers_loop_side f kv d A c _ _ _ _ _ HL Hc)
    as (ops & Eops & _ & Hcnt & Hent).
  { rewrite Hn0. lia. }
  { rewrite Hn0. lia. }
  apply app_inv_head in Eops. subst ops.
  rewrite Hn0, Z.add_0_r in Hcnt.
  assert (Hvotes : forall key ns,
             ns = blockAddressTransferMappingNS \/
             ns = blockAddressTransferCountMappingNS ->
             forall m : db.Store,
             foldl db.apply_write m vops !! (ns, key) = m !! (ns, key)).
  { intros key ns Hns m. apply lookup_apply_other_ns.
    eapply Forall_impl; [exact HV|].
    intros w [E|E]; rewrite E; destruct Hns as [-> | ->]; discriminate. }
  assert (Lcnt : foldl db.apply_write kv
                   (block_writes blk ser top tt tv ++ tops ++ vops)
                 !! count_key d A = Some (byteutil.Uint64ToBytes (c + k))).
  { rewrite !foldl_app. unfold count_key.
    rewrite Hvotes by (right; reflexivity).
    rewrite Hcnt, decide_False by exact Hne. reflexivity. }
  split; [exact Lcnt|]. split; [|split].
  - intros f' Hf'. unfold count_key in Lcnt.
    destruct d; cbn [count_of prefix_of] in *;
      [unfold getTransferCountBySenderAddress
      |unfold getTransferCountByRecipientAddress].
    all: rewrite (Get_lookup _ _ _ _ _ (Hf' _ _) Lcnt).
    all: rewrite length_Uint64ToBytes, Uint64_Uint64ToBytes.
    all: rewrite wrap64_small by (unfold is_uint64; lia).
    all: reflexivity.
  - intros i h Hi. subst K. cbv beta.
    rewrite !foldl_app. rewrite Hvotes by (left; reflexivity).
    specialize (Hent (foldl db.apply_write kv (block_writes blk ser top tt tv))
                  i h Hi).
    rewrite Hn0, Z.add_0_r in Hent. cbv zeta in Hent. rewrite Hent.
    rewrite block_writes_other_ns by discriminate. reflexivity.
  - intros i j Hi Hj E. subst K. cbv beta in E.
    apply pair_equal_spec in E as [_ E].
    apply entry_key_inj in E as [_ E].
    apply Uint64ToBytes_inj in E; unfold is_uint64; subst k; lia.
Qed.

End Index.

(** ** Enumeration of the transfers of an address *)

(** The loop when every entry of the range is accepted. *)
Lemma getTransfersByAddress_loop_ok (f : db.Faults) (kv : db.Store)
  (A : string) (p : list byte) (n : nat) :
  forall (i : Z) (res : list Hash32B),
  0 <= i -> i + Z.of_nat n < 2 ^ 64 ->
  forallb entry_ok (transfer_entry f kv p A <$> seqZ i (Z.of_nat n)) = true ->
  getTransfersByAddress_loop f kv A p n i res
  = (res ++ (as_hash <$> (transfer_entry f kv p A <$> seqZ i (Z.of_nat n))), None).
Proof.
  induction n as [|n IH]; intros i res Hi Hlt Hall.
  - simpl. rewrite app_nil_r. reflexivity.
  - rewrite Nat2Z.inj_succ in *.
    rewrite seqZ_cons in * by lia. rewrite Z.pred_succ in *.
    rewrite fmap_cons in *. simpl forallb in Hall.
    apply andb_true_iff in Hall as [Hhd Htl].
    simpl. fold (entry_key p A i). fold (transfer_entry f kv p A i).
    destruct (transfer_entry f kv p A i) as [value [e|]] eqn:E;
      [discriminate|].
    simpl in Hhd. destruct (length value =? 0)%nat; [discriminate|].
    rewrite wrap64_small by (unfold is_uint64; lia).
    rewrite IH by (first [lia|exact Htl]).
    rewrite <- app_assoc. reflexivity.
Qed.

(** The loop when some entry of the range is refused: an error, whose
    cause is [ErrNotExist] when the reads work. *)
Lemma getTransfersByAddress_loop_err (f : db.Faults) (kv : db.Store)
  (A : string) (p : list byte) (n : nat) :
  forall (i : Z) (res : list Hash32B),
  0 <= i -> i + Z.of_nat n < 2 ^ 64 ->
  forallb entry_ok (transfer_entry f kv p A <$> seqZ i (Z.of_nat n)) = false ->
  exists res' e,
    getTransfersByAddress_loop f kv A p n i res = (res', Some e) /\
    (reads_work f -> errors.Cause e = ErrNotExist).
Proof.
  induction n as [|n IH]; intros i res Hi Hlt Hall.
  - discriminate.
  - rewrite Nat2Z.inj_succ in *.
    rewrite seqZ_cons in * by lia. rewrite Z.pred_succ in *.
    rewrite fmap_cons in *. simpl forallb in Hall.
    simpl. fold (entry_key p A i). fold (transfer_entry f kv p A i).
    destruct (transfer_entry f kv p A i) as [value [e|]] eqn:E.
    + eexists _, _. split; [reflexivity|]. intros Hf. simpl.
      unfold transfer_entry, db.Get in E. rewrite Hf in E.
      destruct (kv !! _); [discriminate|]. injection E as <- <-. reflexivity.
    + simpl in Hall. destruct (length value =? 0)%nat.
      * eexists _, _. split; reflexivity.
      * rewrite wrap64_small by (unfold is_uint64; lia).
        apply IH; first [lia|exact Hall].
Qed.

(** C9, as stated, fails. The counter of "A" is one and its entry at
    sequence 0 is seven bytes long: the enumeration succeeds and returns
    the seven bytes padded with zeros. *)
Lemma short_entry_counterexample :
  Scenario.short_entry
    !! (blockAddressTransferMappingNS, entry_key transferFromPrefix "A" 0)
  = Some (replicate 7 ("x"%byte)) /\
  getTransfersBySenderAddress db.healthy Scenario.short_entry "A"
  = Some ([replicate 7 ("x"%byte) ++ replicate 25 Byte.x00], None).
Proof. split; reflexivity. Qed.

(** C9, amended. When the stored counter of [A] is [c], the enumeration
    reads the entries at the sequences 0 to [c - 1]. If each is read
    without error and is not empty, the result is the list of these [c]
    values in the order of their sequence numbers, each copied into a
    32-byte hash (a shorter value is padded with zeros, a longer one cut).
    If one of them is missing or empty, the call fails, with the nil list
    and an error whose cause is [db.ErrNotExist] when the reads work. *)
Theorem enumeration_by_counter (f : db.Faults) (kv : db.Store) (d : side)
  (A : string) (c : Z) :
  is_uint64 c ->
  db.Get f kv blockAddressTransferCountMappingNS
    (prefix_of d ++ list_byte_of_string A)
  = (byteutil.Uint64ToBytes c, None) ->
  let entries := transfer_entry f kv (prefix_of d) A <$> seqZ 0 c in
  (forallb entry_ok entries = true ->
   transfers_of d f kv A = Some (as_hash <$> entries, None) /\
   Z.of_nat (length (as_hash <$> entries)) = c /\
   Forall (fun h => length h = 32%nat) (as_hash <$> entries)) /\
  (forallb entry_ok entries = false ->
   exists e, transfers_of d f kv A = Some ([], Some e) /\
             (reads_work f -> errors.Cause e = ErrNotExist)).
Proof.
  intros Hc Hget entries.
  pose proof (count_of_stored d f kv A c Hc Hget) as Hcount.
  assert (Hn : Z.of_nat (Z.to_nat c) = c) by (unfold is_uint64 in Hc; lia).
  unfold is_uint64 in Hc.
  split.
  - intros Hall. split; [|split].
    + pose proof (getTransfersByAddress_loop_ok f kv A (prefix_of d)
                    (Z.to_nat c) 0 [] ltac:(lia) ltac:(lia)) as Hloop.
      rewrite Hn in Hloop. specialize (Hloop Hall). simpl in Hloop.
      destruct d; cbn [prefix_of count_of transfers_of] in *;
        [unfold getTransfersBySenderAddress
        |unfold getTransfersByRecipientAddress].
      all: rewrite Hcount; simpl.
      all: unfold getTransfersByAddress; rewrite Hloop; reflexivity.
    + unfold entries. rewrite !length_fmap, length_seqZ. lia.
    + apply Forall_fmap, Forall_true. intros r.
      exact (length_copy hash.ZeroHash32B (fst r)).
  - intros Hall.
    destruct (getTransfersByAddress_loop_err f kv A (prefix_of d)
                (Z.to_nat c) 0 [] ltac:(lia) ltac:(lia)
                ltac:(rewrite Hn; exact Hall))
      as (res' & e & Hloop & Hcause).
    exists e. split; [|exact Hcause].
    destruct d; cbn [prefix_of count_of transfers_of] in *;
      [unfold getTransfersBySenderAddress
      |unfold getTransfersByRecipientAddress].
    all: rewrite Hcount; simpl.
    all: unfold getTransfersByAddress; rewrite Hloop; reflexivity.
Qed.

(** ** The scenario, evaluated *)

Lemma fresh_started : Start db.healthy ∅ = (Scenario.fresh, None).
Proof.
  unfold Scenario.fresh.
  assert (H : snd (Start db.healthy ∅) = None) by (vm_compute; reflexivity).
  destruct (Start db.healthy ∅) as [kv e]. simpl in *. rewrite H. reflexivity.
Qed.

Lemma after_ok (kv : db.Store) (blk : Block) :
  snd <$> putBlock Scenario.GetAddress db.healthy kv blk = Some None ->
  putBlock Scenario.GetAddress db.healthy kv blk
  = Some (Scenario.after kv blk, None).
Proof.
  unfold Scenario.after.
  destruct (putBlock Scenario.GetAddress db.healthy kv blk) as [[kv' e]|];
    simpl; [|discriminate].
  intros [= ->]. reflexivity.
Qed.

(** Any successful [putBlock] adds the transfers and votes of the block to
    the totals, whether the block is stored already or not. *)
Lemma putBlock_bumps_totals (GetAddress : list byte -> string * error)
  (f f' : db.Faults) (kv kv' : db.Store) (blk : Block) (tt tv : Z) :
  reads_work f' ->
  putBlock GetAddress f kv blk = Some (kv', None) ->
  getTotalTransfers f' kv = Some (tt, None) ->
  getTotalVotes f' kv = Some (tv, None) ->
  getTotalTransfers f' kv'
  = Some (wrap64 (tt + Z.of_nat (length (Transfers blk))), None) /\
  getTotalVotes f' kv'
  = Some (wrap64 (tv + Z.of_nat (length (Votes blk))), None).
Proof.
  intros Hf Hput Htt Htv.
  apply putBlock_singletons in Hput
    as (vtop & top' & vtt & tt' & vtv & tv'
        & _ & _ & Ltt & Dtt & Ltv & Dtv & _ & Ntt & Ntv).
  unfold getTotalTransfers in Htt. unfold getTotalVotes in Htv.
  rewrite (Get_lookup _ _ _ _ _ (Hf _ _) Ltt) in Htt.
  rewrite (Get_lookup _ _ _ _ _ (Hf _ _) Ltv) in Htv.
  destruct (length vtt =? 0)%nat; [discriminate|].
  destruct (length vtv =? 0)%nat; [discriminate|].
  rewrite Dtt in Htt. rewrite Dtv in Htv. simpl in Htt, Htv.
  injection Htt as ->. injection Htv as ->.
  split.
  - apply (read_singletons f' kv'); [exact Hf|apply wrap64_range|exact Ntt].
  - apply (read_singletons f' kv'); [exact Hf|apply wrap64_range|exact Ntv].
Qed.

(** C1. Putting the block of height 5 twice on a freshly started store:
    both calls succeed and the payload stays as it is, but the second call
    counts the two transfers and the vote of the block again and appends
    the two transfers of "A" again, at the sequences 2 and 3. *)
Theorem putBlock_twice_counts_twice :
  let kv1 := Scenario.after Scenario.fresh Scenario.B5 in
  let kv2 := Scenario.after kv1 Scenario.B5 in
  snd <$> putBlock Scenario.GetAddress db.healthy Scenario.fresh Scenario.B5
  = Some None /\
  snd <$> putBlock Scenario.GetAddress db.healthy kv1 Scenario.B5 = Some None /\
  kv1 !! (blockNS, HashBlock Scenario.B5) = Some (fst (Serialize Scenario.B5)) /\
  kv2 !! (blockNS, HashBlock Scenario.B5) = Some (fst (Serialize Scenario.B5)) /\
  getTotalTransfers db.healthy kv1 = Some (2, None) /\
  getTotalTransfers db.healthy kv2 = Some (4, None) /\
  getTotalVotes db.healthy kv1 = Some (1, None) /\
  getTotalVotes db.healthy kv2 = Some (2, None) /\
  getTransferCountBySenderAddress db.healthy kv1 "A" = Some (2, None) /\
  getTransferCountBySenderAddress db.healthy kv2 "A" = Some (4, None) /\
  getVoteCountBySenderAddress db.healthy kv1 "A" = Some (1, None) /\
  getVoteCountBySenderAddress db.healthy kv2 "A" = Some (2, None) /\
  getTransfersBySenderAddress db.healthy kv1 "A"
  = Some ([Scenario.h32 "a"; Scenario.h32 "b"], None) /\
  getTransfersBySenderAddress db.healthy kv2 "A"
  = Some ([Scenario.h32 "a"; Scenario.h32 "b";
           Scenario.h32 "a"; Scenario.h32 "b"], None).
Proof. cbv zeta. repeat split; vm_compute; reflexivity. Qed.

(** The contract of the store leaves a backend free to reject a batch. One
    that rejects a batch whose conditional insert collides accepts the
    first call and refuses the second as a whole. *)
Lemma strict_backend_refuses_reput :
  snd <$> putBlock Scenario.GetAddress Scenario.strict Scenario.fresh Scenario.B5
  = Some None /\
  snd <$> putBlock Scenario.GetAddress Scenario.strict
            (Scenario.after Scenario.fresh Scenario.B5) Scenario.B5
  = Some (Some (ErrBackend "conditional insert collides")).
Proof. split; vm_compute; reflexivity. Qed.

(** ** Witnesses *)

Lemma putBlock_atomic_witness :
  exists e,
    putBlock Scenario.GetAddress Scenario.commit_rejected Scenario.fresh
      Scenario.B5
    = Some (Scenario.fresh, Some e).
Proof.
  destruct (putBlock Scenario.GetAddress Scenario.commit_rejected
              Scenario.fresh Scenario.B5) as [[kv' err]|] eqn:E.
  - destruct (putBlock_atomic Scenario.GetAddress _ _ _ _ _ E) as [H1 H2].
    destruct (H2 (fun _ _ => ex_intro _ "commit"%string eq_refl)) as [e ->].
    rewrite (H1 (ex_intro _ e eq_refl)). exists e. reflexivity.
  - assert (H : (fun _ => tt) <$>
                putBlock Scenario.GetAddress Scenario.commit_rejected
                  Scenario.fresh Scenario.B5 = Some tt)
      by (vm_compute; reflexivity).
    rewrite E in H. discriminate H.
Defined.

Lemma totals_are_sums_witness :
  let kv := Scenario.after (Scenario.after Scenario.fresh Scenario.B5)
              Scenario.B3 in
  getTotalTransfers db.healthy kv = Some (3, None) /\
  getTotalVotes db.healthy kv = Some (1, None).
Proof.
  cbv zeta.
  refine (totals_are_sums Scenario.GetAddress db.healthy db.healthy
            Scenario.fresh _ [Scenario.B5; Scenario.B3] fresh_started _ _ _ _).
  - eapply put_seq_cons; [apply after_ok; vm_compute; reflexivity|].
    eapply put_seq_cons; [apply after_ok; vm_compute; reflexivity|].
    apply put_seq_nil.
  - vm_compute. reflexivity.
  - vm_compute. reflexivity.
  - intros ns key. reflexivity.
Defined.

Lemma top_height_is_max_witness :
  let kv1 := Scenario.after Scenario.fresh Scenario.B5 in
  let kv2 := Scenario.after kv1 Scenario.B3 in
  getBlockchainHeight db.healthy kv2 = Some (5, None) /\
  getBlockHeight db.healthy kv2 (HashBlock Scenario.B3) = Some (3, None) /\
  getBlockHash db.healthy kv2 3 = (HashBlock Scenario.B3, None).
Proof.
  cbv zeta.
  destruct (top_height_is_max Scenario.GetAddress) as [Hmax Hstep].
  assert (Hw : reads_work db.healthy) by (intros ns key; reflexivity).
  assert (H1 : putBlock Scenario.GetAddress db.healthy Scenario.fresh Scenario.B5
               = Some (Scenario.after Scenario.fresh Scenario.B5, None))
    by (apply after_ok; vm_compute; reflexivity).
  assert (H2 : putBlock Scenario.GetAddress db.healthy
                 (Scenario.after Scenario.fresh Scenario.B5) Scenario.B3
               = Some (Scenario.after
                         (Scenario.after Scenario.fresh Scenario.B5)
                         Scenario.B3, None))
    by (apply after_ok; vm_compute; reflexivity).
  split.
  - refine (Hmax db.healthy db.healthy Scenario.fresh _
              [Scenario.B5; Scenario.B3] fresh_started _ _ Hw).
    + eapply put_seq_cons; [exact H1|].
      eapply put_seq_cons; [exact H2|]. apply put_seq_nil.
    + repeat constructor; vm_compute; intros [=].
  - refine (proj2 (proj2 (proj2 (Hstep db.healthy db.healthy _ _ Scenario.B3 5
                                   Hw _ H2 _ _)))).
    + vm_compute. reflexivity.
    + split; vm_compute; [intros [=]|reflexivity].
    + reflexivity.
Defined.

Lemma per_address_append_witness :
  let kv' := Scenario.after Scenario.fresh Scenario.B5 in
  sent_by "A" (Transfers Scenario.B5) = [Scenario.h32 "a"; Scenario.h32 "b"] /\
  kv' !! count_key AsSender "A" = Some (byteutil.Uint64ToBytes 2) /\
  getTransferCountBySenderAddress db.healthy kv' "A" = Some (2, None) /\
  kv' !! (blockAddressTransferMappingNS, entry_key transferFromPrefix "A" 0)
  = Some (Scenario.h32 "a") /\
  kv' !! (blockAddressTransferMappingNS, entry_key transferFromPrefix "A" 1)
  = Some (Scenario.h32 "b").
Proof.
  cbv zeta. split; [reflexivity|].
  assert (H1 : putBlock Scenario.GetAddress db.healthy Scenario.fresh Scenario.B5
               = Some (Scenario.after Scenario.fresh Scenario.B5, None))
    by (apply after_ok; vm_compute; reflexivity).
  assert (Hc : count_of AsSender db.healthy Scenario.fresh "A" = Some (0, None))
    by reflexivity.
  destruct (per_address_append Scenario.GetAddress _ _ _ _ AsSender "A" 0 H1 Hc)
    as (Hcnt & Hread & Hent & _).
  { discriminate. }
  { vm_compute. reflexivity. }
  split; [exact Hcnt|].
  split; [apply (Hread db.healthy); intros ns key; reflexivity|].
  split.
  - refine (eq_trans (Hent 0%nat (Scenario.h32 "a") eq_refl) _).
    vm_compute. reflexivity.
  - refine (eq_trans (Hent 1%nat (Scenario.h32 "b") eq_refl) _).
    vm_compute. reflexivity.
Defined.

Lemma enumeration_by_counter_witness :
  transfers_of AsSender db.healthy Scenario.short_entry "A"
  = Some ([replicate 7 ("x"%byte) ++ replicate 25 Byte.x00], None) /\
  exists e,
    transfers_of AsSender db.healthy Scenario.gap "G" = Some ([], Some e) /\
    errors.Cause e = ErrNotExist.
Proof.
  assert (Hw : reads_work db.healthy) by (intros ns key; reflexivity).
  assert (H1 : is_uint64 1) by (unfold is_uint64; lia).
  assert (H2 : is_uint64 2) by (unfold is_uint64; lia).
  split.
  - apply (enumeration_by_counter db.healthy Scenario.short_entry AsSender "A" 1
             H1 eq_refl). reflexivity.
  - destruct (enumeration_by_counter db.healthy Scenario.gap AsSender "G" 2
                H2 eq_refl) as [_ Herr].
    destruct (Herr eq_refl) as (e & He & Hcause).
    exists e. split; [exact He|exact (Hcause Hw)].
Defined.

Lemma enumerations_nil_on_error_witness :
  fst (getTransfersByAddress db.healthy Scenario.gap "G" 2 transferFromPrefix)
  = [Scenario.h32 "g"] /\
  exists res e,
    getTransfersBySenderAddress db.healthy Scenario.gap "G" = Some (res, Some e) /\
    res = [].
Proof.
  split; [reflexivity|].
  destruct (getTransfersBySenderAddress db.healthy Scenario.gap "G")
    as [[res [e|]]|] eqn:E.
  - exists res, e. split; [reflexivity|].
    exact (proj1 (enumerations_nil_on_error db.healthy Scenario.gap "G" res e) E).
  - assert (H : snd <$> getTransfersBySenderAddress db.healthy Scenario.gap "G"
                <> Some None) by (vm_compute; intros [=]).
    rewrite E in H. destruct (H eq_refl).
  - assert (H : snd <$> getTransfersBySenderAddress db.healthy Scenario.gap "G"
                <> None) by (vm_compute; intros [=]).
    rewrite E in H. destruct (H eq_refl).
Defined.

(** * Further properties *)

(** ** Tools *)

Lemma Get_ext (f : db.Faults) (kv kv' : db.Store) ns key :
  kv' !! (ns, key) = kv !! (ns, key) -> db.Get f kv' ns key = db.Get f kv ns key.
Proof. intros E. unfold db.Get. rewrite E. reflexivity. Qed.

Lemma Get_vacant (f : db.Faults) (kv : db.Store) ns key :
  reads_work f -> vacant kv (ns, key) ->
  db.Get f kv ns key = ([], Some ErrNotExist) \/ db.Get f kv ns key = ([], None).
Proof.
  intros Hf [E|E]; unfold db.Get; rewrite Hf, E; [left|right]; reflexivity.
Qed.

(** A key that holds a value holds one after any batch. *)
Lemma lookup_apply_present (ops : list db.write) :
  forall (kv : db.Store) (K : string * list byte),
  is_Some (kv !! K) -> is_Some (foldl db.apply_write kv ops !! K).
Proof.
  induction ops as [|w ops IH]; intros kv K HK; [exact HK|].
  simpl. apply IH. rewrite lookup_apply_write.
  case_decide; [eexists; reflexivity|exact HK].
Qed.

(** When every write aimed at [K] is an overwrite with [v] and there is
    one, [K] holds [v] after the batch. *)
Lemma lookup_apply_all_put (ops : list db.write) (K : string * list byte)
  (v : list byte) :
  Forall (fun w => db.target w = K -> db.is_WPut w = true /\ db.wvalue w = v) ops ->
  forall kv : db.Store,
  kv !! K = Some v \/ Exists (fun w => db.target w = K) ops ->
  foldl db.apply_write kv ops !! K = Some v.
Proof.
  induction 1 as [|w ops Hw Hall IH]; intros kv Hk.
  - destruct Hk as [Hk|Hk]; [exact Hk|inversion Hk].
  - simpl. apply IH. rewrite lookup_apply_write.
    destruct (decide (db.target w = K)) as [E|E].
    + left. destruct (Hw E) as [-> ->]. reflexivity.
    + destruct Hk as [Hk|Hk]; [left; exact Hk|].
      apply Exists_cons in Hk as [Hk|Hk]; [destruct (E Hk)|right; exact Hk].
Qed.

Lemma Start_top_present (f : db.Faults) (kv kv1 : db.Store) :
  Start f kv = (kv1, None) -> is_Some (kv1 !! (blockNS, topHeightKey)).
Proof.
  unfold Start, db.PutIfNotExists.
  destruct (db.OnStart_fails f); [discriminate|]. cbn [fmap option_fmap option_map].
  destruct (db.PutIfNotExists_fails f blockNS topHeightKey); [discriminate|].
  destruct (kv !! (blockNS, topHeightKey)) as [v|] eqn:E.
  - intros [= <-]. rewrite E. eexists; reflexivity.
  - destruct (db.PutIfNotExists_fails f blockNS totalTransfersKey); [discriminate|].
    destruct (_ !! (blockNS, totalTransfersKey)); [discriminate|].
    destruct (db.PutIfNotExists_fails f blockNS totalVotesKey); [discriminate|].
    destruct (_ !! (blockNS, totalVotesKey)); [discriminate|].
    intros [= <-]. rewrite !lookup_insert_ne by (intros [=]).
    rewrite lookup_insert_eq. eexists; reflexivity.
Qed.

Lemma PutIfNotExists_keeps (f : db.Faults) (kv : db.Store) ns key value
  (K : string * list byte) (v : list byte) :
  kv !! K = Some v -> fst (db.PutIfNotExists f kv ns key value) !! K = Some v.
Proof.
  intros HK. unfold db.PutIfNotExists.
  destruct (db.PutIfNotExists_fails f ns key); [exact HK|].
  destruct (kv !! (ns, key)) eqn:E; [exact HK|]. simpl.
  rewrite lookup_insert_ne; [exact HK|]. intros <-. congruence.
Qed.

(** ** Start *)

(** X1. [Start] never changes a value the store holds, and starting a
    started store again is a success that changes nothing. *)
Theorem Start_again (f f' : db.Faults) (kv kv1 : db.Store) :
  (forall K v, kv !! K = Some v -> fst (Start f kv) !! K = Some v) /\
  (Start f kv = (kv1, None) ->
   db.OnStart_fails f' = None ->
   db.PutIfNotExists_fails f' blockNS topHeightKey = None ->
   Start f' kv1 = (kv1, None)).
Proof.
  split.
  - intros K v HK. unfold Start.
    destruct (db.OnStart_fails f); [exact HK|]. cbn [fmap option_fmap option_map].
    pose proof (PutIfNotExists_keeps f kv blockNS topHeightKey (make_bytes 8) K v HK)
      as H1.
    destruct (db.PutIfNotExists f kv blockNS topHeightKey (make_bytes 8))
      as [m1 [e1|]]; [destruct e1; exact H1|].
    simpl in H1.
    pose proof (PutIfNotExists_keeps f m1 blockNS totalTransfersKey (make_bytes 8)
                  K v H1) as H2.
    destruct (db.PutIfNotExists f m1 blockNS totalTransfersKey (make_bytes 8))
      as [m2 [e2|]]; [exact H2|].
    simpl in H2.
    pose proof (PutIfNotExists_keeps f m2 blockNS totalVotesKey (make_bytes 8)
                  K v H2) as H3.
    destruct (db.PutIfNotExists f m2 blockNS totalVotesKey (make_bytes 8))
      as [m3 [e3|]]; exact H3.
  - intros HS Hstart Hput. apply Start_top_present in HS as [v Hv].
    unfold Start, db.PutIfNotExists. rewrite Hstart, Hput, Hv. reflexivity.
Qed.

Lemma Start_again_witness :
  Start db.healthy Scenario.fresh = (Scenario.fresh, None).
Proof.
  exact (proj2 (Start_again db.healthy db.healthy ∅ Scenario.fresh)
           fresh_started eq_refl eq_refl).
Defined.

(** ** Lookups of keys that hold nothing *)

Section Lookups.

Variable Deserialize : list byte -> Block * error.

(** X2. With reads that work, a point lookup of a key that is absent or
    holds an empty value fails with an error whose cause is
    [db.ErrNotExist] and returns the zero value: the height of a hash, the
    block of a transfer or vote hash, a block, and the three singleton
    counters. *)
Theorem lookups_of_vacant_keys (f : db.Faults) (kv : db.Store) (h : Hash32B) :
  reads_work f ->
  (vacant kv (blockHashHeightMappingNS, hashPrefix ++ h) ->
   exists e, getBlockHeight f kv h = Some (0, Some e) /\
             errors.Cause e = ErrNotExist) /\
  (vacant kv (blockTransferBlockMappingNS, transferPrefix ++ h) ->
   exists e, getBlockHashByTransferHash f kv h = (hash.ZeroHash32B, Some e) /\
             errors.Cause e = ErrNotExist) /\
  (vacant kv (blockVoteBlockMappingNS, votePrefix ++ h) ->
   exists e, getBlockHashByVoteHash f kv h = (hash.ZeroHash32B, Some e) /\
             errors.Cause e = ErrNotExist) /\
  (vacant kv (blockNS, h) ->
   exists e, getBlock Deserialize f kv h = (None, Some e) /\
             errors.Cause e = ErrNotExist) /\
  (vacant kv (blockNS, topHeightKey) ->
   exists e, getBlockchainHeight f kv = Some (0, Some e) /\
             errors.Cause e = ErrNotExist) /\
  (vacant kv (blockNS, totalTransfersKey) ->
   exists e, getTotalTransfers f kv = Some (0, Some e) /\
             errors.Cause e = ErrNotExist) /\
  (vacant kv (blockNS, totalVotesKey) ->
   exists e, getTotalVotes f kv = Some (0, Some e) /\
             errors.Cause e = ErrNotExist).
Proof.
  intros Hf.
  repeat split; intros Hv; destruct (Get_vacant f kv _ _ Hf Hv) as [E|E];
    [unfold getBlockHeight|unfold getBlockHeight
    |unfold getBlockHashByTransferHash|unfold getBlockHashByTransferHash
    |unfold getBlockHashByVoteHash|unfold getBlockHashByVoteHash
    |unfold getBlock|unfold getBlock
    |unfold getBlockchainHeight|unfold getBlockchainHeight
    |unfold getTotalTransfers|unfold getTotalTransfers
    |unfold getTotalVotes|unfold getTotalVotes].
  all: rewrite E; eexists; split; reflexivity.
Qed.

End Lookups.

Lemma lookups_of_vacant_keys_witness :
  exists e,
    getBlock Scenario.Deserialize db.healthy Scenario.fresh
      (HashBlock Scenario.B5) = (None, Some e) /\
    errors.Cause e = ErrNotExist.
Proof.
  refine (proj1 (proj2 (proj2 (proj2
            (lookups_of_vacant_keys Scenario.Deserialize db.healthy Scenario.fresh
               (HashBlock Scenario.B5) _)))) _).
  - intros ns key. reflexivity.
  - left. vm_compute. reflexivity.
Defined.

(** ** The append loop over a schema *)

Section SchemaFacts.

Variable sc : Schema.
Hypothesis HS : schema_ok sc.

Lemma s_count_of_range (d : side) (f : db.Faults) (kv : db.Store) (A : string)
  (c : Z) (err : error) :
  s_count_of sc d f kv A = Some (c, err) -> is_uint64 c.
Proof.
  assert (H0 : is_uint64 0) by (unfold is_uint64; lia).
  unfold s_count_of.
  destruct (db.Get _ _ _ _) as [value [e|]]; [intros [= <- _]; exact H0|].
  destruct (length value =? 0)%nat; [intros [= <- _]; exact H0|].
  intros H; apply bind_Some in H as (z & Hz & [= <- _]).
  exact (Uint64_range _ _ Hz).
Qed.

Lemma s_count_of_stored (d : side) (f : db.Faults) (kv : db.Store) (A : string)
  (c : Z) :
  is_uint64 c ->
  db.Get_fails f (countNS sc) (s_prefix sc d ++ list_byte_of_string A) = None ->
  kv !! s_count_key sc d A = Some (byteutil.Uint64ToBytes c) ->
  s_count_of sc d f kv A = Some (c, None).
Proof.
  intros Hc Hf Hl. unfold s_count_of.
  rewrite (Get_lookup _ _ _ _ _ Hf Hl).
  rewrite length_Uint64ToBytes, Uint64_Uint64ToBytes, wrap64_small by exact Hc.
  reflexivity.
Qed.

Lemma s_count_of_absent (d : side) (f : db.Faults) (kv : db.Store) (A : string) :
  db.Get_fails f (countNS sc) (s_prefix sc d ++ list_byte_of_string A) = None ->
  kv !! s_count_key sc d A = None ->
  s_count_of sc d f kv A = Some (0, None).
Proof.
  intros Hf Hl. unfold s_count_of. rewrite (Get_missing _ _ _ _ Hf Hl). reflexivity.
Qed.

Lemma s_count_of_fault (d : side) (f : db.Faults) (kv : db.Store) (A : string)
  (what : string) :
  db.Get_fails f (countNS sc) (s_prefix sc d ++ list_byte_of_string A) = Some what ->
  s_count_of sc d f kv A = Some (0, None).
Proof. intros Hf. unfold s_count_of. rewrite (Get_fault _ _ _ _ _ Hf). reflexivity. Qed.

Lemma s_prefix_inj (d d' : side) (A B : string) :
  s_prefix sc d ++ list_byte_of_string A = s_prefix sc d' ++ list_byte_of_string B ->
  d = d' /\ A = B.
Proof.
  destruct HS as [_ Hdis].
  destruct d, d'; simpl; intros E.
  - apply app_inv_head, list_byte_of_string_inj in E. auto.
  - destruct (Hdis _ _ E).
  - symmetry in E. destruct (Hdis _ _ E).
  - apply app_inv_head, list_byte_of_string_inj in E. auto.
Qed.

(** No two places of the index share a key. *)
Lemma s_entry_key_inj (d d' : side) (A B : string) (x y : Z) :
  is_uint64 x -> is_uint64 y ->
  s_entry_key sc d A x = s_entry_key sc d' B y -> d = d' /\ A = B /\ x = y.
Proof.
  intros Hx Hy E. unfold s_entry_key in E.
  apply pair_equal_spec in E as [_ E].
  apply entry_key_inj in E as [E1 E2].
  apply s_prefix_inj in E1 as [-> ->].
  apply Uint64ToBytes_inj in E2; auto.
Qed.

Lemma s_entry_key_addr (d d' : side) (A B : string) (x y : Z) :
  s_entry_key sc d A x = s_entry_key sc d' B y -> d = d' /\ A = B.
Proof.
  intros E. unfold s_entry_key in E.
  apply pair_equal_spec in E as [_ E].
  apply entry_key_inj in E as [E1 _]. exact (s_prefix_inj _ _ _ _ E1).
Qed.

Lemma s_writes_sides (it : Item) (sS sR : Z) :
  s_writes sc it sS sR
  = [ db.WPutIfNotExists (indexNS sc)
        (snd (s_entry_key sc AsSender (i_party AsSender it) (side_seq AsSender sS sR)))
        (i_hash it) (putFailed sc AsSender);
      db.WPut (countNS sc) (snd (s_count_key sc AsSender (i_party AsSender it)))
        (byteutil.Uint64ToBytes (wrap64 (side_seq AsSender sS sR + 1)))
        (bumpFailed sc AsSender);
      db.WPutIfNotExists (indexNS sc)
        (snd (s_entry_key sc AsRecipient (i_party AsRecipient it)
                (side_seq AsRecipient sS sR)))
        (i_hash it) (putFailed sc AsRecipient);
      db.WPut (countNS sc) (snd (s_count_key sc AsRecipient (i_party AsRecipient it)))
        (byteutil.Uint64ToBytes (wrap64 (side_seq AsRecipient sS sR + 1)))
        (bumpFailed sc AsRecipient) ].
Proof. reflexivity. Qed.

Lemma s_writes_ok (it : Item) (sS sR : Z) : Forall (s_write sc) (s_writes sc it sS sR).
Proof.
  unfold s_writes, s_write.
  repeat (constructor; [simpl; tauto|]). constructor.
Qed.

(** The lookup of a place after one write of the loop. *)
Lemma lookup_index_write (m : db.Store) (d d' : side) (A B : string) (x y : Z)
  (h : Hash32B) (msg : string) :
  db.apply_write m (db.WPutIfNotExists (indexNS sc) (snd (s_entry_key sc d' B y)) h msg)
    !! s_entry_key sc d A x
  = if decide (s_entry_key sc d' B y = s_entry_key sc d A x)
    then Some (default h (m !! s_entry_key sc d A x))
    else m !! s_entry_key sc d A x.
Proof.
  rewrite lookup_apply_write. unfold db.target. simpl.
  change (indexNS sc, entry_key (s_prefix sc d' ) B y) with (s_entry_key sc d' B y).
  reflexivity.
Qed.

Lemma lookup_index_bump (m : db.Store) (d d' : side) (A B : string) (x : Z)
  (v : list byte) (msg : string) :
  db.apply_write m (db.WPut (countNS sc) (snd (s_count_key sc d' B)) v msg)
    !! s_entry_key sc d A x
  = m !! s_entry_key sc d A x.
Proof.
  rewrite lookup_apply_write. unfold db.target. simpl.
  rewrite decide_False; [reflexivity|].
  unfold s_entry_key. intros [= E _]. destruct HS as [Hne _]. congruence.
Qed.

Lemma lookup_count_write (m : db.Store) (d d' : side) (A B : string) (y : Z)
  (h : Hash32B) (msg : string) :
  db.apply_write m (db.WPutIfNotExists (indexNS sc) (snd (s_entry_key sc d' B y)) h msg)
    !! s_count_key sc d A
  = m !! s_count_key sc d A.
Proof.
  rewrite lookup_apply_write. unfold db.target. simpl.
  rewrite decide_False; [reflexivity|].
  unfold s_count_key. intros [= E _]. destruct HS as [Hne _]. congruence.
Qed.

Lemma lookup_count_bump (m : db.Store) (d d' : side) (A B : string)
  (v : list byte) (msg : string) :
  db.apply_write m (db.WPut (countNS sc) (snd (s_count_key sc d' B)) v msg)
    !! s_count_key sc d A
  = if decide (d' = d /\ B = A) then Some v else m !! s_count_key sc d A.
Proof.
  rewrite lookup_apply_write. unfold db.target. simpl.
  change (countNS sc, s_prefix sc d' ++ list_byte_of_string B)
    with (s_count_key sc d' B).
  destruct (decide (s_count_key sc d' B = s_count_key sc d A)) as [E|E].
  - unfold s_count_key in E. apply pair_equal_spec in E as [_ E].
    apply s_prefix_inj in E. rewrite decide_True by exact E. reflexivity.
  - rewrite decide_False; [reflexivity|]. intros [-> ->]. exact (E eq_refl).
Qed.

(** The counter of [A] after the writes of one item. *)
Lemma s_writes_count (d : side) (A : string) (it : Item) (sS sR : Z)
  (m : db.Store) :
  foldl db.apply_write m (s_writes sc it sS sR) !! s_count_key sc d A
  = if decide (i_party d it = A)
    then Some (byteutil.Uint64ToBytes (wrap64 (side_seq d sS sR + 1)))
    else m !! s_count_key sc d A.
Proof.
  rewrite s_writes_sides. cbn [foldl].
  rewrite lookup_count_bump, lookup_count_write, lookup_count_bump,
    lookup_count_write.
  destruct d; repeat case_decide; try reflexivity;
    destruct_and?; simplify_eq; try tauto.
Qed.

(** The entry of [A] at sequence [x] after the writes of one item. *)
Lemma s_writes_entry (d : side) (A : string) (x : Z) (it : Item) (sS sR : Z)
  (m : db.Store) :
  is_uint64 x -> is_uint64 (side_seq d sS sR) ->
  foldl db.apply_write m (s_writes sc it sS sR) !! s_entry_key sc d A x
  = if decide (i_party d it = A /\ side_seq d sS sR = x)
    then Some (default (i_hash it) (m !! s_entry_key sc d A x))
    else m !! s_entry_key sc d A x.
Proof.
  intros Hx Hs. rewrite s_writes_sides. cbn [foldl].
  rewrite lookup_index_bump, lookup_index_write, lookup_index_bump,
    lookup_index_write.
  destruct d; cbn [side_seq] in *; repeat case_decide; try reflexivity.
  all: repeat match goal with
         | H : s_entry_key sc _ _ ?a = s_entry_key sc _ _ ?b |- _ =>
             first [ apply s_entry_key_inj in H as (? & ? & ?); [|assumption..]
                   | apply s_entry_key_addr in H as (? & ?) ]
         end.
  all: try discriminate.
  all: try (destruct_and?; simplify_eq; tauto).
  all: try (exfalso; destruct_and?; simplify_eq; tauto).
Qed.

(** The entries of an address that is no party of the item stay. *)
Lemma s_writes_entry_other (d : side) (A : string) (x : Z) (it : Item)
  (sS sR : Z) (m : db.Store) :
  i_party d it <> A ->
  foldl db.apply_write m (s_writes sc it sS sR) !! s_entry_key sc d A x
  = m !! s_entry_key sc d A x.
Proof.
  intros Hne. rewrite s_writes_sides. cbn [foldl].
  rewrite lookup_index_bump, lookup_index_write, lookup_index_bump,
    lookup_index_write.
  repeat case_decide; try reflexivity.
  all: exfalso.
  all: repeat match goal with
         | H : s_entry_key sc _ _ _ = s_entry_key sc _ _ _ |- _ =>
             apply s_entry_key_addr in H as (? & ?)
         end.
  all: destruct d; simplify_eq; tauto.
Qed.

Lemma i_hashes_cons (d : side) (A : string) (it : Item) (items : list Item) :
  i_hashes d A (it :: items)
  = if decide (i_party d it = A) then i_hash it :: i_hashes d A items
    else i_hashes d A items.
Proof. unfold i_hashes. rewrite filter_cons. case_decide; reflexivity. Qed.

(** One successful iteration of the loop. *)
Lemma s_loop_cons_ok (f : db.Faults) (kv : db.Store) (it : Item)
  (items : list Item) (sd rd : gmap string Z) (batch batch' : list db.write) :
  s_loop sc f kv (it :: items) sd rd batch = Some (batch', None) ->
  exists cS cR,
    s_count_of sc AsSender f kv (i_from it) = Some (cS, None) /\
    s_count_of sc AsRecipient f kv (i_to it) = Some (cR, None) /\
    s_loop sc f kv items (bump (i_from it) sd) (bump (i_to it) rd)
      (batch ++ s_writes sc it (seq_of cS (sd !! i_from it))
                              (seq_of cR (rd !! i_to it)))
    = Some (batch', None).
Proof.
  cbn [s_loop]. intros H.
  apply bind_Some in H as ([cS [e|]] & HcS & H); [discriminate|].
  apply bind_Some in H as ([cR [e|]] & HcR & H); [discriminate|].
  exists cS, cR. auto.
Qed.

(** A successful run of the loop, seen from the address [A] on side [d]:
    [c] is the counter of [A] on disk and the delta of [A] says how many
    entries of [A] were staged before. *)
Lemma s_loop_effect (f : db.Faults) (kv : db.Store) (d : side) (A : string)
  (c : Z) (items : list Item) :
  forall (sd rd : gmap string Z) (batch batch' : list db.write),
  s_loop sc f kv items sd rd batch = Some (batch', None) ->
  s_count_of sc d f kv A = Some (c, None) ->
  let n0 := default 0 (side_delta d sd rd !! A) in
  let hs := i_hashes d A items in
  0 <= n0 ->
  c + n0 + Z.of_nat (length hs) < 2 ^ 64 ->
  exists ops,
    batch' = batch ++ ops /\
    Forall (s_write sc) ops /\
    (forall m : db.Store,
       foldl db.apply_write m ops !! s_count_key sc d A
       = if decide (hs = []) then m !! s_count_key sc d A
         else Some (byteutil.Uint64ToBytes (c + n0 + Z.of_nat (length hs)))) /\
    (forall (m : db.Store) (i : nat) (h : Hash32B),
       hs !! i = Some h ->
       foldl db.apply_write m ops !! s_entry_key sc d A (c + n0 + Z.of_nat i)
       = Some (default h (m !! s_entry_key sc d A (c + n0 + Z.of_nat i)))) /\
    (forall (m : db.Store) (x : Z),
       is_uint64 x -> x < c + n0 \/ c + n0 + Z.of_nat (length hs) <= x ->
       foldl db.apply_write m ops !! s_entry_key sc d A x
       = m !! s_entry_key sc d A x).
Proof.
  induction items as [|it items IH]; intros sd rd batch batch' H Hc n0 hs Hn0 Hlt.
  - simpl in H. injection H as <-. exists []. rewrite app_nil_r.
    split; [reflexivity|]. split; [constructor|]. split; [|split].
    + intros m. reflexivity.
    + intros m i h Hi. discriminate.
    + intros m x _ _. reflexivity.
  - pose proof (s_count_of_range _ _ _ _ _ _ Hc) as Hcr.
    apply s_loop_cons_ok in H as (cS & cR & HcS & HcR & H).
    pose proof (s_count_of_range _ _ _ _ _ _ HcS) as HcSr.
    pose proof (s_count_of_range _ _ _ _ _ _ HcR) as HcRr.
    set (sS := seq_of cS (sd !! i_from it)) in *.
    set (sR := seq_of cR (rd !! i_to it)) in *.
    assert (Hsr : is_uint64 (side_seq d sS sR))
      by (destruct d; apply seq_of_range; assumption).
    assert (Hside : side_delta d (bump (i_from it) sd) (bump (i_to it) rd)
                    = bump (i_party d it) (side_delta d sd rd))
      by (destruct d; reflexivity).
    assert (Hsq : side_seq d sS sR
                  = seq_of (side_seq d cS cR) (side_delta d sd rd !! i_party d it))
      by (destruct d; reflexivity).
    assert (Hcd : s_count_of sc d f kv (i_party d it) = Some (side_seq d cS cR, None))
      by (destruct d; assumption).
    subst hs. rewrite i_hashes_cons in Hlt. rewrite i_hashes_cons.
    specialize (IH _ _ _ _ H Hc). rewrite Hside in IH. cbv zeta in IH.
    unfold is_uint64 in Hcr.
    destruct (decide (i_party d it = A)) as [E|E].
    + rewrite E in Hcd, Hsq, IH. rewrite Hc in Hcd. injection Hcd as Hcd.
      rewrite <- Hcd in Hsq. fold n0 in IH.
      simpl length in Hlt. rewrite Nat2Z.inj_succ in Hlt.
      rewrite seq_of_small in Hsq by (fold n0; lia). fold n0 in Hsq.
      rewrite bump_same in IH by (fold n0; lia). fold n0 in IH.
      destruct IH as (ops & -> & Hops & Hcnt & Hent & Hout); [lia|lia|].
      exists (s_writes sc it sS sR ++ ops).
      split; [rewrite app_assoc; reflexivity|].
      split; [apply Forall_app; split; [apply s_writes_ok|exact Hops]|].
      split; [|split].
      * intros m. rewrite foldl_app, Hcnt.
        rewrite (decide_False (P := _ :: _ = [])) by discriminate.
        case_decide as Enil.
        -- rewrite s_writes_count, decide_True by exact E.
           rewrite Hsq, Enil. simpl length.
           rewrite wrap64_small by (unfold is_uint64; lia).
           do 2 f_equal; lia.
        -- simpl length. rewrite Nat2Z.inj_succ. do 2 f_equal; lia.
      * intros m [|i] h Hi; simpl in Hi.
        -- injection Hi as <-. rewrite foldl_app.
           apply lookup_apply_kept.
           ++ rewrite Z.add_0_r.
              rewrite s_writes_entry, decide_True;
                [reflexivity|split; [exact E|exact Hsq]
                |unfold is_uint64; lia|exact Hsr].
           ++ eapply Forall_impl; [exact Hops|].
              intros w [[_ Ew]|[Ew _]] Hw; [congruence|].
              intros Et. apply pair_equal_spec in Et as [Et _].
              rewrite Ew in Et. destruct HS as [Hne _]. congruence.
        -- apply lookup_lt_Some in Hi as Hi'.
           rewrite foldl_app.
           replace (c + n0 + Z.of_nat (S i)) with (c + (n0 + 1) + Z.of_nat i) by lia.
           rewrite (Hent _ i h Hi).
           rewrite s_writes_entry, decide_False;
             [reflexivity|intros [_ Ex]; lia|unfold is_uint64; lia|exact Hsr].
      * intros m x Hx Hrange. simpl length in Hrange.
        rewrite Nat2Z.inj_succ in Hrange.
        rewrite foldl_app, Hout by (first [exact Hx|lia]).
        rewrite s_writes_entry, decide_False;
          [reflexivity|intros [_ Ex]; lia|exact Hx|exact Hsr].
    + rewrite bump_other in IH by exact E. fold n0 in IH.
      destruct IH as (ops & -> & Hops & Hcnt & Hent & Hout); [exact Hn0|exact Hlt|].
      exists (s_writes sc it sS sR ++ ops).
      split; [rewrite app_assoc; reflexivity|].
      split; [apply Forall_app; split; [apply s_writes_ok|exact Hops]|].
      split; [|split].
      * intros m. rewrite foldl_app, Hcnt.
        rewrite s_writes_count.
        rewrite (decide_False (P := i_party d it = A)) by exact E. reflexivity.
      * intros m i h Hi.
        rewrite foldl_app, (Hent _ i h Hi).
        rewrite s_writes_entry_other by exact E. reflexivity.
      * intros m x Hx Hrange.
        rewrite foldl_app, Hout by assumption.
        rewrite s_writes_entry_other by exact E. reflexivity.
Qed.

(** A successful run of the loop leaves the counter and the entries of an
    address alone that is no party on that side. *)
Lemma s_loop_uninvolved (f : db.Faults) (kv : db.Store) (d : side) (A : string)
  (items : list Item) :
  forall (sd rd : gmap string Z) (batch batch' : list db.write),
  s_loop sc f kv items sd rd batch = Some (batch', None) ->
  i_hashes d A items = [] ->
  exists ops,
    batch' = batch ++ ops /\
    forall m : db.Store,
      foldl db.apply_write m ops !! s_count_key sc d A = m !! s_count_key sc d A /\
      forall x, foldl db.apply_write m ops !! s_entry_key sc d A x
                = m !! s_entry_key sc d A x.
Proof.
  induction items as [|it items IH]; intros sd rd batch batch' H Hnil.
  - simpl in H. injection H as <-. exists []. rewrite app_nil_r. auto.
  - apply s_loop_cons_ok in H as (cS & cR & _ & _ & H).
    rewrite i_hashes_cons in Hnil.
    destruct (decide (i_party d it = A)) as [E|E]; [discriminate|].
    destruct (IH _ _ _ _ H Hnil) as (ops & -> & Hops).
    eexists. split; [rewrite <- app_assoc; reflexivity|].
    intros m. rewrite foldl_app.
    destruct (Hops (foldl db.apply_write m (s_writes sc it
                 (seq_of cS (sd !! i_from it)) (seq_of cR (rd !! i_to it)))))
      as [Hc He].
    split.
    + rewrite Hc, s_writes_count, decide_False by exact E. reflexivity.
    + intros x. rewrite He, s_writes_entry_other by exact E. reflexivity.
Qed.

(** A successful run of the loop found a usable counter for every party. *)
Lemma s_loop_counts (f : db.Faults) (kv : db.Store) (items : list Item) :
  forall (sd rd : gmap string Z) (batch batch' : list db.write),
  s_loop sc f kv items sd rd batch = Some (batch', None) ->
  Forall (fun it => forall d, exists c,
                      s_count_of sc d f kv (i_party d it) = Some (c, None)) items.
Proof.
  induction items as [|it items IH]; intros sd rd batch batch' H; [constructor|].
  apply s_loop_cons_ok in H as (cS & cR & HcS & HcR & H).
  constructor; [|exact (IH _ _ _ _ H)].
  intros [|]; eexists; eassumption.
Qed.

End SchemaFacts.

(** ** The functions of the source are the functions over the schemas *)

Lemma transferSchema_ok : schema_ok transferSchema.
Proof.
  split; [discriminate|]. intros a b. exact (from_to_disjoint a b).
Qed.

Lemma voteSchema_ok : schema_ok voteSchema.
Proof.
  split; [discriminate|]. intros a b.
  cbv [voteSchema fromPrefix toPrefix voteFromPrefix voteToPrefix]. simpl.
  intros [=].
Qed.

Lemma count_of_schema (d : side) (f : db.Faults) (kv : db.Store) (A : string) :
  count_of d f kv A = s_count_of transferSchema d f kv A.
Proof. destruct d; reflexivity. Qed.

Lemma vote_count_schema (f : db.Faults) (kv : db.Store) (A : string) :
  getVoteCountBySenderAddress f kv A = s_count_of voteSchema AsSender f kv A /\
  getVoteCountByRecipientAddress f kv A = s_count_of voteSchema AsRecipient f kv A.
Proof. split; reflexivity. Qed.

Lemma putTransfers_loop_schema (f : db.Faults) (kv : db.Store)
  (ts : list Transfer) :
  forall (sd rd : gmap string Z) (batch : list db.write),
  putTransfers_loop f kv ts sd rd batch
  = s_loop transferSchema f kv (item_of_transfer <$> ts) sd rd batch.
Proof.
  induction ts as [|t ts IH]; intros sd rd batch; [reflexivity|].
  cbn [putTransfers_loop s_loop fmap list_fmap].
  change (s_count_of transferSchema AsSender f kv (i_from (item_of_transfer t)))
    with (getTransferCountBySenderAddress f kv (Sender t)).
  change (s_count_of transferSchema AsRecipient f kv (i_to (item_of_transfer t)))
    with (getTransferCountByRecipientAddress f kv (Recipient t)).
  destruct (getTransferCountBySenderAddress f kv (Sender t)) as [[cS [e|]]|];
    [reflexivity| |reflexivity].
  cbn [mbind option_bind]. unfold seq_of, bump. cbn [i_from i_to item_of_transfer].
  destruct (sd !! Sender t) as [dS|].
  all: destruct (getTransferCountByRecipientAddress f kv (Recipient t))
         as [[cR [e|]]|]; cbn [mbind option_bind]; try reflexivity.
  all: try (unfold db.batch_Put, db.batch_PutIfNotExists;
            rewrite <- !app_assoc; reflexivity).
  all: destruct (rd !! Recipient t) as [dR|].
  all: rewrite IH; unfold db.batch_Put, db.batch_PutIfNotExists.
  all: rewrite <- !app_assoc; reflexivity.
Qed.

Section VoteLoop.

Variable GetAddress : list byte -> string * error.

(** A successful run of the loop of [putVotes] derived every address. *)
Lemma putVotes_loop_derives (f : db.Faults) (kv : db.Store) (vs : list Vote) :
  forall (sd rd : gmap string Z) (batch batch' : list db.write),
  putVotes_loop GetAddress f kv vs sd rd batch = Some (batch', None) ->
  derivable GetAddress vs.
Proof.
  induction vs as [|v vs IH]; intros sd rd batch batch' H; [constructor|].
  simpl in H.
  destruct (GetAddress (SelfPubkey v)) as [aS [e|]] eqn:ES; [discriminate|].
  destruct (GetAddress (VotePubkey v)) as [aR [e|]] eqn:ER; [discriminate|].
  apply bind_Some in H as ([cS [e|]] & _ & H); [discriminate|].
  destruct (sd !! aS).
  all: apply bind_Some in H as ([cR [e|]] & _ & H); [discriminate|].
  all: destruct (rd !! aR).
  all: constructor; [rewrite ES, ER; split; reflexivity|exact (IH _ _ _ _ H)].
Qed.

Lemma putVotes_loop_schema (f : db.Faults) (kv : db.Store) (vs : list Vote) :
  derivable GetAddress vs ->
  forall (sd rd : gmap string Z) (batch : list db.write),
  putVotes_loop GetAddress f kv vs sd rd batch
  = s_loop voteSchema f kv (item_of_vote GetAddress <$> vs) sd rd batch.
Proof.
  induction 1 as [|v vs [HS HR] _ IH]; intros sd rd batch; [reflexivity|].
  cbn [putVotes_loop s_loop fmap list_fmap]. unfold s_writes.
  cbn [i_from i_to i_hash item_of_vote].
  destruct (GetAddress (SelfPubkey v)) as [aS eS]. simpl in HS. subst eS.
  destruct (GetAddress (VotePubkey v)) as [aR eR]. simpl in HR. subst eR.
  cbn [fst].
  change (s_count_of voteSchema AsSender f kv aS)
    with (getVoteCountBySenderAddress f kv aS).
  change (s_count_of voteSchema AsRecipient f kv aR)
    with (getVoteCountByRecipientAddress f kv aR).
  destruct (getVoteCountBySenderAddress f kv aS) as [[cS [e|]]|];
    [reflexivity| |reflexivity].
  cbn [mbind option_bind]. unfold seq_of, bump.
  destruct (sd !! aS) as [dS|].
  all: destruct (getVoteCountByRecipientAddress f kv aR)
         as [[cR [e|]]|]; cbn [mbind option_bind]; try reflexivity.
  all: try (unfold db.batch_Put, db.batch_PutIfNotExists;
            rewrite <- !app_assoc; reflexivity).
  all: destruct (rd !! aR) as [dR|].
  all: rewrite IH; unfold db.batch_Put, db.batch_PutIfNotExists.
  all: rewrite <- !app_assoc; reflexivity.
Qed.

End VoteLoop.

Lemma getTransfersByAddress_loop_schema (f : db.Faults) (kv : db.Store)
  (A : string) (p : list byte) (n : nat) :
  forall (i : Z) (res : list Hash32B),
  getTransfersByAddress_loop f kv A p n i res
  = s_enum_loop transferSchema f kv A p n i res.
Proof.
  induction n as [|n IH]; intros i res; [reflexivity|].
  cbn [getTransfersByAddress_loop s_enum_loop]. fold (entry_key p A i).
  cbn [indexNS transferSchema getFailed entryMissing].
  destruct (db.Get f kv blockAddressTransferMappingNS (entry_key p A i))
    as [value [e|]]; [reflexivity|].
  destruct (length value =? 0)%nat; [reflexivity|]. apply IH.
Qed.

Lemma getVotesByAddress_loop_schema (f : db.Faults) (kv : db.Store)
  (A : string) (p : list byte) (n : nat) :
  forall (i : Z) (res : list Hash32B),
  getVotesByAddress_loop f kv A p n i res
  = s_enum_loop voteSchema f kv A p n i res.
Proof.
  induction n as [|n IH]; intros i res; [reflexivity|].
  cbn [getVotesByAddress_loop s_enum_loop]. fold (entry_key p A i).
  cbn [indexNS voteSchema getFailed entryMissing].
  destruct (db.Get f kv blockAddressVoteMappingNS (entry_key p A i))
    as [value [e|]]; [reflexivity|].
  destruct (length value =? 0)%nat; [reflexivity|]. apply IH.
Qed.

(** ** What a successful putBlock has staged *)

Lemma s_loop_extends (sc : Schema) (f : db.Faults) (kv : db.Store)
  (items : list Item) :
  forall (sd rd : gmap string Z) (batch batch' : list db.write),
  s_loop sc f kv items sd rd batch = Some (batch', None) ->
  exists ops, batch' = batch ++ ops /\ Forall (s_write sc) ops.
Proof.
  induction items as [|it items IH]; intros sd rd batch batch' H.
  - simpl in H. injection H as <-. exists []. rewrite app_nil_r. auto.
  - apply s_loop_cons_ok in H as (cS & cR & _ & _ & H).
    apply IH in H as (ops & -> & Hops).
    eexists. split; [rewrite <- app_assoc; reflexivity|].
    apply Forall_app. split; [apply s_writes_ok|exact Hops].
Qed.

Lemma s_write_other_ns (sc : Schema) (ops : list db.write) (kv : db.Store)
  (ns : string) (key : list byte) :
  Forall (s_write sc) ops -> ns <> indexNS sc -> ns <> countNS sc ->
  foldl db.apply_write kv ops !! (ns, key) = kv !! (ns, key).
Proof.
  intros Hops H1 H2. apply lookup_apply_other_ns.
  eapply Forall_impl; [exact Hops|].
  intros w [[E _]|[E _]]; rewrite E; congruence.
Qed.

(** The writes of the loop that overwrite aim at the counters. *)
Lemma s_write_overwrites (sc : Schema) (ops : list db.write)
  (K : string * list byte) :
  Forall (s_write sc) ops -> indexNS sc <> countNS sc -> fst K <> countNS sc ->
  Forall (fun w => db.is_WPut w = true -> db.target w <> K) ops.
Proof.
  intros Hops Hne HK. eapply Forall_impl; [exact Hops|].
  intros w [[_ E]|[E _]] Hw; [congruence|].
  intros <-. exact (HK E).
Qed.

Lemma i_hashes_transfers (d : side) (A : string) (ts : list Transfer) :
  i_hashes d A (item_of_transfer <$> ts) = hashes_of d A ts.
Proof.
  induction ts as [|t ts IH]; [destruct d; reflexivity|].
  rewrite fmap_cons, i_hashes_cons, hashes_of_cons, IH.
  destruct d; reflexivity.
Qed.

Lemma i_hashes_app (d : side) (A : string) (l1 l2 : list Item) :
  i_hashes d A (l1 ++ l2) = i_hashes d A l1 ++ i_hashes d A l2.
Proof. unfold i_hashes. rewrite filter_app, fmap_app. reflexivity. Qed.

(** The places the first writes of [putBlock] are aimed at. *)
Lemma block_writes_untouched (kv : db.Store) (blk : Block)
  (serialized : list byte) (top tt tv : Z) (K : string * list byte) :
  K <> (blockNS, HashBlock blk) ->
  K <> (blockHashHeightMappingNS, hashPrefix ++ HashBlock blk) ->
  K <> (blockHashHeightMappingNS,
        heightPrefix ++ byteutil.Uint64ToBytes (Height blk)) ->
  K <> (blockNS, topHeightKey) ->
  K <> (blockNS, totalTransfersKey) ->
  K <> (blockNS, totalVotesKey) ->
  (forall t, t ∈ Transfers blk ->
             K <> (blockTransferBlockMappingNS, transferPrefix ++ Transfer_Hash t)) ->
  (forall v, v ∈ Votes blk ->
             K <> (blockVoteBlockMappingNS, votePrefix ++ Vote_Hash v)) ->
  foldl db.apply_write kv (block_writes blk serialized top tt tv) !! K = kv !! K.
Proof.
  intros H1 H2 H3 H4 H5 H6 HT HV. apply lookup_apply_untouched.
  unfold block_writes. rewrite !Forall_app. repeat split.
  - repeat (constructor; [unfold db.target; cbn [db.wns db.wkey]; congruence|]). constructor.
  - destruct (Height blk >? top); repeat constructor.
    unfold db.target; cbn [db.wns db.wkey]; congruence.
  - repeat (constructor; [unfold db.target; cbn [db.wns db.wkey]; congruence|]). constructor.
  - apply Forall_fmap, Forall_forall. intros t Ht. unfold db.target; cbn [db.wns db.wkey].
    intros E. exact (HT t Ht (eq_sym E)).
  - apply Forall_fmap, Forall_forall. intros v Hv. unfold db.target; cbn [db.wns db.wkey].
    intros E. exact (HV v Hv (eq_sym E)).
Qed.

(** The overwrites among the first writes of [putBlock] aim at the three
    singleton counters and at the mappings. *)
Lemma block_writes_overwrites (blk : Block) (serialized : list byte)
  (top tt tv : Z) (K : string * list byte) :
  fst K = blockNS ->
  snd K <> topHeightKey -> snd K <> totalTransfersKey -> snd K <> totalVotesKey ->
  Forall (fun w => db.is_WPut w = true -> db.target w <> K)
    (block_writes blk serialized top tt tv).
Proof.
  intros HK H1 H2 H3. destruct K as [ns key]. simpl in *. subst ns.
  assert (Hw : forall w : db.write,
             (db.is_WPut w = false \/ db.wns w <> blockNS \/
              db.wkey w = topHeightKey \/ db.wkey w = totalTransfersKey \/
              db.wkey w = totalVotesKey) ->
             db.is_WPut w = true -> db.target w <> (blockNS, key)).
  { intros w Hw Hput E. apply pair_equal_spec in E as [E1 E2].
    destruct Hw as [Hw|[Hw|[Hw|[Hw|Hw]]]]; congruence. }
  unfold block_writes. rewrite !Forall_app. repeat split.
  - repeat (constructor;
            [apply Hw; cbn [db.wns db.wkey db.is_WPut];
             first [left; reflexivity|right; left; discriminate]|]).
    constructor.
  - destruct (Height blk >? top); repeat constructor.
    apply Hw. cbn [db.wns db.wkey db.is_WPut]. tauto.
  - repeat (constructor; [apply Hw; cbn [db.wns db.wkey db.is_WPut]; tauto|]).
    constructor.
  - apply Forall_fmap, Forall_true. intros t. cbv beta. refine (Hw _ _).
    right; left. discriminate.
  - apply Forall_fmap, Forall_true. intros v. cbv beta. refine (Hw _ _).
    right; left. discriminate.
Qed.

Section PutBlockSchema.

Variable GetAddress : list byte -> string * error.

(** Whenever [putBlock] returns an error, the store is as before. *)
Lemma putBlock_error_keeps (f : db.Faults) (kv kv' : db.Store) (blk : Block)
  (e : Err) :
  putBlock GetAddress f kv blk = Some (kv', Some e) -> kv' = kv.
Proof.
  unfold putBlock. intros H.
  destruct (Serialize blk) as [serialized [e0|]]; [congruence|].
  destruct (db.Get f kv blockNS topHeightKey) as [vtop [e0|]]; [congruence|].
  apply bind_Some in H as (top & _ & H).
  destruct (db.Get f kv blockNS totalTransfersKey) as [vtt [e0|]]; [congruence|].
  apply bind_Some in H as (tt & _ & H).
  destruct (db.Get f kv blockNS totalVotesKey) as [vtv [e0|]]; [congruence|].
  apply bind_Some in H as (tv & _ & H).
  apply bind_Some in H as ([b1 [e0|]] & _ & H); [congruence|].
  apply bind_Some in H as ([b2 [e0|]] & _ & H); [congruence|].
  unfold db.Commit in H. destruct (db.Commit_fails f kv b2); congruence.
Qed.

(** What a successful [putBlock] has staged, with the two loops as loops
    over their schemas. *)
Lemma putBlock_ok_schema (f : db.Faults) (kv kv' : db.Store) (blk : Block) :
  putBlock GetAddress f kv blk = Some (kv', None) ->
  exists serialized top tt tv tops vops,
    Serialize blk = (serialized, None) /\
    s_loop transferSchema f kv (item_of_transfer <$> Transfers blk) ∅ ∅
      (block_writes blk serialized top tt tv)
    = Some (block_writes blk serialized top tt tv ++ tops, None) /\
    Forall (s_write transferSchema) tops /\
    derivable GetAddress (Votes blk) /\
    s_loop voteSchema f kv (item_of_vote GetAddress <$> Votes blk) ∅ ∅
      (block_writes blk serialized top tt tv ++ tops)
    = Some ((block_writes blk serialized top tt tv ++ tops) ++ vops, None) /\
    Forall (s_write voteSchema) vops /\
    kv' = foldl db.apply_write
            (foldl db.apply_write
               (foldl db.apply_write kv (block_writes blk serialized top tt tv))
               tops)
            vops.
Proof.
  unfold putBlock. intros H.
  destruct (Serialize blk) as [serialized [e|]] eqn:ESer; [discriminate|].
  destruct (db.Get f kv blockNS topHeightKey) as [vtop [e|]] eqn:Etop;
    [discriminate|].
  apply bind_Some in H as (top & Htop & H).
  destruct (db.Get f kv blockNS totalTransfersKey) as [vtt [e|]] eqn:Ett;
    [discriminate|].
  apply bind_Some in H as (tt & Htt & H).
  destruct (db.Get f kv blockNS totalVotesKey) as [vtv [e|]] eqn:Etv;
    [discriminate|].
  apply bind_Some in H as (tv & Htv & H).
  apply bind_Some in H as ([b1 [e|]] & HT & H); [discriminate|].
  apply bind_Some in H as ([b2 [e|]] & HV & H); [discriminate|].
  unfold db.Commit in H.
  destruct (db.Commit_fails f _ _); [discriminate|]. injection H as <-.
  unfold putTransfers in HT. unfold putVotes in HV.
  match type of HT with
  | putTransfers_loop _ _ _ _ _ ?b = _ =>
      assert (Hb : b = block_writes blk serialized top tt tv)
  end.
  { unfold block_writes, db.batch_Put, db.batch_PutIfNotExists, db.Batch.
    cbv zeta. rewrite !foldl_stage.
    destruct (Height blk >? top); simpl; rewrite <- ?app_assoc; reflexivity. }
  rewrite Hb in HT. clear Hb.
  pose proof (putVotes_loop_derives _ _ _ _ _ _ _ _ HV) as Hder.
  rewrite putTransfers_loop_schema in HT.
  rewrite (putVotes_loop_schema _ _ _ _ Hder) in HV.
  destruct (s_loop_extends _ _ _ _ _ _ _ _ HT) as (tops & -> & HTops).
  destruct (s_loop_extends _ _ _ _ _ _ _ _ HV) as (vops & -> & HVops).
  exists serialized, top, tt, tv, tops, vops.
  rewrite !foldl_app. repeat split; assumption || reflexivity.
Qed.

(** The effect of a successful [putBlock] on the index of a schema is the
    effect of the writes of its loop. *)
Lemma putBlock_transfer_places (kv : db.Store) (B tops vops : list db.write)
  (blk : Block) (serialized : list byte) (top tt tv : Z) :
  B = block_writes blk serialized top tt tv ->
  Forall (s_write voteSchema) vops ->
  forall (ns : string) (key : list byte),
  ns = indexNS transferSchema \/ ns = countNS transferSchema ->
  foldl db.apply_write (foldl db.apply_write (foldl db.apply_write kv B) tops) vops
    !! (ns, key)
  = foldl db.apply_write kv tops !! (ns, key).
Proof.
  intros -> HV ns key Hns.
  rewrite (s_write_other_ns voteSchema) by
    (first [exact HV|destruct Hns as [-> | ->]; discriminate]).
  revert kv. induction tops as [|w tops IH] using rev_ind; intros kv.
  - simpl. apply block_writes_other_ns; destruct Hns as [-> | ->]; discriminate.
  - rewrite !foldl_app. cbn [foldl]. rewrite !lookup_apply_write.
    case_decide; rewrite IH; reflexivity.
Qed.

Lemma putBlock_vote_places (kv : db.Store) (B tops vops : list db.write)
  (blk : Block) (serialized : list byte) (top tt tv : Z) :
  B = block_writes blk serialized top tt tv ->
  Forall (s_write transferSchema) tops ->
  forall (ns : string) (key : list byte),
  ns = indexNS voteSchema \/ ns = countNS voteSchema ->
  foldl db.apply_write (foldl db.apply_write (foldl db.apply_write kv B) tops) vops
    !! (ns, key)
  = foldl db.apply_write kv vops !! (ns, key).
Proof.
  intros -> HT ns key Hns.
  revert kv. induction vops as [|w vops IH] using rev_ind; intros kv.
  - simpl. rewrite (s_write_other_ns transferSchema) by
      (first [exact HT|destruct Hns as [-> | ->]; discriminate]).
    apply block_writes_other_ns; destruct Hns as [-> | ->]; discriminate.
  - rewrite !foldl_app. cbn [foldl]. rewrite !lookup_apply_write.
    case_decide; rewrite IH; reflexivity.
Qed.

End PutBlockSchema.

(** ** A start that was interrupted *)

(** X3. [Start] seeds its three keys by three separate writes. When the
    write of the total of transfers breaks, the top height stays seeded
    and the total does not. From then on every [Start] succeeds at once
    without seeding the total, and every [putBlock] fails and leaves the
    store as it is. *)
Theorem Start_interrupted (f : db.Faults) (kv : db.Store) (what : string) :
  db.OnStart_fails f = None ->
  db.PutIfNotExists_fails f blockNS topHeightKey = None ->
  db.PutIfNotExists_fails f blockNS totalTransfersKey = Some what ->
  kv !! (blockNS, topHeightKey) = None ->
  kv !! (blockNS, totalTransfersKey) = None ->
  let kv1 := fst (Start f kv) in
  is_Some (snd (Start f kv)) /\
  kv1 !! (blockNS, topHeightKey) = Some (make_bytes 8) /\
  kv1 !! (blockNS, totalTransfersKey) = None /\
  (forall f' : db.Faults,
     db.OnStart_fails f' = None ->
     db.PutIfNotExists_fails f' blockNS topHeightKey = None ->
     Start f' kv1 = (kv1, None)) /\
  (forall (GetAddress : list byte -> string * error) (f' : db.Faults)
          (blk : Block),
     exists e, putBlock GetAddress f' kv1 blk = Some (kv1, Some e)).
Proof.
  intros Hstart Htop Htt Ltop Ltt kv1.
  assert (E : Start f kv
              = (<[(blockNS, topHeightKey) := make_bytes 8]> kv,
                 Some (ErrWrap (ErrBackend what)
                         "failed to write initial value for total transfers"))).
  { unfold Start, db.PutIfNotExists. rewrite Hstart. cbn [fmap option_fmap option_map].
    rewrite Htop, Ltop, Htt. reflexivity. }
  subst kv1. rewrite E. cbn [fst snd].
  assert (L1 : (<[(blockNS, topHeightKey) := make_bytes 8]> kv : db.Store)
               !! (blockNS, topHeightKey) = Some (make_bytes 8))
    by apply lookup_insert_eq.
  assert (L2 : (<[(blockNS, topHeightKey) := make_bytes 8]> kv : db.Store)
               !! (blockNS, totalTransfersKey) = None)
    by (rewrite lookup_insert_ne by (intros [=]); exact Ltt).
  split; [eexists; reflexivity|]. split; [exact L1|]. split; [exact L2|]. split.
  - intros f' Hs Hp. unfold Start, db.PutIfNotExists.
    rewrite Hs. cbn [fmap option_fmap option_map]. rewrite Hp, L1. reflexivity.
  - intros GetAddress f' blk. unfold putBlock.
    destruct (Serialize blk) as [serialized [e|]]; [eexists; reflexivity|].
    unfold db.Get.
    destruct (db.Get_fails f' blockNS topHeightKey); [eexists; reflexivity|].
    rewrite L1. cbn [mbind option_bind]. rewrite Uint64_make_bytes.
    cbn [mbind option_bind].
    destruct (db.Get_fails f' blockNS totalTransfersKey); [eexists; reflexivity|].
    rewrite L2. eexists; reflexivity.
Qed.

Lemma Start_interrupted_witness :
  let kv1 := fst (Start Scenario.totals_write_fails ∅) in
  Start db.healthy kv1 = (kv1, None) /\
  exists e,
    putBlock Scenario.GetAddress db.healthy kv1 Scenario.B5 = Some (kv1, Some e).
Proof.
  cbv zeta.
  destruct (Start_interrupted Scenario.totals_write_fails ∅ "write"
              eq_refl eq_refl eq_refl (lookup_empty _) (lookup_empty _))
    as (_ & _ & _ & Hstart & Hput).
  split; [exact (Hstart db.healthy eq_refl eq_refl)|].
  exact (Hput Scenario.GetAddress db.healthy Scenario.B5).
Defined.

(** ** What putBlock stores for a block *)

Section Stored.

Variable GetAddress : list byte -> string * error.

(** X4. After a successful [putBlock], each transfer hash and each vote
    hash of the block leads to the hash of the block. *)
Theorem putBlock_maps_hashes (f f' : db.Faults) (kv kv' : db.Store)
  (blk : Block) :
  putBlock GetAddress f kv blk = Some (kv', None) ->
  reads_work f' ->
  length (HashBlock blk) = 32%nat ->
  (forall t, t ∈ Transfers blk ->
     getBlockHashByTransferHash f' kv' (Transfer_Hash t) = (HashBlock blk, None)) /\
  (forall v, v ∈ Votes blk ->
     getBlockHashByVoteHash f' kv' (Vote_Hash v) = (HashBlock blk, None)).
Proof.
  intros Hput Hf Hlen.
  apply putBlock_ok_schema in Hput
    as (ser & top & tt & tv & tops & vops & _ & _ & HT & _ & _ & HV & ->).
  assert (Hread : forall ns key,
             ns = blockTransferBlockMappingNS \/ ns = blockVoteBlockMappingNS ->
             Exists (fun w => db.target w = (ns, key))
               (block_writes blk ser top tt tv) ->
             db.Get f'
               (foldl db.apply_write
                  (foldl db.apply_write
                     (foldl db.apply_write kv (block_writes blk ser top tt tv))
                     tops) vops) ns key
             = (HashBlock blk, None)).
  { intros ns key Hns Hex. apply Get_lookup; [apply Hf|].
    rewrite (s_write_other_ns voteSchema) by
      (first [exact HV|destruct Hns as [-> | ->]; discriminate]).
    rewrite (s_write_other_ns transferSchema) by
      (first [exact HT|destruct Hns as [-> | ->]; discriminate]).
    apply lookup_apply_all_put; [|right; exact Hex].
    assert (Hw : forall w : db.write,
               db.wns w <> ns \/
               (db.is_WPut w = true /\ db.wvalue w = HashBlock blk) ->
               db.target w = (ns, key) ->
               db.is_WPut w = true /\ db.wvalue w = HashBlock blk).
    { intros w [Hw|Hw] E; [|exact Hw].
      apply pair_equal_spec in E as [E _]. destruct (Hw E). }
    unfold block_writes. rewrite !Forall_app. repeat split.
    - repeat (constructor;
              [refine (Hw _ _); left; cbn [db.wns];
               destruct Hns as [-> | ->]; discriminate|]).
      constructor.
    - destruct (Height blk >? top); [constructor; [|constructor]|constructor].
      refine (Hw _ _). left. cbn [db.wns].
      destruct Hns as [-> | ->]; discriminate.
    - repeat (constructor;
              [refine (Hw _ _); left; cbn [db.wns];
               destruct Hns as [-> | ->]; discriminate|]).
      constructor.
    - apply Forall_fmap, Forall_true. intros t. cbv beta. refine (Hw _ _).
      right. split; reflexivity.
    - apply Forall_fmap, Forall_true. intros v. cbv beta. refine (Hw _ _).
      right. split; reflexivity. }
  split.
  - intros t Ht. unfold getBlockHashByTransferHash.
    rewrite Hread.
    + rewrite Hlen. cbn [Nat.eqb].
      rewrite copy_full by (rewrite Hlen, length_ZeroHash32B; reflexivity).
      reflexivity.
    + left; reflexivity.
    + unfold block_writes. rewrite !Exists_app. do 3 right. left.
      apply Exists_fmap, Exists_exists. exists t. split; [exact Ht|reflexivity].
  - intros v Hv. unfold getBlockHashByVoteHash.
    rewrite Hread.
    + rewrite Hlen. cbn [Nat.eqb].
      rewrite copy_full by (rewrite Hlen, length_ZeroHash32B; reflexivity).
      reflexivity.
    + right; reflexivity.
    + unfold block_writes. rewrite !Exists_app. do 4 right.
      apply Exists_fmap, Exists_exists. exists v. split; [exact Hv|reflexivity].
Qed.

(** X6. [putBlock] removes no key, whatever it returns. And it never
    changes the value of an entry of the two per-address indexes or of a
    key of the block namespace other than the three singleton counters:
    these are written by conditional inserts only. *)
Theorem putBlock_never_removes (f : db.Faults) (kv kv' : db.Store)
  (blk : Block) (err : error) (K : string * list byte) (v : list byte) :
  putBlock GetAddress f kv blk = Some (kv', err) ->
  kv !! K = Some v ->
  is_Some (kv' !! K) /\
  (fst K = blockAddressTransferMappingNS \/
   fst K = blockAddressVoteMappingNS \/
   (fst K = blockNS /\ snd K <> topHeightKey /\
    snd K <> totalTransfersKey /\ snd K <> totalVotesKey) ->
   kv' !! K = Some v).
Proof.
  intros Hput HK. destruct err as [e|].
  { apply putBlock_error_keeps in Hput. subst kv'.
    split; [eexists; exact HK|intros _; exact HK]. }
  apply putBlock_ok_schema in Hput
    as (ser & top & tt & tv & tops & vops & _ & _ & HT & _ & _ & HV & ->).
  split.
  - do 3 apply lookup_apply_present. eexists; exact HK.
  - intros HNS. destruct K as [ns key]. cbn [fst snd] in HNS.
    destruct HNS as [-> | [-> | (-> & H1 & H2 & H3)]].
    + rewrite (s_write_other_ns voteSchema) by (first [exact HV|discriminate]).
      apply lookup_apply_kept.
      * rewrite block_writes_other_ns by discriminate. exact HK.
      * apply (s_write_overwrites transferSchema); [exact HT|discriminate..].
    + apply lookup_apply_kept.
      * rewrite (s_write_other_ns transferSchema)
          by (first [exact HT|discriminate]).
        rewrite block_writes_other_ns by discriminate. exact HK.
      * apply (s_write_overwrites voteSchema); [exact HV|discriminate..].
    + rewrite (s_write_other_ns voteSchema) by (first [exact HV|discriminate]).
      rewrite (s_write_other_ns transferSchema)
        by (first [exact HT|discriminate]).
      apply lookup_apply_kept; [exact HK|].
      apply block_writes_overwrites; first [reflexivity|assumption].
Qed.

(** X7. [putBlock] of a block leaves the records of the other blocks
    alone, whatever it returns: the height of another hash, the hash at
    another height, the block of a transfer or vote hash that is not in
    the block, and the payload under another hash. *)
Theorem putBlock_other_blocks (f f' : db.Faults) (kv kv' : db.Store)
  (blk : Block) (err : error) :
  putBlock GetAddress f kv blk = Some (kv', err) ->
  (forall h, h <> HashBlock blk ->
     getBlockHeight f' kv' h = getBlockHeight f' kv h) /\
  (forall height,
     byteutil.Uint64ToBytes height <> byteutil.Uint64ToBytes (Height blk) ->
     getBlockHash f' kv' height = getBlockHash f' kv height) /\
  (forall h, h ∉ Transfer_Hash <$> Transfers blk ->
     getBlockHashByTransferHash f' kv' h = getBlockHashByTransferHash f' kv h) /\
  (forall h, h ∉ Vote_Hash <$> Votes blk ->
     getBlockHashByVoteHash f' kv' h = getBlockHashByVoteHash f' kv h) /\
  (forall h, length h = 32%nat -> h <> HashBlock blk ->
     kv' !! (blockNS, h) = kv !! (blockNS, h)).
Proof.
  intros Hput.
  assert (Hframe : forall ns key,
            ns <> blockAddressTransferMappingNS ->
            ns <> blockAddressTransferCountMappingNS ->
            ns <> blockAddressVoteMappingNS ->
            ns <> blockAddressVoteCountMappingNS ->
            (forall ser top tt tv m,
               foldl db.apply_write m (block_writes blk ser top tt tv) !! (ns, key)
               = m !! (ns, key)) ->
            kv' !! (ns, key) = kv !! (ns, key)).
  { intros ns key N1 N2 N3 N4 HB. destruct err as [e|].
    { apply putBlock_error_keeps in Hput. subst kv'. reflexivity. }
    apply putBlock_ok_schema in Hput
      as (ser & top & tt & tv & tops & vops & _ & _ & HT & _ & _ & HV & ->).
    rewrite (s_write_other_ns voteSchema) by (first [exact HV|assumption]).
    rewrite (s_write_other_ns transferSchema) by (first [exact HT|assumption]).
    apply HB. }
  assert (Hp : forall a b : list byte, heightPrefix ++ a <> hashPrefix ++ b)
    by (intros a b; cbv [heightPrefix hashPrefix]; simpl; intros [=]).
  split; [|split; [|split; [|split]]].
  - intros h Hh. unfold getBlockHeight. rewrite (Get_ext f' kv kv'); [reflexivity|].
    apply Hframe; try discriminate. intros ser top tt tv m.
    apply block_writes_untouched; try discriminate.
    all: intros E; apply pair_equal_spec in E as [_ E].
    all: first [apply app_inv_head in E; exact (Hh E)
               |symmetry in E; exact (Hp _ _ E)].
  - intros height Hh. unfold getBlockHash.
    rewrite (Get_ext f' kv kv'); [reflexivity|].
    apply Hframe; try discriminate. intros ser top tt tv m.
    apply block_writes_untouched; try discriminate.
    all: intros E; apply pair_equal_spec in E as [_ E].
    all: first [apply app_inv_head in E; exact (Hh E)|exact (Hp _ _ E)].
  - intros h Hh. unfold getBlockHashByTransferHash.
    rewrite (Get_ext f' kv kv'); [reflexivity|].
    apply Hframe; try discriminate. intros ser top tt tv m.
    apply block_writes_untouched; try discriminate.
    intros t Ht E. apply pair_equal_spec in E as [_ E].
    apply app_inv_head in E. apply Hh. rewrite E.
    apply list_elem_of_fmap_2. exact Ht.
  - intros h Hh. unfold getBlockHashByVoteHash.
    rewrite (Get_ext f' kv kv'); [reflexivity|].
    apply Hframe; try discriminate. intros ser top tt tv m.
    apply block_writes_untouched; try discriminate.
    intros v Hv E. apply pair_equal_spec in E as [_ E].
    apply app_inv_head in E. apply Hh. rewrite E.
    apply list_elem_of_fmap_2. exact Hv.
  - intros h Hlen Hh.
    apply Hframe; try discriminate. intros ser top tt tv m.
    apply block_writes_untouched; try discriminate.
    all: intros E; apply pair_equal_spec in E as [_ E].
    all: first [exact (Hh E)|rewrite E in Hlen; discriminate Hlen].
Qed.

(** X8. What makes [putBlock] fail: a block that does not serialize, a
    singleton counter that [Start] has not seeded, a vote one of whose
    public keys derives no address, and a party of a transfer or of a vote
    whose count reader returns an error. In each case the call returns an
    error and the store is as before. *)
Theorem putBlock_refuses (f : db.Faults) (kv kv' : db.Store) (blk : Block)
  (err : error) :
  putBlock GetAddress f kv blk = Some (kv', err) ->
  is_Some (snd (Serialize blk)) \/
  kv !! (blockNS, topHeightKey) = None \/
  kv !! (blockNS, totalTransfersKey) = None \/
  kv !! (blockNS, totalVotesKey) = None \/
  ~ derivable GetAddress (Votes blk) \/
  (exists d t c e, t ∈ Transfers blk /\
                   count_of d f kv (party d t) = Some (c, Some e)) \/
  (exists v c e, v ∈ Votes blk /\
     (getVoteCountBySenderAddress f kv (fst (GetAddress (SelfPubkey v)))
      = Some (c, Some e) \/
      getVoteCountByRecipientAddress f kv (fst (GetAddress (VotePubkey v)))
      = Some (c, Some e))) ->
  kv' = kv /\ is_Some err.
Proof.
  intros Hput Hwhy. destruct err as [e|].
  { split; [exact (putBlock_error_keeps _ _ _ _ _ _ Hput)|eexists; reflexivity]. }
  exfalso.
  pose proof (putBlock_singletons _ _ _ _ _ Hput)
    as (vtop & top' & vtt & tt' & vtv & tv' & Ltop & _ & Ltt & _ & Ltv & _).
  apply putBlock_ok_schema in Hput
    as (ser & top & tt & tv & tops & vops & ESer & LT & _ & Hder & LV & _ & _).
  destruct Hwhy as [[x Hx]|[H|[H|[H|[H|[H|H]]]]]].
  - rewrite ESer in Hx. discriminate.
  - congruence.
  - congruence.
  - congruence.
  - exact (H Hder).
  - destruct H as (d & t & c & e & Ht & Hc).
    pose proof (s_loop_counts transferSchema _ _ _ _ _ _ _ LT) as Hall.
    rewrite Forall_fmap, Forall_forall in Hall.
    destruct (Hall t Ht d) as (c' & Hc').
    rewrite count_of_schema in Hc.
    assert (E : i_party d (item_of_transfer t) = party d t) by (destruct d; reflexivity).
    rewrite E in Hc'. congruence.
  - destruct H as (v & c & e & Hv & Hc).
    pose proof (s_loop_counts voteSchema _ _ _ _ _ _ _ LV) as Hall.
    rewrite Forall_fmap, Forall_forall in Hall.
    destruct Hc as [Hc|Hc].
    + destruct (Hall v Hv AsSender) as (c' & Hc').
      assert (Hc'' : getVoteCountBySenderAddress f kv
                       (fst (GetAddress (SelfPubkey v))) = Some (c', None))
        by exact Hc'.
      congruence.
    + destruct (Hall v Hv AsRecipient) as (c' & Hc').
      assert (Hc'' : getVoteCountByRecipientAddress f kv
                       (fst (GetAddress (VotePubkey v))) = Some (c', None))
        by exact Hc'.
      congruence.
Qed.

End Stored.

(** ** Reading a block back *)

Section ReadBack.

Variable GetAddress : list byte -> string * error.
Variable Deserialize : list byte -> Block * error.

(** X5. A block that was put is read back. After a successful
    [putBlock] of a block whose hash was not stored, [getBlock] of its
    hash returns the block, when its serialization is not empty and
    deserializes to it; a block that serializes to nothing is stored and
    then reported as missing. When the hash was stored already, the old
    payload stays and [getBlock] answers as before. *)
Theorem getBlock_after_putBlock (f f' : db.Faults) (kv kv' : db.Store)
  (blk : Block) :
  putBlock GetAddress f kv blk = Some (kv', None) ->
  reads_work f' ->
  length (HashBlock blk) = 32%nat ->
  (kv !! (blockNS, HashBlock blk) = None ->
   fst (Serialize blk) <> [] ->
   Deserialize (fst (Serialize blk)) = (blk, None) ->
   getBlock Deserialize f' kv' (HashBlock blk) = (Some blk, None)) /\
  (kv !! (blockNS, HashBlock blk) = None ->
   fst (Serialize blk) = [] ->
   exists e, getBlock Deserialize f' kv' (HashBlock blk) = (None, Some e) /\
             errors.Cause e = ErrNotExist) /\
  (is_Some (kv !! (blockNS, HashBlock blk)) ->
   getBlock Deserialize f' kv' (HashBlock blk)
   = getBlock Deserialize f' kv (HashBlock blk)).
Proof.
  intros Hput Hf Hlen.
  destruct (putBlock_index _ _ _ _ _ Hput Hlen) as (Lpay & _ & _).
  split; [|split].
  - intros Hnew Hne Hdec. rewrite Hnew in Lpay. cbn [default] in Lpay.
    unfold getBlock. rewrite (Get_lookup _ _ _ _ _ (Hf _ _) Lpay).
    destruct (fst (Serialize blk)) as [|b l] eqn:E; [destruct (Hne eq_refl)|].
    cbn [length Nat.eqb]. rewrite Hdec. reflexivity.
  - intros Hnew Hnil. rewrite Hnew, Hnil in Lpay. cbn [default] in Lpay.
    unfold getBlock. rewrite (Get_lookup _ _ _ _ _ (Hf _ _) Lpay).
    eexists. split; reflexivity.
  - intros [old Hold]. rewrite Hold in Lpay. cbn [default] in Lpay.
    unfold getBlock. rewrite (Get_ext f' kv kv'); [reflexivity|].
    rewrite Lpay, Hold. reflexivity.
Qed.

End ReadBack.

(** ** Witnesses of the properties of putBlock *)

Lemma putBlock_maps_hashes_witness :
  getBlockHashByTransferHash db.healthy
    (Scenario.after Scenario.fresh Scenario.B5) (Scenario.h32 "a")
  = (Scenario.h32 "5", None) /\
  getBlockHashByVoteHash db.healthy
    (Scenario.after Scenario.fresh Scenario.B5) (Scenario.h32 "v")
  = (Scenario.h32 "5", None).
Proof.
  assert (H1 : putBlock Scenario.GetAddress db.healthy Scenario.fresh Scenario.B5
               = Some (Scenario.after Scenario.fresh Scenario.B5, None))
    by (apply after_ok; vm_compute; reflexivity).
  destruct (putBlock_maps_hashes Scenario.GetAddress db.healthy db.healthy
              _ _ _ H1 (fun _ _ => eq_refl) eq_refl) as [HT HV].
  split.
  - apply (HT Scenario.t1). constructor.
  - apply (HV Scenario.v1). constructor.
Defined.

Lemma getBlock_after_putBlock_witness :
  getBlock Scenario.Deserialize db.healthy
    (Scenario.after Scenario.fresh Scenario.B5) (HashBlock Scenario.B5)
  = (Some Scenario.B5, None).
Proof.
  assert (H1 : putBlock Scenario.GetAddress db.healthy Scenario.fresh Scenario.B5
               = Some (Scenario.after Scenario.fresh Scenario.B5, None))
    by (apply after_ok; vm_compute; reflexivity).
  refine (proj1 (getBlock_after_putBlock Scenario.GetAddress Scenario.Deserialize
                   db.healthy db.healthy _ _ _ H1 (fun _ _ => eq_refl) eq_refl)
            _ _ _).
  - vm_compute. reflexivity.
  - vm_compute. intros [=].
  - vm_compute. reflexivity.
Defined.

Lemma putBlock_never_removes_witness :
  Scenario.after (Scenario.after Scenario.fresh Scenario.B5) Scenario.B5
    !! (blockNS, HashBlock Scenario.B5)
  = Some (list_byte_of_string "block five").
Proof.
  assert (H2 : putBlock Scenario.GetAddress db.healthy
                 (Scenario.after Scenario.fresh Scenario.B5) Scenario.B5
               = Some (Scenario.after
                         (Scenario.after Scenario.fresh Scenario.B5)
                         Scenario.B5, None))
    by (apply after_ok; vm_compute; reflexivity).
  refine (proj2 (putBlock_never_removes Scenario.GetAddress db.healthy _ _ _ _
                   (blockNS, HashBlock Scenario.B5) _ H2 _) _).
  - vm_compute. reflexivity.
  - right; right. cbn [fst snd].
    split; [reflexivity|]. repeat split; vm_compute; intros [=].
Defined.

Lemma putBlock_other_blocks_witness :
  getBlockHeight db.healthy
    (Scenario.after (Scenario.after Scenario.fresh Scenario.B5) Scenario.B3)
    (HashBlock Scenario.B5)
  = getBlockHeight db.healthy (Scenario.after Scenario.fresh Scenario.B5)
      (HashBlock Scenario.B5).
Proof.
  assert (H2 : putBlock Scenario.GetAddress db.healthy
                 (Scenario.after Scenario.fresh Scenario.B5) Scenario.B3
               = Some (Scenario.after
                         (Scenario.after Scenario.fresh Scenario.B5)
                         Scenario.B3, None))
    by (apply after_ok; vm_compute; reflexivity).
  apply (proj1 (putBlock_other_blocks Scenario.GetAddress db.healthy db.healthy
                  _ _ _ _ H2)).
  vm_compute. intros [=].
Defined.

Lemma putBlock_refuses_witness :
  exists e,
    putBlock Scenario.GetAddress db.healthy Scenario.fresh Scenario.Bvbad
    = Some (Scenario.fresh, Some e).
Proof.
  assert (Hbad : ~ derivable Scenario.GetAddress (Votes Scenario.Bvbad)).
  { intros H. apply Forall_cons in H as [[H _] _]. discriminate H. }
  destruct (putBlock Scenario.GetAddress db.healthy Scenario.fresh
              Scenario.Bvbad) as [[kv' err]|] eqn:E.
  - destruct (putBlock_refuses Scenario.GetAddress _ _ _ _ _ E) as [-> [e ->]].
    + do 4 right. left. exact Hbad.
    + exists e. reflexivity.
  - assert (H : (fun _ => tt) <$>
                putBlock Scenario.GetAddress db.healthy Scenario.fresh
                  Scenario.Bvbad = Some tt)
      by (vm_compute; reflexivity).
    rewrite E in H. discriminate H.
Defined.

(** ** The index of an address as a list *)

Section Indexed.

Variable sc : Schema.
Hypothesis HS : schema_ok sc.

Lemma indexed_ext (kv kv' : db.Store) (d : side) (A : string) (l : list Hash32B) :
  kv' !! s_count_key sc d A = kv !! s_count_key sc d A ->
  (forall x, kv' !! s_entry_key sc d A x = kv !! s_entry_key sc d A x) ->
  indexed sc kv d A l -> indexed sc kv' d A l.
Proof.
  intros Hc He (H1 & H2 & H3). split; [|split].
  - rewrite Hc. exact H1.
  - intros i h Hi. rewrite He. exact (H2 i h Hi).
  - intros x Hx Hle. rewrite He. exact (H3 x Hx Hle).
Qed.

(** The count reader on an indexed address. *)
Lemma indexed_count (f : db.Faults) (kv : db.Store) (d : side) (A : string)
  (l : list Hash32B) :
  indexed sc kv d A l ->
  Z.of_nat (length l) < 2 ^ 64 ->
  db.Get_fails f (countNS sc) (s_prefix sc d ++ list_byte_of_string A) = None ->
  s_count_of sc d f kv A = Some (Z.of_nat (length l), None).
Proof.
  intros (Hc & _ & _) Hlt Hf. case_decide as E.
  - subst l. apply s_count_of_absent; assumption.
  - apply s_count_of_stored; [unfold is_uint64; lia|exact Hf|exact Hc].
Qed.

(** The effect of a successful run of the loop that starts with empty
    deltas. *)
Lemma s_loop_effect0 (f : db.Faults) (kv : db.Store) (d : side) (A : string)
  (c : Z) (items : list Item) (batch ops : list db.write) :
  s_loop sc f kv items ∅ ∅ batch = Some (batch ++ ops, None) ->
  s_count_of sc d f kv A = Some (c, None) ->
  let hs := i_hashes d A items in
  c + Z.of_nat (length hs) < 2 ^ 64 ->
  (forall m : db.Store,
     foldl db.apply_write m ops !! s_count_key sc d A
     = if decide (hs = []) then m !! s_count_key sc d A
       else Some (byteutil.Uint64ToBytes (c + Z.of_nat (length hs)))) /\
  (forall (m : db.Store) (i : nat) (h : Hash32B),
     hs !! i = Some h ->
     foldl db.apply_write m ops !! s_entry_key sc d A (c + Z.of_nat i)
     = Some (default h (m !! s_entry_key sc d A (c + Z.of_nat i)))) /\
  (forall (m : db.Store) (x : Z),
     is_uint64 x -> x < c \/ c + Z.of_nat (length hs) <= x ->
     foldl db.apply_write m ops !! s_entry_key sc d A x
     = m !! s_entry_key sc d A x).
Proof.
  intros H Hc hs Hlt.
  assert (Hn0 : default 0 (side_delta d (∅ : gmap string Z) ∅ !! A) = 0)
    by (destruct d; simpl; rewrite lookup_empty; reflexivity).
  destruct (s_loop_effect sc HS f kv d A c items _ _ _ _ H Hc)
    as (ops' & Eops & _ & Hcnt & Hent & Hout).
  { rewrite Hn0. lia. }
  { rewrite Hn0. fold hs. lia. }
  apply app_inv_head in Eops. subst ops'.
  rewrite Hn0 in Hcnt, Hent, Hout. rewrite Z.add_0_r in Hcnt, Hent, Hout.
  fold hs in Hcnt, Hent, Hout. auto.
Qed.

(** A successful run of the loop on an indexed address appends. *)
Lemma s_loop_indexed (f : db.Faults) (kv : db.Store) (d : side) (A : string)
  (l : list Hash32B) (items : list Item) (batch ops : list db.write) :
  s_loop sc f kv items ∅ ∅ batch = Some (batch ++ ops, None) ->
  db.Get_fails f (countNS sc) (s_prefix sc d ++ list_byte_of_string A) = None ->
  indexed sc kv d A l ->
  Z.of_nat (length l) + Z.of_nat (length (i_hashes d A items)) < 2 ^ 64 ->
  indexed sc (foldl db.apply_write kv ops) d A (l ++ i_hashes d A items).
Proof.
  intros H Hf Hidx Hlt.
  pose proof (indexed_count f kv d A l Hidx ltac:(lia) Hf) as Hc.
  destruct (s_loop_effect0 f kv d A _ items batch ops H Hc Hlt)
    as (Hcnt & Hent & Hout).
  destruct Hidx as (I1 & I2 & I3).
  split; [|split].
  - rewrite Hcnt. rewrite length_app, Nat2Z.inj_add.
    destruct (decide (i_hashes d A items = [])) as [E|E].
    + rewrite E, app_nil_r. simpl length. rewrite Z.add_0_r. exact I1.
    + rewrite decide_False; [reflexivity|].
      intros E'. apply app_eq_nil in E' as [_ E']. exact (E E').
  - intros i h Hi. apply lookup_app_Some in Hi as [Hi|[Hge Hi]].
    + apply lookup_lt_Some in Hi as Hlen.
      rewrite Hout by (unfold is_uint64; lia). exact (I2 i h Hi).
    + apply lookup_lt_Some in Hi as Hlen.
      replace (Z.of_nat i)
        with (Z.of_nat (length l) + Z.of_nat (i - length l)) by lia.
      rewrite (Hent kv _ h Hi).
      rewrite I3 by (unfold is_uint64; lia). reflexivity.
  - intros x Hx Hle. rewrite length_app, Nat2Z.inj_add in Hle.
    rewrite Hout by (first [exact Hx|lia]). apply I3; [exact Hx|lia].
Qed.

(** The enumeration loop reads an indexed address back. *)
Lemma s_enum_indexed (f : db.Faults) (kv : db.Store) (d : side) (A : string)
  (l : list Hash32B) :
  reads_work f ->
  indexed sc kv d A l ->
  Forall (fun h => length h = 32%nat) l ->
  Z.of_nat (length l) < 2 ^ 64 ->
  forall (n i : nat) (res : list Hash32B),
  (i + n = length l)%nat ->
  s_enum_loop sc f kv A (s_prefix sc d) n (Z.of_nat i) res = (res ++ drop i l, None).
Proof.
  intros Hf (_ & I2 & _) H32 Hlt.
  induction n as [|n IH]; intros i res Hin.
  - simpl. rewrite drop_ge by lia. rewrite app_nil_r. reflexivity.
  - destruct (lookup_lt_is_Some_2 l i ltac:(lia)) as [h Hh].
    cbn [s_enum_loop].
    pose proof (I2 i h Hh) as Lh. unfold s_entry_key in Lh.
    rewrite (Get_lookup _ _ _ _ _ (Hf _ _) Lh).
    pose proof (proj1 (Forall_lookup _ _) H32 i h Hh) as Hlen.
    rewrite Hlen. cbn [Nat.eqb].
    rewrite copy_full by (rewrite Hlen, length_ZeroHash32B; reflexivity).
    rewrite wrap64_small by (unfold is_uint64; lia).
    replace (Z.of_nat i + 1) with (Z.of_nat (S i)) by lia.
    rewrite IH by lia. rewrite <- app_assoc. cbn [app].
    rewrite (drop_S l h i Hh). reflexivity.
Qed.

(** The enumeration loop depends on the entries of the address only. *)
Lemma s_enum_loop_ext (f : db.Faults) (kv kv' : db.Store) (d : side)
  (A : string) :
  (forall x, kv' !! s_entry_key sc d A x = kv !! s_entry_key sc d A x) ->
  forall (n : nat) (i : Z) (res : list Hash32B),
  s_enum_loop sc f kv' A (s_prefix sc d) n i res
  = s_enum_loop sc f kv A (s_prefix sc d) n i res.
Proof.
  intros He. induction n as [|n IH]; intros i res; [reflexivity|].
  cbn [s_enum_loop].
  rewrite (Get_ext f kv kv') by exact (He i).
  destruct (db.Get f kv (indexNS sc) (entry_key (s_prefix sc d) A i))
    as [value [e|]]; [reflexivity|].
  destruct (length value =? 0)%nat; [reflexivity|]. apply IH.
Qed.

Lemma s_count_of_ext (f : db.Faults) (kv kv' : db.Store) (d : side) (A : string) :
  kv' !! s_count_key sc d A = kv !! s_count_key sc d A ->
  s_count_of sc d f kv' A = s_count_of sc d f kv A.
Proof.
  intros Hc. unfold s_count_of. rewrite (Get_ext f kv kv') by exact Hc.
  reflexivity.
Qed.

End Indexed.

(** ** The public readers over the schemas *)

Lemma transfers_of_schema (d : side) (f : db.Faults) (kv : db.Store) (A : string) :
  transfers_of d f kv A
  = '(c, err) ← s_count_of transferSchema d f kv A;
    match err with
    | Some _ => Some ([], errors.Wrapf err
                            (match d with
                             | AsSender => "for sender %x"
                             | AsRecipient => "for recipient %x"
                             end))
    | None =>
        let '(res, err) :=
          s_enum_loop transferSchema f kv A (s_prefix transferSchema d)
            (Z.to_nat c) 0 [] in
        match err with
        | Some _ => Some ([], err)
        | None => Some (res, None)
        end
    end.
Proof.
  destruct d; cbn [transfers_of];
    [unfold getTransfersBySenderAddress|unfold getTransfersByRecipientAddress].
  all: unfold getTransfersByAddress.
  all: rewrite <- count_of_schema; cbn [count_of].
  all: match goal with
       | |- context [mbind _ ?x] => destruct x as [[c [e|]]|]
       end; cbn [mbind option_bind]; try reflexivity.
  all: rewrite getTransfersByAddress_loop_schema; reflexivity.
Qed.

Lemma votes_of_schema (d : side) (f : db.Faults) (kv : db.Store) (A : string) :
  votes_of d f kv A
  = '(c, err) ← s_count_of voteSchema d f kv A;
    match err with
    | Some _ => Some ([], errors.Wrapf err
                            (match d with
                             | AsSender => "to get votecount for sender %x"
                             | AsRecipient => "to get votecount for recipient %x"
                             end))
    | None =>
        let '(res, err) :=
          s_enum_loop voteSchema f kv A (s_prefix voteSchema d)
            (Z.to_nat c) 0 [] in
        match err with
        | Some _ => Some ([], errors.Wrapf err
                                (match d with
                                 | AsSender => "to get votes for sender %x"
                                 | AsRecipient => "to get votes for recipient %x"
                                 end))
        | None => Some (res, None)
        end
    end.
Proof.
  destruct d; cbn [votes_of];
    [unfold getVotesBySenderAddress|unfold getVotesByRecipientAddress].
  all: unfold getVotesByAddress.
  all: match goal with
       | |- context [mbind _ ?x] =>
           match goal with
           | |- _ = mbind _ ?y => change y with x
           end;
           destruct x as [[c [e|]]|]
       end; cbn [mbind option_bind]; try reflexivity.
  all: rewrite getVotesByAddress_loop_schema; reflexivity.
Qed.

Lemma vote_count_of_schema (d : side) (f : db.Faults) (kv : db.Store)
  (A : string) :
  vote_count_of d f kv A = s_count_of voteSchema d f kv A.
Proof. destruct d; reflexivity. Qed.

Lemma transfers_of_indexed (f : db.Faults) (kv : db.Store) (d : side)
  (A : string) (l : list Hash32B) :
  reads_work f ->
  indexed transferSchema kv d A l ->
  Forall (fun h => length h = 32%nat) l ->
  Z.of_nat (length l) < 2 ^ 64 ->
  transfers_of d f kv A = Some (l, None).
Proof.
  intros Hf Hidx H32 Hlt. rewrite transfers_of_schema.
  rewrite (indexed_count transferSchema f kv d A l Hidx Hlt (Hf _ _)).
  cbn [mbind option_bind]. rewrite Nat2Z.id.
  pose proof (s_enum_indexed transferSchema f kv d A l Hf Hidx H32 Hlt
                (length l) 0 [] eq_refl) as Henum.
  change (Z.of_nat 0) with 0 in Henum. rewrite Henum. reflexivity.
Qed.

Lemma votes_of_indexed (f : db.Faults) (kv : db.Store) (d : side)
  (A : string) (l : list Hash32B) :
  reads_work f ->
  indexed voteSchema kv d A l ->
  Forall (fun h => length h = 32%nat) l ->
  Z.of_nat (length l) < 2 ^ 64 ->
  votes_of d f kv A = Some (l, None).
Proof.
  intros Hf Hidx H32 Hlt. rewrite votes_of_schema.
  rewrite (indexed_count voteSchema f kv d A l Hidx Hlt (Hf _ _)).
  cbn [mbind option_bind]. rewrite Nat2Z.id.
  pose proof (s_enum_indexed voteSchema f kv d A l Hf Hidx H32 Hlt
                (length l) 0 [] eq_refl) as Henum.
  change (Z.of_nat 0) with 0 in Henum. rewrite Henum. reflexivity.
Qed.

(** ** The effect of putBlock on the two indexes *)

Lemma i_hashes_32 (d : side) (A : string) (items : list Item) :
  Forall (fun it => length (i_hash it) = 32%nat) items ->
  Forall (fun h => length h = 32%nat) (i_hashes d A items).
Proof.
  induction 1 as [|it items Hit _ IH]; [constructor|].
  rewrite i_hashes_cons. case_decide; [constructor; assumption|exact IH].
Qed.

Lemma PutIfNotExists_other_ns (f : db.Faults) (kv : db.Store) (ns ns' : string)
  (key key' value : list byte) :
  ns' <> ns ->
  fst (db.PutIfNotExists f kv ns key value) !! (ns', key') = kv !! (ns', key').
Proof.
  intros Hne. unfold db.PutIfNotExists.
  destruct (db.PutIfNotExists_fails f ns key); [reflexivity|].
  destruct (kv !! (ns, key)); [reflexivity|]. simpl.
  apply lookup_insert_ne. intros [= E _]. exact (Hne (eq_sym E)).
Qed.

(** [Start] writes into the block namespace only. *)
Lemma Start_other_ns (f : db.Faults) (kv : db.Store) (ns : string)
  (key : list byte) :
  ns <> blockNS -> fst (Start f kv) !! (ns, key) = kv !! (ns, key).
Proof.
  intros Hne. unfold Start.
  destruct (db.OnStart_fails f); [reflexivity|]. cbn [fmap option_fmap option_map].
  pose proof (PutIfNotExists_other_ns f kv blockNS ns topHeightKey key
                (make_bytes 8) Hne) as H1.
  destruct (db.PutIfNotExists f kv blockNS topHeightKey (make_bytes 8))
    as [m1 [e1|]]; [destruct e1; exact H1|].
  simpl in H1. rewrite <- H1.
  pose proof (PutIfNotExists_other_ns f m1 blockNS ns totalTransfersKey key
                (make_bytes 8) Hne) as H2.
  destruct (db.PutIfNotExists f m1 blockNS totalTransfersKey (make_bytes 8))
    as [m2 [e2|]]; [exact H2|].
  simpl in H2. rewrite <- H2.
  pose proof (PutIfNotExists_other_ns f m2 blockNS ns totalVotesKey key
                (make_bytes 8) Hne) as H3.
  destruct (db.PutIfNotExists f m2 blockNS totalVotesKey (make_bytes 8))
    as [m3 [e3|]]; exact H3.
Qed.

(** After a first start the index of every address is the empty list. *)
Lemma Start_indexed (sc : Schema) (f : db.Faults) (kv0 : db.Store) (e : error)
  (d : side) (A : string) :
  Start f ∅ = (kv0, e) ->
  indexNS sc <> blockNS -> countNS sc <> blockNS ->
  indexed sc kv0 d A [].
Proof.
  intros HS H1 H2.
  assert (E : kv0 = fst (Start f ∅)) by (rewrite HS; reflexivity).
  subst kv0. unfold indexed, s_count_key, s_entry_key.
  rewrite decide_True by reflexivity.
  split; [|split].
  - rewrite Start_other_ns by exact H2. apply lookup_empty.
  - intros i h Hi. discriminate Hi.
  - intros x _ _. rewrite Start_other_ns by exact H1. apply lookup_empty.
Qed.

Section IndexEffects.

Variable GetAddress : list byte -> string * error.

Lemma putBlock_transfer_effect (f : db.Faults) (kv kv' : db.Store) (blk : Block)
  (d : side) (A : string) (c : Z) :
  putBlock GetAddress f kv blk = Some (kv', None) ->
  count_of d f kv A = Some (c, None) ->
  let hs := hashes_of d A (Transfers blk) in
  c + Z.of_nat (length hs) < 2 ^ 64 ->
  kv' !! s_count_key transferSchema d A
  = (if decide (hs = []) then kv !! s_count_key transferSchema d A
     else Some (byteutil.Uint64ToBytes (c + Z.of_nat (length hs)))) /\
  (forall (i : nat) (h : Hash32B),
     hs !! i = Some h ->
     kv' !! s_entry_key transferSchema d A (c + Z.of_nat i)
     = Some (default h (kv !! s_entry_key transferSchema d A (c + Z.of_nat i)))) /\
  (forall x : Z,
     is_uint64 x -> x < c \/ c + Z.of_nat (length hs) <= x ->
     kv' !! s_entry_key transferSchema d A x
     = kv !! s_entry_key transferSchema d A x).
Proof.
  intros Hput Hc hs Hlt. subst hs.
  apply putBlock_ok_schema in Hput
    as (ser & top & tt & tv & tops & vops & _ & LT & _ & _ & _ & HV & ->).
  rewrite count_of_schema in Hc.
  rewrite <- i_hashes_transfers in *.
  destruct (s_loop_effect0 transferSchema transferSchema_ok f kv d A c _ _ _
              LT Hc Hlt) as (Hcnt & Hent & Hout).
  pose proof (putBlock_transfer_places kv _ tops vops blk ser top tt tv
                eq_refl HV) as Hpl.
  unfold s_count_key, s_entry_key in *.
  split; [|split].
  - rewrite Hpl by (right; reflexivity). apply Hcnt.
  - intros i h Hi. rewrite Hpl by (left; reflexivity). apply Hent, Hi.
  - intros x Hx Hr. rewrite Hpl by (left; reflexivity). apply Hout; assumption.
Qed.

Lemma putBlock_vote_effect (f : db.Faults) (kv kv' : db.Store) (blk : Block)
  (d : side) (A : string) (c : Z) :
  putBlock GetAddress f kv blk = Some (kv', None) ->
  vote_count_of d f kv A = Some (c, None) ->
  let hs := vote_hashes GetAddress d A (Votes blk) in
  c + Z.of_nat (length hs) < 2 ^ 64 ->
  kv' !! s_count_key voteSchema d A
  = (if decide (hs = []) then kv !! s_count_key voteSchema d A
     else Some (byteutil.Uint64ToBytes (c + Z.of_nat (length hs)))) /\
  (forall (i : nat) (h : Hash32B),
     hs !! i = Some h ->
     kv' !! s_entry_key voteSchema d A (c + Z.of_nat i)
     = Some (default h (kv !! s_entry_key voteSchema d A (c + Z.of_nat i)))) /\
  (forall x : Z,
     is_uint64 x -> x < c \/ c + Z.of_nat (length hs) <= x ->
     kv' !! s_entry_key voteSchema d A x
     = kv !! s_entry_key voteSchema d A x).
Proof.
  intros Hput Hc hs Hlt. subst hs. unfold vote_hashes in *.
  apply putBlock_ok_schema in Hput
    as (ser & top & tt & tv & tops & vops & _ & _ & HT & _ & LV & _ & ->).
  rewrite vote_count_of_schema in Hc.
  destruct (s_loop_effect0 voteSchema voteSchema_ok f kv d A c _ _ _
              LV Hc Hlt) as (Hcnt & Hent & Hout).
  pose proof (putBlock_vote_places kv _ tops vops blk ser top tt tv
                eq_refl HT) as Hpl.
  unfold s_count_key, s_entry_key in *.
  split; [|split].
  - rewrite Hpl by (right; reflexivity). apply Hcnt.
  - intros i h Hi. rewrite Hpl by (left; reflexivity). apply Hent, Hi.
  - intros x Hx Hr. rewrite Hpl by (left; reflexivity). apply Hout; assumption.
Qed.

(** X9. A successful [putBlock] appends the votes of an address as it
    appends its transfers. [c] is the counter of [A] as [putBlock] reads
    it and [hs] are the hashes of the [k] votes of the block that [A]
    casts (respectively receives), in block order. Afterwards the stored
    counter is [c + k], the entries at [c], ..., [c + k - 1] hold [hs],
    each by a conditional insert, and no other entry of [A] has changed. *)
Theorem putBlock_appends_votes (f : db.Faults) (kv kv' : db.Store)
  (blk : Block) (d : side) (A : string) (c : Z) :
  putBlock GetAddress f kv blk = Some (kv', None) ->
  vote_count_of d f kv A = Some (c, None) ->
  let hs := vote_hashes GetAddress d A (Votes blk) in
  let k := Z.of_nat (length hs) in
  hs <> [] ->
  c + k < 2 ^ 64 ->
  kv' !! s_count_key voteSchema d A = Some (byteutil.Uint64ToBytes (c + k)) /\
  (forall f', reads_work f' -> vote_count_of d f' kv' A = Some (c + k, None)) /\
  (forall i h, hs !! i = Some h ->
     kv' !! s_entry_key voteSchema d A (c + Z.of_nat i)
     = Some (default h (kv !! s_entry_key voteSchema d A (c + Z.of_nat i)))) /\
  (forall x, is_uint64 x -> x < c \/ c + k <= x ->
     kv' !! s_entry_key voteSchema d A x = kv !! s_entry_key voteSchema d A x).
Proof.
  intros Hput Hc hs k Hne Hlt.
  destruct (putBlock_vote_effect f kv kv' blk d A c Hput Hc Hlt)
    as (Hcnt & Hent & Hout).
  fold hs in Hcnt, Hent, Hout. rewrite decide_False in Hcnt by exact Hne.
  split; [exact Hcnt|]. split; [|split; [exact Hent|exact Hout]].
  intros f' Hf'. rewrite vote_count_of_schema.
  rewrite vote_count_of_schema in Hc.
  pose proof (s_count_of_range voteSchema _ _ _ _ _ _ Hc) as Hcr.
  apply s_count_of_stored; [unfold is_uint64 in *; lia|apply Hf'|exact Hcnt].
Qed.

(** X10. An address that is no party of the transfers (of the votes) of
    a block gets the same answers from the count reader and from the
    enumeration after [putBlock] as before it, whatever [putBlock]
    returns. *)
Theorem putBlock_uninvolved (f f' : db.Faults) (kv kv' : db.Store)
  (blk : Block) (err : error) (d : side) (A : string) :
  putBlock GetAddress f kv blk = Some (kv', err) ->
  (hashes_of d A (Transfers blk) = [] ->
   count_of d f' kv' A = count_of d f' kv A /\
   transfers_of d f' kv' A = transfers_of d f' kv A) /\
  (vote_hashes GetAddress d A (Votes blk) = [] ->
   vote_count_of d f' kv' A = vote_count_of d f' kv A /\
   votes_of d f' kv' A = votes_of d f' kv A).
Proof.
  intros Hput. destruct err as [e|].
  { apply putBlock_error_keeps in Hput. subst kv'. split; intros _; split; reflexivity. }
  apply putBlock_ok_schema in Hput
    as (ser & top & tt & tv & tops & vops & _ & LT & HT & _ & LV & HV & ->).
  split.
  - intros Hnil. rewrite <- i_hashes_transfers in Hnil.
    destruct (s_loop_uninvolved transferSchema transferSchema_ok f kv d A _ _ _ _ _
                LT Hnil) as (ops & Eops & Hops).
    apply app_inv_head in Eops. subst ops.
    pose proof (putBlock_transfer_places kv _ tops vops blk ser top tt tv
                  eq_refl HV) as Hpl.
    destruct (Hops kv) as [Hc He].
    assert (Hc' : foldl db.apply_write
                    (foldl db.apply_write
                       (foldl db.apply_write kv (block_writes blk ser top tt tv))
                       tops) vops !! s_count_key transferSchema d A
                  = kv !! s_count_key transferSchema d A).
    { unfold s_count_key in *. rewrite Hpl by (right; reflexivity). exact Hc. }
    assert (He' : forall x,
               foldl db.apply_write
                 (foldl db.apply_write
                    (foldl db.apply_write kv (block_writes blk ser top tt tv))
                    tops) vops !! s_entry_key transferSchema d A x
               = kv !! s_entry_key transferSchema d A x).
    { intros x. unfold s_entry_key in *. rewrite Hpl by (left; reflexivity).
      apply He. }
    rewrite !count_of_schema, !transfers_of_schema.
    rewrite (s_count_of_ext transferSchema f' kv _ d A Hc').
    split; [reflexivity|].
    destruct (s_count_of transferSchema d f' kv A) as [[c [e|]]|];
      cbn [mbind option_bind]; try reflexivity.
    rewrite (s_enum_loop_ext transferSchema f' kv _ d A He'). reflexivity.
  - intros Hnil. unfold vote_hashes in Hnil.
    destruct (s_loop_uninvolved voteSchema voteSchema_ok f kv d A _ _ _ _ _
                LV Hnil) as (ops & Eops & Hops).
    apply app_inv_head in Eops. subst ops.
    pose proof (putBlock_vote_places kv _ tops vops blk ser top tt tv
                  eq_refl HT) as Hpl.
    destruct (Hops kv) as [Hc He].
    assert (Hc' : foldl db.apply_write
                    (foldl db.apply_write
                       (foldl db.apply_write kv (block_writes blk ser top tt tv))
                       tops) vops !! s_count_key voteSchema d A
                  = kv !! s_count_key voteSchema d A).
    { unfold s_count_key in *. rewrite Hpl by (right; reflexivity). exact Hc. }
    assert (He' : forall x,
               foldl db.apply_write
                 (foldl db.apply_write
                    (foldl db.apply_write kv (block_writes blk ser top tt tv))
                    tops) vops !! s_entry_key voteSchema d A x
               = kv !! s_entry_key voteSchema d A x).
    { intros x. unfold s_entry_key in *. rewrite Hpl by (left; reflexivity).
      apply He. }
    rewrite !vote_count_of_schema, !votes_of_schema.
    rewrite (s_count_of_ext voteSchema f' kv _ d A Hc').
    split; [reflexivity|].
    destruct (s_count_of voteSchema d f' kv A) as [[c [e|]]|];
      cbn [mbind option_bind]; try reflexivity.
    rewrite (s_enum_loop_ext voteSchema f' kv _ d A He'). reflexivity.
Qed.

(** X11. When the read of the counter of [A] fails during a successful
    [putBlock] that holds transfers of [A], the counter is started again
    from zero: afterwards the stored counter of [A] is the number [k] of
    its transfers in the block, whatever it was, and an entry below [k]
    that was there keeps its old hash. The votes fare alike. *)
Theorem putBlock_read_fault_resets (f : db.Faults) (kv kv' : db.Store)
  (blk : Block) (d : side) (A : string) (what : string) :
  putBlock GetAddress f kv blk = Some (kv', None) ->
  (db.Get_fails f blockAddressTransferCountMappingNS
     (prefix_of d ++ list_byte_of_string A) = Some what ->
   let hs := hashes_of d A (Transfers blk) in
   hs <> [] -> Z.of_nat (length hs) < 2 ^ 64 ->
   kv' !! count_key d A = Some (byteutil.Uint64ToBytes (Z.of_nat (length hs))) /\
   (forall i h, hs !! i = Some h ->
      kv' !! s_entry_key transferSchema d A (Z.of_nat i)
      = Some (default h (kv !! s_entry_key transferSchema d A (Z.of_nat i))))) /\
  (db.Get_fails f blockAddressVoteCountMappingNS
     (s_prefix voteSchema d ++ list_byte_of_string A) = Some what ->
   let hs := vote_hashes GetAddress d A (Votes blk) in
   hs <> [] -> Z.of_nat (length hs) < 2 ^ 64 ->
   kv' !! s_count_key voteSchema d A
   = Some (byteutil.Uint64ToBytes (Z.of_nat (length hs))) /\
   (forall i h, hs !! i = Some h ->
      kv' !! s_entry_key voteSchema d A (Z.of_nat i)
      = Some (default h (kv !! s_entry_key voteSchema d A (Z.of_nat i))))).
Proof.
  intros Hput. split.
  - intros Hf hs Hne Hlt.
    assert (Hc : count_of d f kv A = Some (0, None)).
    { rewrite count_of_schema.
      apply (s_count_of_fault transferSchema d f kv A what).
      destruct d; exact Hf. }
    destruct (putBlock_transfer_effect f kv kv' blk d A 0 Hput Hc)
      as (Hcnt & Hent & _); [fold hs; lia|].
    fold hs in Hcnt, Hent. rewrite decide_False in Hcnt by exact Hne.
    split.
    + destruct d; exact Hcnt.
    + intros i h Hi. exact (Hent i h Hi).
  - intros Hf hs Hne Hlt.
    assert (Hc : vote_count_of d f kv A = Some (0, None)).
    { rewrite vote_count_of_schema.
      apply (s_count_of_fault voteSchema d f kv A what). exact Hf. }
    destruct (putBlock_vote_effect f kv kv' blk d A 0 Hput Hc)
      as (Hcnt & Hent & _); [fold hs; lia|].
    fold hs in Hcnt, Hent. rewrite decide_False in Hcnt by exact Hne.
    split; [exact Hcnt|]. intros i h Hi. exact (Hent i h Hi).
Qed.

(** One successful [putBlock] with reads that work appends to the index
    of an address. *)
Lemma putBlock_indexed_transfers (f : db.Faults) (kv kv' : db.Store)
  (blk : Block) (d : side) (A : string) (l : list Hash32B) :
  putBlock GetAddress f kv blk = Some (kv', None) ->
  reads_work f ->
  indexed transferSchema kv d A l ->
  Z.of_nat (length l) + Z.of_nat (length (hashes_of d A (Transfers blk))) < 2 ^ 64 ->
  indexed transferSchema kv' d A (l ++ hashes_of d A (Transfers blk)).
Proof.
  intros Hput Hf Hidx Hlt.
  apply putBlock_ok_schema in Hput
    as (ser & top & tt & tv & tops & vops & _ & LT & _ & _ & _ & HV & ->).
  rewrite <- i_hashes_transfers in *.
  pose proof (putBlock_transfer_places kv _ tops vops blk ser top tt tv
                eq_refl HV) as Hpl.
  apply (indexed_ext transferSchema (foldl db.apply_write kv tops)).
  - unfold s_count_key. apply Hpl. right; reflexivity.
  - intros x. unfold s_entry_key. apply Hpl. left; reflexivity.
  - exact (s_loop_indexed transferSchema transferSchema_ok f kv d A l _ _ _
             LT (Hf _ _) Hidx Hlt).
Qed.

Lemma putBlock_indexed_votes (f : db.Faults) (kv kv' : db.Store)
  (blk : Block) (d : side) (A : string) (l : list Hash32B) :
  putBlock GetAddress f kv blk = Some (kv', None) ->
  reads_work f ->
  indexed voteSchema kv d A l ->
  Z.of_nat (length l)
  + Z.of_nat (length (vote_hashes GetAddress d A (Votes blk))) < 2 ^ 64 ->
  indexed voteSchema kv' d A (l ++ vote_hashes GetAddress d A (Votes blk)).
Proof.
  intros Hput Hf Hidx Hlt. unfold vote_hashes in *.
  apply putBlock_ok_schema in Hput
    as (ser & top & tt & tv & tops & vops & _ & _ & HT & _ & LV & _ & ->).
  pose proof (putBlock_vote_places kv _ tops vops blk ser top tt tv
                eq_refl HT) as Hpl.
  apply (indexed_ext voteSchema (foldl db.apply_write kv vops)).
  - unfold s_count_key. apply Hpl. right; reflexivity.
  - intros x. unfold s_entry_key. apply Hpl. left; reflexivity.
  - exact (s_loop_indexed voteSchema voteSchema_ok f kv d A l _ _ _
             LV (Hf _ _) Hidx Hlt).
Qed.

Lemma hashes_of_app (d : side) (A : string) (l1 l2 : list Transfer) :
  hashes_of d A (l1 ++ l2) = hashes_of d A l1 ++ hashes_of d A l2.
Proof. rewrite <- !i_hashes_transfers, fmap_app. apply i_hashes_app. Qed.

Lemma vote_hashes_app (d : side) (A : string) (l1 l2 : list Vote) :
  vote_hashes GetAddress d A (l1 ++ l2)
  = vote_hashes GetAddress d A l1 ++ vote_hashes GetAddress d A l2.
Proof. unfold vote_hashes. rewrite fmap_app. apply i_hashes_app. Qed.

Lemma put_run_indexed_transfers (kv kv' : db.Store) (blks : list Block) :
  put_run GetAddress kv blks kv' ->
  forall (d : side) (A : string) (l : list Hash32B),
  indexed transferSchema kv d A l ->
  Z.of_nat (length l)
  + Z.of_nat (length (hashes_of d A (all_transfers blks))) < 2 ^ 64 ->
  indexed transferSchema kv' d A (l ++ hashes_of d A (all_transfers blks)).
Proof.
  induction 1 as [kv|f kv blk kv1 blks kv2 Hf Hput _ IH]; intros d A l Hidx Hlt.
  - destruct d; cbn; rewrite app_nil_r; exact Hidx.
  - change (all_transfers (blk :: blks))
      with (Transfers blk ++ all_transfers blks) in *.
    rewrite hashes_of_app, length_app, Nat2Z.inj_add in *.
    rewrite app_assoc. apply IH.
    + apply (putBlock_indexed_transfers f kv); [exact Hput|exact Hf|exact Hidx|lia].
    + rewrite length_app, Nat2Z.inj_add. lia.
Qed.

Lemma put_run_indexed_votes (kv kv' : db.Store) (blks : list Block) :
  put_run GetAddress kv blks kv' ->
  forall (d : side) (A : string) (l : list Hash32B),
  indexed voteSchema kv d A l ->
  Z.of_nat (length l)
  + Z.of_nat (length (vote_hashes GetAddress d A (all_votes blks))) < 2 ^ 64 ->
  indexed voteSchema kv' d A (l ++ vote_hashes GetAddress d A (all_votes blks)).
Proof.
  induction 1 as [kv|f kv blk kv1 blks kv2 Hf Hput _ IH]; intros d A l Hidx Hlt.
  - cbn. rewrite app_nil_r. exact Hidx.
  - change (all_votes (blk :: blks)) with (Votes blk ++ all_votes blks) in *.
    rewrite vote_hashes_app, length_app, Nat2Z.inj_add in *.
    rewrite app_assoc. apply IH.
    + apply (putBlock_indexed_votes f kv); [exact Hput|exact Hf|exact Hidx|lia].
    + rewrite length_app, Nat2Z.inj_add. lia.
Qed.

(** X12. Put and enumerate. On a store that was started for the first
    time, after any run of successful [putBlock] calls whose reads
    worked, the enumeration of the transfers that [A] sends (receives)
    returns the hashes of exactly these transfers of all the blocks put,
    in the order in which they were put, and the count reader returns
    their number. *)
Theorem transfers_after_run (f0 f : db.Faults) (kv0 kv : db.Store)
  (blks : list Block) (d : side) (A : string) :
  Start f0 ∅ = (kv0, None) ->
  put_run GetAddress kv0 blks kv ->
  reads_work f ->
  Forall (fun t => length (Transfer_Hash t) = 32%nat) (all_transfers blks) ->
  Z.of_nat (length (hashes_of d A (all_transfers blks))) < 2 ^ 64 ->
  count_of d f kv A
  = Some (Z.of_nat (length (hashes_of d A (all_transfers blks))), None) /\
  transfers_of d f kv A = Some (hashes_of d A (all_transfers blks), None).
Proof.
  intros HS Hrun Hf H32 Hlt.
  pose proof (Start_indexed transferSchema f0 kv0 None d A HS
                ltac:(discriminate) ltac:(discriminate)) as H0.
  pose proof (put_run_indexed_transfers _ _ _ Hrun d A [] H0
                ltac:(simpl length; lia)) as Hidx.
  rewrite app_nil_l in Hidx.
  split.
  - rewrite count_of_schema.
    exact (indexed_count transferSchema f kv d A _ Hidx Hlt (Hf _ _)).
  - apply transfers_of_indexed; [exact Hf|exact Hidx| |exact Hlt].
    rewrite <- i_hashes_transfers. apply i_hashes_32.
    apply Forall_fmap. exact H32.
Qed.

(** X13. Put and enumerate, for votes: after a first start and any run of
    successful [putBlock] calls whose reads worked, the enumeration of
    the votes that [A] casts (receives) returns the hashes of exactly
    these votes of all the blocks put, in the order in which they were
    put, and the count reader returns their number. *)
Theorem votes_after_run (f0 f : db.Faults) (kv0 kv : db.Store)
  (blks : list Block) (d : side) (A : string) :
  Start f0 ∅ = (kv0, None) ->
  put_run GetAddress kv0 blks kv ->
  reads_work f ->
  Forall (fun v => length (Vote_Hash v) = 32%nat) (all_votes blks) ->
  Z.of_nat (length (vote_hashes GetAddress d A (all_votes blks))) < 2 ^ 64 ->
  vote_count_of d f kv A
  = Some (Z.of_nat (length (vote_hashes GetAddress d A (all_votes blks))), None) /\
  votes_of d f kv A = Some (vote_hashes GetAddress d A (all_votes blks), None).
Proof.
  intros HS Hrun Hf H32 Hlt.
  pose proof (Start_indexed voteSchema f0 kv0 None d A HS
                ltac:(discriminate) ltac:(discriminate)) as H0.
  pose proof (put_run_indexed_votes _ _ _ Hrun d A [] H0
                ltac:(simpl length; lia)) as Hidx.
  rewrite app_nil_l in Hidx.
  split.
  - rewrite vote_count_of_schema.
    exact (indexed_count voteSchema f kv d A _ Hidx Hlt (Hf _ _)).
  - apply votes_of_indexed; [exact Hf|exact Hidx| |exact Hlt].
    unfold vote_hashes. apply i_hashes_32.
    apply Forall_fmap. exact H32.
Qed.

End IndexEffects.

(** ** Witnesses of the properties of the index *)

Lemma putBlock_appends_votes_witness :
  let kv' := Scenario.after Scenario.fresh Scenario.B5 in
  kv' !! s_count_key voteSchema AsSender "A" = Some (byteutil.Uint64ToBytes 1) /\
  vote_count_of AsSender db.healthy kv' "A" = Some (1, None) /\
  kv' !! s_entry_key voteSchema AsSender "A" 0 = Some (Scenario.h32 "v").
Proof.
  cbv zeta.
  assert (H1 : putBlock Scenario.GetAddress db.healthy Scenario.fresh Scenario.B5
               = Some (Scenario.after Scenario.fresh Scenario.B5, None))
    by (apply after_ok; vm_compute; reflexivity).
  assert (Hc : vote_count_of AsSender db.healthy Scenario.fresh "A"
               = Some (0, None)) by reflexivity.
  destruct (putBlock_appends_votes Scenario.GetAddress _ _ _ _ AsSender "A" 0
              H1 Hc) as (Hcnt & Hread & Hent & _).
  { discriminate. }
  { vm_compute. reflexivity. }
  split; [exact Hcnt|].
  split; [apply (Hread db.healthy); intros ns key; reflexivity|].
  refine (eq_trans (Hent 0%nat (Scenario.h32 "v") eq_refl) _).
  vm_compute. reflexivity.
Defined.

Lemma putBlock_uninvolved_witness :
  transfers_of AsRecipient db.healthy
    (Scenario.after (Scenario.after Scenario.fresh Scenario.B5) Scenario.B3) "C"
  = transfers_of AsRecipient db.healthy
      (Scenario.after Scenario.fresh Scenario.B5) "C".
Proof.
  assert (H2 : putBlock Scenario.GetAddress db.healthy
                 (Scenario.after Scenario.fresh Scenario.B5) Scenario.B3
               = Some (Scenario.after
                         (Scenario.after Scenario.fresh Scenario.B5)
                         Scenario.B3, None))
    by (apply after_ok; vm_compute; reflexivity).
  exact (proj2 (proj1 (putBlock_uninvolved Scenario.GetAddress db.healthy
                         db.healthy _ _ _ _ AsRecipient "C" H2) eq_refl)).
Defined.

Lemma putBlock_read_fault_resets_witness :
  let kv1 := Scenario.after Scenario.fresh Scenario.B5 in
  kv1 !! count_key AsSender "A" = Some (byteutil.Uint64ToBytes 2) /\
  exists kv2,
    putBlock Scenario.GetAddress Scenario.counter_reads_fail kv1 Scenario.B5
    = Some (kv2, None) /\
    kv2 !! count_key AsSender "A" = Some (byteutil.Uint64ToBytes 2).
Proof.
  cbv zeta. split; [vm_compute; reflexivity|].
  assert (H : snd <$> putBlock Scenario.GetAddress Scenario.counter_reads_fail
                        (Scenario.after Scenario.fresh Scenario.B5) Scenario.B5
              = Some None) by (vm_compute; reflexivity).
  destruct (putBlock Scenario.GetAddress Scenario.counter_reads_fail
              (Scenario.after Scenario.fresh Scenario.B5) Scenario.B5)
    as [[kv2 [e|]]|] eqn:E; [discriminate H| |discriminate H].
  exists kv2. split; [reflexivity|].
  refine (proj1 (proj1 (putBlock_read_fault_resets Scenario.GetAddress _ _ _ _
                          AsSender "A" "read" E) eq_refl _ _)).
  - discriminate.
  - vm_compute. reflexivity.
Defined.

Lemma transfers_after_run_witness :
  transfers_of AsSender db.healthy
    (Scenario.after (Scenario.after Scenario.fresh Scenario.B5) Scenario.B3) "A"
  = Some ([Scenario.h32 "a"; Scenario.h32 "b"; Scenario.h32 "a"], None).
Proof.
  assert (Hw : reads_work db.healthy) by (intros ns key; reflexivity).
  refine (proj2 (transfers_after_run Scenario.GetAddress db.healthy db.healthy
                   Scenario.fresh _ [Scenario.B5; Scenario.B3] AsSender "A"
                   fresh_started _ Hw _ _)).
  - eapply put_run_cons; [exact Hw|apply after_ok; vm_compute; reflexivity|].
    eapply put_run_cons; [exact Hw|apply after_ok; vm_compute; reflexivity|].
    apply put_run_nil.
  - repeat constructor.
  - vm_compute. reflexivity.
Defined.

Lemma votes_after_run_witness :
  votes_of AsRecipient db.healthy
    (Scenario.after (Scenario.after Scenario.fresh Scenario.B5) Scenario.B3) "B"
  = Some ([Scenario.h32 "v"], None).
Proof.
  assert (Hw : reads_work db.healthy) by (intros ns key; reflexivity).
  refine (proj2 (votes_after_run Scenario.GetAddress db.healthy db.healthy
                   Scenario.fresh _ [Scenario.B5; Scenario.B3] AsRecipient "B"
                   fresh_started _ Hw _ _)).
  - eapply put_run_cons; [exact Hw|apply after_ok; vm_compute; reflexivity|].
    eapply put_run_cons; [exact Hw|apply after_ok; vm_compute; reflexivity|].
    apply put_run_nil.
  - repeat constructor.
  - vm_compute. reflexivity.
Defined.

(** ** putBlock on a well-formed store *)

Lemma Uint64_of_eight (v : list byte) :
  length v = 8%nat -> is_Some (enc.MachineEndian_Uint64 v).
Proof.
  intros Hlen. unfold enc.MachineEndian_Uint64. rewrite Hlen.
  eexists; reflexivity.
Qed.

(** The value under a key that is there, after a batch whose overwrites
    of the key are of one kind. *)
Lemma lookup_apply_inv (P : list byte -> Prop) (ops : list db.write)
  (K : string * list byte) :
  Forall (fun w => db.target w = K -> db.is_WPut w = true -> P (db.wvalue w)) ops ->
  forall (kv : db.Store) (v0 : list byte),
  kv !! K = Some v0 -> P v0 ->
  exists v, foldl db.apply_write kv ops !! K = Some v /\ P v.
Proof.
  induction 1 as [|w ops Hw _ IH]; intros kv v0 HK HP.
  - exists v0. auto.
  - cbn [foldl].
    destruct (decide (db.target w = K)) as [E|E].
    + destruct (db.is_WPut w) eqn:Ew.
      * apply (IH _ (db.wvalue w)); [|exact (Hw E eq_refl)].
        rewrite lookup_apply_write, decide_True, Ew by exact E. reflexivity.
      * apply (IH _ v0); [|exact HP].
        rewrite lookup_apply_write, decide_True, Ew, HK by exact E. reflexivity.
    + apply (IH _ v0); [|exact HP].
      rewrite lookup_apply_write, decide_False by exact E. exact HK.
Qed.

(** The value under a key after a batch all of whose writes to the key
    are of one kind. *)
Lemma lookup_apply_values (P : list byte -> Prop) (ops : list db.write)
  (K : string * list byte) :
  Forall (fun w => db.target w = K -> P (db.wvalue w)) ops ->
  forall kv : db.Store,
  (forall v, kv !! K = Some v -> P v) ->
  forall v, foldl db.apply_write kv ops !! K = Some v -> P v.
Proof.
  induction 1 as [|w ops Hw _ IH]; intros kv HK v Hv.
  - exact (HK v Hv).
  - cbn [foldl] in Hv. refine (IH _ _ v Hv).
    intros v'. rewrite lookup_apply_write.
    case_decide as E; [|apply HK].
    intros [= <-]. destruct (db.is_WPut w); [exact (Hw E)|].
    destruct (kv !! K) as [old|] eqn:Eold; cbn [default];
      [exact (HK old eq_refl)|exact (Hw E)].
Qed.

Section Total.

Variable sc : Schema.

(** The count reader on a counter that is absent or eight bytes long. *)
Lemma s_count_of_ok (f : db.Faults) (kv : db.Store) (d : side) (A : string) :
  reads_work f ->
  (forall v, kv !! s_count_key sc d A = Some v -> length v = 8%nat) ->
  exists c, s_count_of sc d f kv A = Some (c, None).
Proof.
  intros Hf H8. unfold s_count_of.
  destruct (kv !! s_count_key sc d A) as [v|] eqn:E.
  - rewrite (Get_lookup _ _ _ _ _ (Hf _ _) E).
    rewrite (H8 v eq_refl). cbn [Nat.eqb].
    destruct (Uint64_of_eight v (H8 v eq_refl)) as [c ->].
    exists c. reflexivity.
  - rewrite (Get_missing _ _ _ _ (Hf _ _) E). exists 0. reflexivity.
Qed.

(** On such counters the loop runs to its end. *)
Lemma s_loop_total (f : db.Faults) (kv : db.Store) (items : list Item) :
  reads_work f ->
  (forall d A v, kv !! s_count_key sc d A = Some v -> length v = 8%nat) ->
  forall (sd rd : gmap string Z) (batch : list db.write),
  exists batch', s_loop sc f kv items sd rd batch = Some (batch', None).
Proof.
  intros Hf H8. induction items as [|it items IH]; intros sd rd batch.
  - exists batch. reflexivity.
  - cbn [s_loop].
    destruct (s_count_of_ok f kv AsSender (i_from it) Hf (H8 _ _)) as [cS ->].
    cbn [mbind option_bind].
    destruct (s_count_of_ok f kv AsRecipient (i_to it) Hf (H8 _ _)) as [cR ->].
    cbn [mbind option_bind]. apply IH.
Qed.

(** The loop writes eight bytes to the counters. *)
Lemma s_loop_eight (f : db.Faults) (kv : db.Store) (items : list Item) :
  forall (sd rd : gmap string Z) (batch batch' : list db.write),
  s_loop sc f kv items sd rd batch = Some (batch', None) ->
  exists ops, batch' = batch ++ ops /\
    Forall (fun w => db.is_WPut w = true -> length (db.wvalue w) = 8%nat) ops.
Proof.
  induction items as [|it items IH]; intros sd rd batch batch' H.
  - simpl in H. injection H as <-. exists []. rewrite app_nil_r. auto.
  - apply s_loop_cons_ok in H as (cS & cR & _ & _ & H).
    apply IH in H as (ops & -> & Hops).
    eexists. split; [rewrite <- app_assoc; reflexivity|].
    apply Forall_app. split; [|exact Hops].
    unfold s_writes.
    repeat (constructor;
            [cbn [db.is_WPut db.wvalue]; intros;
             first [discriminate|apply length_Uint64ToBytes]|]).
    constructor.
Qed.

End Total.

(** The overwrites among the first writes of [putBlock] that aim at a
    singleton counter write eight bytes. *)
Lemma block_writes_eight (blk : Block) (serialized : list byte)
  (top tt tv : Z) (key : list byte) :
  key ∈ [topHeightKey; totalTransfersKey; totalVotesKey] ->
  Forall (fun w => db.target w = (blockNS, key) -> db.is_WPut w = true ->
                   length (db.wvalue w) = 8%nat)
    (block_writes blk serialized top tt tv).
Proof.
  intros Hkey.
  assert (Hw : forall w : db.write,
             db.is_WPut w = false \/ db.wns w <> blockNS \/
             length (db.wvalue w) = 8%nat ->
             db.target w = (blockNS, key) -> db.is_WPut w = true ->
             length (db.wvalue w) = 8%nat).
  { intros w [Hw|[Hw|Hw]] E Hput; [congruence| |exact Hw].
    apply pair_equal_spec in E as [E _]. destruct (Hw E). }
  unfold block_writes. rewrite !Forall_app. repeat split.
  - constructor; [refine (Hw _ _); left; reflexivity|].
    constructor; [refine (Hw _ _); right; left; discriminate|].
    constructor; [refine (Hw _ _); right; left; discriminate|].
    constructor.
  - destruct (Height blk >? top); [constructor; [|constructor]|constructor].
    refine (Hw _ _). right; right. apply length_Uint64ToBytes.
  - constructor; [refine (Hw _ _); right; right; apply length_Uint64ToBytes|].
    constructor; [refine (Hw _ _); right; right; apply length_Uint64ToBytes|].
    constructor.
  - apply Forall_fmap, Forall_true. intros t. cbv beta. refine (Hw _ _).
    right; left. discriminate.
  - apply Forall_fmap, Forall_true. intros v. cbv beta. refine (Hw _ _).
    right; left. discriminate.
Qed.

(** The writes of the loop that aim outside the index write eight
    bytes. *)
Lemma s_write_eight_targets (sc : Schema) (ops : list db.write) (ns : string)
  (key : list byte) :
  Forall (s_write sc) ops ->
  Forall (fun w => db.is_WPut w = true -> length (db.wvalue w) = 8%nat) ops ->
  ns <> indexNS sc ->
  Forall (fun w => db.target w = (ns, key) -> length (db.wvalue w) = 8%nat) ops.
Proof.
  rewrite !Forall_forall. intros Hs H8 Hns w Hin E.
  destruct (Hs w Hin) as [[Hw _]|[_ Hput]]; [|exact (H8 w Hin Hput)].
  apply pair_equal_spec in E as [E _]. congruence.
Qed.

Section WellFormed.

Variable GetAddress : list byte -> string * error.

(** X14. [putBlock] runs to its end on the stores it makes. A first
    [Start] leaves a store where every counter that is there holds eight
    bytes. On such a store, with reads and a commit that work, [putBlock]
    of a block that serializes and whose votes derive their addresses
    returns without an error (in particular no decoding of a counter goes
    out of range), and the store it leaves is such a store again. *)
Theorem putBlock_succeeds :
  (forall (f0 : db.Faults) (kv0 : db.Store),
     Start f0 ∅ = (kv0, None) -> counters_ok kv0) /\
  (forall (f : db.Faults) (kv : db.Store) (blk : Block),
     counters_ok kv ->
     reads_work f ->
     (forall m batch, db.Commit_fails f m batch = None) ->
     snd (Serialize blk) = None ->
     derivable GetAddress (Votes blk) ->
     exists kv', putBlock GetAddress f kv blk = Some (kv', None) /\
                 counters_ok kv').
Proof.
  split.
  - intros f0 kv0 HS. pose proof (Start_fresh _ _ HS) as (L1 & L2 & L3).
    split.
    + intros key Hkey. exists (make_bytes 8).
      rewrite !elem_of_cons in Hkey.
      destruct Hkey as [-> | [-> | [-> | Hkey]]]; [auto..|].
      apply elem_of_nil in Hkey. destruct Hkey.
    + intros ns key v Hns Hv.
      assert (E : kv0 = fst (Start f0 ∅)) by (rewrite HS; reflexivity).
      rewrite E, Start_other_ns, lookup_empty in Hv
        by (destruct Hns as [-> | ->]; discriminate).
      discriminate Hv.
  - intros f kv blk [Hsing Hcnt] Hf Hcommit HSer Hder.
    assert (Hput : exists kv', putBlock GetAddress f kv blk = Some (kv', None)).
    { unfold putBlock.
      destruct (Serialize blk) as [ser e]. simpl in HSer. subst e.
      destruct (Hsing topHeightKey) as (vtop & Ltop & Htop); [set_solver|].
      destruct (Hsing totalTransfersKey) as (vtt & Ltt & Htt); [set_solver|].
      destruct (Hsing totalVotesKey) as (vtv & Ltv & Htv); [set_solver|].
      rewrite (Get_lookup _ _ _ _ _ (Hf _ _) Ltop).
      destruct (Uint64_of_eight vtop Htop) as [top ->]. cbn [mbind option_bind].
      rewrite (Get_lookup _ _ _ _ _ (Hf _ _) Ltt).
      destruct (Uint64_of_eight vtt Htt) as [tt ->]. cbn [mbind option_bind].
      rewrite (Get_lookup _ _ _ _ _ (Hf _ _) Ltv).
      destruct (Uint64_of_eight vtv Htv) as [tv ->]. cbn [mbind option_bind].
      unfold putTransfers, putVotes.
      rewrite putTransfers_loop_schema.
      match goal with
      | |- context [s_loop transferSchema f kv ?items ?sd ?rd ?b] =>
          destruct (s_loop_total transferSchema f kv items Hf
                      (fun d A v => Hcnt _ _ v (or_introl eq_refl)) sd rd b)
            as [b1 ->]
      end.
      cbn [mbind option_bind].
      rewrite (putVotes_loop_schema _ _ _ _ Hder).
      match goal with
      | |- context [s_loop voteSchema f kv ?items ?sd ?rd ?b] =>
          destruct (s_loop_total voteSchema f kv items Hf
                      (fun d A v => Hcnt _ _ v (or_intror eq_refl)) sd rd b)
            as [b2 ->]
      end.
      cbn [mbind option_bind]. unfold db.Commit. rewrite Hcommit.
      eexists. reflexivity. }
    destruct Hput as [kv' Hput]. exists kv'. split; [exact Hput|].
    apply putBlock_ok_schema in Hput
      as (ser & top & tt & tv & tops & vops & _ & LT & HT & _ & LV & HV & ->).
    apply s_loop_eight in LT as (tops' & ET & HT8).
    apply app_inv_head in ET. subst tops'.
    apply s_loop_eight in LV as (vops' & EV & HV8).
    apply app_inv_head in EV. subst vops'.
    split.
    + intros key Hkey. destruct (Hsing key Hkey) as (v0 & L0 & H0).
      rewrite (s_write_other_ns voteSchema) by (first [exact HV|discriminate]).
      rewrite (s_write_other_ns transferSchema)
        by (first [exact HT|discriminate]).
      exact (lookup_apply_inv (fun v => length v = 8%nat) _ _
               (block_writes_eight blk ser top tt tv key Hkey) kv v0 L0 H0).
    + intros ns key v Hns.
      apply (lookup_apply_values (fun v => length v = 8%nat) vops (ns, key)).
      { apply (s_write_eight_targets voteSchema); [exact HV|exact HV8|].
        destruct Hns as [-> | ->]; discriminate. }
      apply (lookup_apply_values (fun v => length v = 8%nat) tops (ns, key)).
      { apply (s_write_eight_targets transferSchema); [exact HT|exact HT8|].
        destruct Hns as [-> | ->]; discriminate. }
      intros v'. rewrite block_writes_other_ns
        by (destruct Hns as [-> | ->]; discriminate).
      exact (Hcnt ns key v' Hns).
Qed.

End WellFormed.

Lemma putBlock_succeeds_witness :
  exists kv',
    putBlock Scenario.GetAddress db.healthy Scenario.fresh Scenario.B5
    = Some (kv', None) /\
    counters_ok kv'.
Proof.
  destruct (putBlock_succeeds Scenario.GetAddress) as [H0 Hstep].
  apply (Hstep db.healthy Scenario.fresh Scenario.B5).
  - exact (H0 db.healthy _ fresh_started).
  - intros ns key. reflexivity.
  - intros m batch. reflexivity.
  - reflexivity.
  - repeat constructor.
Defined.
